(** * A navigable conversation over a graph of steps

    Shallow embedding of the [Conversation] class of [src/index.ts] and of the
    graph it walks ([src/parser.ts]).  The sources carry two revisions of the
    class side by side:

    - the revision over _conversation flows_ ([type: 'conversation'], with the
      precomputed [starts] list and the per-step [edges] of [parser.ts]); it is
      embedded in [Module ConvFlow];
    - the revision over raw _flowcharts_ ([type] containing ['flowchart'], with
      the global [edges] list and the [vertices] record); it is embedded in
      [Module Flowchart].

    Both are translated method by method.  The methods the two revisions share
    word for word ([back], [isReady], [notify], [subscribe], [unsubscribe]) are
    translated once.

    Conventions of the embedding.

    - Objects live in a store: Conversation instances in [heap], the observer
      arrays (shared by reference between a conversation and its
      sub-conversations) in [arrays].  A reference is an index.
    - Step modules are user code with hidden state: that state is the abstract
      world [W], and the methods of a hook are functions over it.
    - An [async] method is run to completion where it is awaited; a promise is
      represented by its outcome ([promise]).  The un-awaited [gen.next()] that
      primes the generator runs where the promise it awaits settles.
    - An observer is a callback called for its effect only: it is a name, and
      each call of it is an entry of [log], with the conversation that made
      the call.  The constructor runs [findStart] to its end, so the
      observers that hear the first notification are those of the array
      passed to the constructor.  (In the code [findStart] goes on after the
      constructor has returned, and an observer subscribed at once may
      still hear it.)
    - [id in steps] and [id in vertices] are [key_in]: true of the keys of
      the record and of the names that every record inherits from
      [Object.prototype] (['constructor'], ['toString'], ...).  What is
      stored under an inherited name has no [props], so that [get]
      fails on it with a TypeError.
    - Calls that may recurse without bound (loops of the generator and of
      [findStart], calls from one conversation into another) are cut by a fuel
      counter; [OutOfFuel] says nothing about the program.
    - [render] only forwards to the renderer or to the hook and is left out. *)

From stdpp Require Import base option list strings.
From Stdlib Require Import ZArith Lia.

Set Default Proof Using "Type".
Open Scope string_scope.
Open Scope Z_scope.
Open Scope nat_scope.
Open Scope list_scope.

(** ** Errors and outcomes *)

Inductive error : Type :=
| GraphTypeMismatch                       (* 'Only conversation flows are supported.' / 'Only flowcharts are supported.' *)
| NoStartFound                            (* 'Could not find a starting point.' *)
| MissingSubroutineSource (id : string)   (* `No source provided for subroutine, ${id}.` *)
| ModuleResolutionError (path : string)   (* a rejected import() or readFile() *)
| TypeError                               (* a property read or a call on undefined *)
| StepError (code : nat).                 (* whatever a step module throws *)

Inductive res (A : Type) : Type :=
| Ok (a : A)
| Throw (e : error)
| Hang          (* awaits a promise that never settles *)
| OutOfFuel.
Arguments Ok {A} a.
Arguments Throw {A} e.
Arguments Hang {A}.
Arguments OutOfFuel {A}.

(** ** JavaScript odds and ends *)

(** Truthiness of an optional string: [undefined] and [''] are falsy. *)
Definition truthy (s : option string) : bool :=
  match s with
  | Some s => negb (String.eqb s "")
  | None => false
  end.

(** [a === b] on optional strings. *)
Definition strict_eq (a b : option string) : bool :=
  match a, b with
  | Some x, Some y => String.eqb x y
  | None, None => true
  | _, _ => false
  end.

(** [hay.includes(needle)]. *)
Fixpoint includes (needle hay : string) : bool :=
  String.prefix needle hay ||
  match hay with
  | EmptyString => false
  | String _ rest => includes needle rest
  end.

(** The properties that an object literal or a parsed JSON object inherits
    from [Object.prototype]: [name in record] is true of them, and
    [record[name]] is then a built-in function (for ['__proto__'],
    [Object.prototype] itself). *)
Definition inherited : list string :=
  ["constructor"; "hasOwnProperty"; "isPrototypeOf"; "propertyIsEnumerable";
   "toLocaleString"; "toString"; "valueOf"; "__proto__";
   "__defineGetter__"; "__defineSetter__"; "__lookupGetter__"; "__lookupSetter__"].

(** [arr.findIndex(p)]: the first index that satisfies [p], or [-1]. *)
Fixpoint findIndex {A} (p : A → bool) (l : list A) : Z :=
  match l with
  | [] => (-1)%Z
  | x :: l' =>
      if p x then 0%Z
      else let i := findIndex p l' in
           if (i <? 0)%Z then (-1)%Z else (i + 1)%Z
  end.

(** [arr.splice(start, deleteCount)], as far as the array is concerned: a
    negative [start] counts from the end. *)
Definition splice {A} (start : Z) (deleteCount : nat) (l : list A) : list A :=
  let len := Z.of_nat (length l) in
  let from := if (start <? 0)%Z then Z.max (len + start) 0 else Z.min start len in
  take (Z.to_nat from) l ++ drop (Z.to_nat from + deleteCount) l.

(** ** The graph *)

Record Edge : Type := {
  e_start : string;
  e_end : string;
  e_type : string;
  e_stroke : string;
  e_text : string;
}.

(** [{ from: Edge[]; to: Edge[] }]: the edges ending at and starting from a
    vertex. *)
Record Adjacent : Type := {
  a_from : list Edge;
  a_to : list Edge;
}.

Section Model.

Context {W : Type}.

(** What a step module hands back: [isReady] and [isComplete], either of which
    may be missing. *)
Record StepHook : Type := {
  h_isReady : option (W → res bool * W);
  h_isComplete : option (bool → W → res bool * W);
}.

(** [props.module]: absent, a function from props to a hook, or a string to
    [import()]. *)
Inductive ModuleRef : Type :=
| NoModule
| ModuleFn (f : W → res (option StepHook) * W)
| ModulePath (path : string).

(** A flow is the union of what the two revisions read: [ConvFlow] reads
    [type], [starts] and the steps with their own [edges]; [Flowchart] reads
    [type], the global [edges] and the vertices.  [f_vertices] lists the
    entries of the [steps] / [vertices] record in enumeration order. *)
Inductive Flow : Type := mkFlow {
  f_type : option string;
  f_starts : list string;
  f_edges : list Edge;
  f_vertices : list (string * Vertex);
}
with Vertex : Type := mkVertex {
  v_type : option string;
  v_edges : Adjacent;
  v_props : Props;
}
with Props : Type := mkProps {
  p_module : ModuleRef;
  p_key : option string;
  p_src : option string;
  p_flow : option Flow;
  p_start : option string;
  p_uri : option string;
}.

(** [record[id]], for a key of the record itself. *)
Fixpoint lookup_vertex (id : string) (l : list (string * Vertex)) : option Vertex :=
  match l with
  | [] => None
  | (k, v) :: l' => if String.eqb k id then Some v else lookup_vertex id l'
  end.

(** [id in record]: a key of the record itself, or a name that it
    inherits. *)
Definition key_in (id : string) (l : list (string * Vertex)) : bool :=
  match lookup_vertex id l with
  | Some _ => true
  | None => existsb (String.eqb id) inherited
  end.

(** ** Run-time objects *)

(** A hook is the object of a step module or a nested Conversation
    ([hook instanceof Conversation]). *)
Inductive Hook : Type :=
| Leaf (h : StepHook)
| Nested (conv : nat).

Record Step : Type := {
  s_edges : Adjacent;
  s_hook : option Hook;
  s_id : string;
}.

(** The field [step: Promise<Step | undefined>]. *)
Inductive promise : Type :=
| Unset                          (* the field has not been assigned yet *)
| Pending                        (* findStart has not settled *)
| Resolved (s : option Step)
| Rejected (e : error).

(** The async generator [gen]: not started, suspended at [yield next],
    finished, or stuck in a body that never resumes. *)
Inductive generator : Type :=
| GStart
| GYield (next : Step)
| GDone
| GStuck.

Record Conversation : Type := {
  c_flow : Flow;
  c_gen : generator;
  c_observers : nat;
  c_parent : option nat;
  c_step : promise;
  breadcrumbs : list Step;
}.

(** The argument of the constructor. *)
Record ConversationProps : Type := {
  cp_conversation : option nat;
  cp_flow : option Flow;
  cp_observers : option nat;
  cp_src : option string;
  cp_start : option string;
}.

(** One call of one observer; [n_from] records which conversation made it. *)
Record notification : Type := {
  n_from : nat;
  n_observer : nat;
  n_action : option string;
  n_step : option Step;
}.

Record state : Type := {
  world : W;
  log : list notification;
  heap : list Conversation;
  arrays : list (list nat);
}.

(** ** The monad of the engine: state that survives an exception *)

Definition M (A : Type) : Type := state → res A * state.

Definition ret {A} (a : A) : M A := λ st, (Ok a, st).

Definition bind {A B} (m : M A) (f : A → M B) : M B := λ st,
  match m st with
  | (Ok a, st') => f a st'
  | (Throw e, st') => (Throw e, st')
  | (Hang, st') => (Hang, st')
  | (OutOfFuel, st') => (OutOfFuel, st')
  end.


Definition throw {A} (e : error) : M A := λ st, (Throw e, st).
Definition hang {A} : M A := λ st, (Hang, st).
Definition out_of_fuel {A} : M A := λ st, (OutOfFuel, st).

End Model.

Arguments StepHook : clear implicits.
Arguments ModuleRef : clear implicits.
Arguments Flow : clear implicits.
Arguments Vertex : clear implicits.
Arguments Props : clear implicits.
Arguments Hook : clear implicits.
Arguments Step : clear implicits.
Arguments promise : clear implicits.
Arguments generator : clear implicits.
Arguments Conversation : clear implicits.
Arguments ConversationProps : clear implicits.
Arguments notification : clear implicits.
Arguments state : clear implicits.
Arguments M : clear implicits.

Declare Scope engine_scope.
Delimit Scope engine_scope with engine.
Notation "'let*' x ':=' m 'in' k" := (bind m (λ x, k))
  (at level 10, x name, m at level 100, k at level 200,
   format "'[v' 'let*'  x  ':='  m  'in' '/' k ']'") : engine_scope.
Notation "m ;; k" := (bind m (λ _, k))
  (at level 100, k at level 200, right associativity) : engine_scope.
Open Scope engine_scope.

(** The module loader [(await import(module))?.[key]], a collaborator. *)
Definition importer (W : Type) : Type :=
  string → string → res (option (W → res (option (StepHook W)) * W)).

Section Store.

Context {W : Type}.
#[local] Abbreviation M := (M W).
#[local] Abbreviation Step := (Step W).
#[local] Abbreviation promise := (promise W).
#[local] Abbreviation generator := (generator W).
#[local] Abbreviation Conversation := (Conversation W).
#[local] Abbreviation ConversationProps := (ConversationProps W).
#[local] Abbreviation notification := (notification W).
#[local] Abbreviation state := (state W).

(** A call whose promise nobody awaits: its exception is lost, and if it
    never resumes the caller still goes on. *)
Definition detached {A} (m : M A) : M unit := λ st,
  match m st with
  | (Ok _, st') => (Ok tt, st')
  | (Throw _, st') => (Ok tt, st')
  | (Hang, st') => (Ok tt, st')
  | (OutOfFuel, st') => (OutOfFuel, st')
  end.

(** [Promise.all(ms)]: every call is started, in order, whatever the others
    do; the result is the list of values, or the first rejection. *)
Fixpoint promise_all {A} (ms : list (M A)) : M (list A) := λ st,
  match ms with
  | [] => (Ok [], st)
  | m :: ms' =>
      match m st with
      | (OutOfFuel, st') => (OutOfFuel, st')
      | (r, st') =>
          match promise_all ms' st' with
          | (OutOfFuel, st'') => (OutOfFuel, st'')
          | (rs, st'') =>
              (match r, rs with
               | Ok a, Ok l => Ok (a :: l)
               | Ok _, other => other
               | Throw e, _ => Throw e
               | Hang, Throw e => Throw e
               | Hang, _ => Hang
               | OutOfFuel, _ => OutOfFuel
               end, st'')
          end
      end
  end.

(** *** Access to the store *)

Definition set_world (w : W) (st : state) : state :=
  {| world := w; log := log st; heap := heap st; arrays := arrays st |}.
Definition set_log (l : list notification) (st : state) : state :=
  {| world := world st; log := l; heap := heap st; arrays := arrays st |}.
Definition set_heap (h : list Conversation) (st : state) : state :=
  {| world := world st; log := log st; heap := h; arrays := arrays st |}.
Definition set_arrays (a : list (list nat)) (st : state) : state :=
  {| world := world st; log := log st; heap := heap st; arrays := a |}.

Definition with_gen (g : generator) (c : Conversation) : Conversation :=
  {| c_flow := c_flow c; c_gen := g; c_observers := c_observers c;
     c_parent := c_parent c; c_step := c_step c; breadcrumbs := breadcrumbs c |}.
Definition with_step (p : promise) (c : Conversation) : Conversation :=
  {| c_flow := c_flow c; c_gen := c_gen c; c_observers := c_observers c;
     c_parent := c_parent c; c_step := p; breadcrumbs := breadcrumbs c |}.
Definition with_breadcrumbs (b : list Step) (c : Conversation) : Conversation :=
  {| c_flow := c_flow c; c_gen := c_gen c; c_observers := c_observers c;
     c_parent := c_parent c; c_step := c_step c; breadcrumbs := b |}.

(** Calling user code: a method of a hook or a module function. *)
Definition call {A} (f : W → res A * W) : M A := λ st,
  let (r, w) := f (world st) in (r, set_world w st).

(** Reading [this]. *)
Definition self (this : nat) : M Conversation := λ st,
  match heap st !! this with
  | Some c => (Ok c, st)
  | None => (Throw TypeError, st)
  end.

Definition update (this : nat) (f : Conversation → Conversation) (st : state) : state :=
  match heap st !! this with
  | Some c => set_heap (<[this := f c]> (heap st)) st
  | None => st
  end.

Definition modify (this : nat) (f : Conversation → Conversation) : M unit :=
  λ st, (Ok tt, update this f st).

(** [new Conversation]: the next free reference. *)
Definition allocate (c : Conversation) : M nat := λ st,
  (Ok (length (heap st)), set_heap (heap st ++ [c]) st).

(** [observers = []]: a fresh array. *)
Definition new_array : M nat := λ st,
  (Ok (length (arrays st)), set_arrays (arrays st ++ [[]]) st).

Definition read_array (a : nat) : M (list nat) := λ st,
  (Ok (default [] (arrays st !! a)), st).

Definition modify_array (a : nat) (f : list nat → list nat) : M unit := λ st,
  (Ok tt, match arrays st !! a with
          | Some l => set_arrays (<[a := f l]> (arrays st)) st
          | None => st
          end).

(** [observers.forEach((observer) => observer(action, step))], as [this]. *)
Definition calls (this : nat) (action : option string) (step : option Step)
  (observers : list nat) : list notification :=
  map (λ observer, {| n_from := this; n_observer := observer;
                      n_action := action; n_step := step |}) observers.

(** The observers are called: one entry of the log per call. *)
Definition emit (ns : list notification) : M unit := λ st,
  (Ok tt, set_log (log st ++ ns) st).

(** [await p]. *)
Definition await (p : promise) : M (option Step) :=
  match p with
  | Unset => ret None
  | Pending => hang
  | Resolved s => ret s
  | Rejected e => throw e
  end.

(** ** What one method may call in another object, or in a later turn of a
    loop *)

Record methods : Type := {
  conversation_ : ConversationProps → M nat;
  continue_ : nat → option string → bool → M (option Step);
  back_ : nat → bool → M (option Step);
  isReady_ : nat → M bool;
  isComplete_ : nat → bool → M bool;
  subscribe_ : nat → nat → M unit;
  unsubscribe_ : nat → nat → M unit;
  findLoop_ : nat → nat → option Step → M (option Step);
  genLoop_ : nat → option string → option Step → M (bool * option Step);
}.

Definition no_fuel : methods := {|
  conversation_ := λ _, out_of_fuel;
  continue_ := λ _ _ _, out_of_fuel;
  back_ := λ _ _, out_of_fuel;
  isReady_ := λ _, out_of_fuel;
  isComplete_ := λ _ _, out_of_fuel;
  subscribe_ := λ _ _, out_of_fuel;
  unsubscribe_ := λ _ _, out_of_fuel;
  findLoop_ := λ _ _ _, out_of_fuel;
  genLoop_ := λ _ _ _, out_of_fuel;
|}.

(** ** The methods both revisions share *)

Section Shared.

Variable rec : methods.

(** [await x?.hook?.isReady?.()] *)
Definition hook_isReady (s : option Step) : M bool :=
  match s ≫= s_hook with
  | None => ret false
  | Some (Leaf h) =>
      match h_isReady h with
      | Some f => call f
      | None => ret false
      end
  | Some (Nested r) => isReady_ rec r
  end.

(** [await x?.hook?.isComplete?.(throwOnError) ?? missing] *)
Definition hook_isComplete (missing : bool) (throwOnError : bool) (s : option Step) : M bool :=
  match s ≫= s_hook with
  | None => ret missing
  | Some (Leaf h) =>
      match h_isComplete h with
      | Some f => call (f throwOnError)
      | None => ret missing
      end
  | Some (Nested r) => isComplete_ rec r throwOnError
  end.

(** <<
  private async notify(action: string, step: Step) {
    if (action !== 'start' || !this.parent)
      this.observers.forEach((observer) => observer(action, step));
    return (this.step = Promise.resolve(step));
  }
>> *)
Definition notify (this : nat) (action : option string) (step : option Step)
  : M (option Step) :=
  let* c := self this in
  (if negb (strict_eq action (Some "start")) || negb (bool_decide (is_Some (c_parent c)))
   then
     let* observers := read_array (c_observers c) in
     emit (calls this action step observers)
   else ret tt);;
  modify this (with_step (Resolved step));;
  ret step.

(** <<
  async back(fromChild: boolean = false) {
    const step = await this.step;
    if (!fromChild && step?.hook instanceof Conversation)
      return step?.hook.back();
    if (!this.breadcrumbs.length) return this.parent?.back(true);
    return this.notify('back', this.breadcrumbs.pop());
  }
>> *)
Definition back (this : nat) (fromChild : bool) : M (option Step) :=
  let* c := self this in
  let* step := await (c_step c) in
  match fromChild, step ≫= s_hook with
  | false, Some (Nested child) => back_ rec child false
  | _, _ =>
      match last (breadcrumbs c) with
      | None =>
          match c_parent c with
          | Some p => back_ rec p true
          | None => ret None
          end
      | Some crumb =>
          modify this (with_breadcrumbs (removelast (breadcrumbs c)));;
          notify this (Some "back") (Some crumb)
      end
  end.

(** <<
  async isReady() { return Boolean(await this.step); }
>> *)
Definition isReady (this : nat) : M bool :=
  let* c := self this in
  let* step := await (c_step c) in
  ret (bool_decide (is_Some step)).

(** <<
  subscribe(observer) {
    this.observers.push(observer);
    this.parent?.subscribe(observer);
  }
>> *)
Definition subscribe (this : nat) (observer : nat) : M unit :=
  let* c := self this in
  modify_array (c_observers c) (λ l, l ++ [observer]);;
  match c_parent c with
  | Some p => subscribe_ rec p observer
  | None => ret tt
  end.

(** <<
  unsubscribe(observer) {
    this.observers.splice(
      this.observers.findIndex((itm) => itm === observer), 1);
    this.parent?.unsubscribe(observer);
  }
>> *)
Definition unsubscribe (this : nat) (observer : nat) : M unit :=
  let* c := self this in
  modify_array (c_observers c)
    (λ l, splice (findIndex (λ itm, Nat.eqb itm observer) l) 1 l);;
  match c_parent c with
  | Some p => unsubscribe_ rec p observer
  | None => ret tt
  end.

End Shared.

Section Helpers.

(** A promise for a call that has been started: its eventual outcome. *)
Definition as_promise (m : M (option Step)) : M promise := λ st,
  match m st with
  | (Ok s, st') => (Ok (Resolved s), st')
  | (Throw e, st') => (Ok (Rejected e), st')
  | (Hang, st') => (Ok Pending, st')
  | (OutOfFuel, st') => (OutOfFuel, st')
  end.

(** [this.step = this.findStart(start)]: whatever [findStart] does, the
    constructor returns; a rejection stays in the field. *)
Definition settle (this : nat) (m : M (option Step)) : M unit := λ st,
  match m st with
  | (Ok _, st') => (Ok tt, st')
  | (Throw e, st') => (Ok tt, update this (with_step (Rejected e)) st')
  | (Hang, st') => (Ok tt, update this (with_step Pending) st')
  | (OutOfFuel, st') => (OutOfFuel, st')
  end.

(** The body of the generator runs: an exception finishes the generator, a
    body that never resumes blocks it. *)
Definition generator_body {A} (this : nat) (m : M A) : M A := λ st,
  match m st with
  | (Throw e, st') => (Throw e, update this (with_gen GDone) st')
  | (Hang, st') => (Hang, update this (with_gen GStuck) st')
  | r => r
  end.

(** [yield next] inside [while (next)], or [return next] after it. *)
Definition suspend (this : nat) (next : option Step) : M (bool * option Step) :=
  match next with
  | Some s => modify this (with_gen (GYield s));; ret (false, Some s)
  | None => modify this (with_gen GDone);; ret (true, None)
  end.

(** [this.breadcrumbs.push(step)] *)
Definition push_breadcrumb (this : nat) (step : Step) : M unit :=
  modify this (λ c, with_breadcrumbs (breadcrumbs c ++ [step]) c).

End Helpers.

End Store.

Arguments methods : clear implicits.

(** ** The revision over conversation flows *)

Module ConvFlow.
Section Methods.

Context {W : Type}.
#[local] Abbreviation M := (M W).
#[local] Abbreviation Step := (Step W).
#[local] Abbreviation ConversationProps := (ConversationProps W).

Variable import_ : importer W.

Variable rec : methods W.

(** <<
  async get(id?: string) {
    if (!id) return this.step;
    if (!(id in this.flow.steps)) return;
    const { edges, props: { module, key, ...props }, type } = this.flow.steps[id];
    let step;
    props.conversation = this;
    switch (type) {
      case 'subroutine':
        if (!props.flow) throw new Error(`No source provided for subroutine, ${id}.`);
        props.observers = this.observers;
        step = conversation;
        break;
      default:
        if (typeof module === 'string') {
          step = (await import(module))?.[key ?? 'default'];
        } else if (module) { step = module; }
    }
    const hook = await step?.({ ...props });
    return { edges, hook, id };
  }
>>
    When [id] passes the test [in] without being a key of [steps], the
    value under it has no [props] and the destructuring throws. *)
Definition get (this : nat) (id : option string) : M (option Step) :=
  let* c := self this in
  if negb (truthy id) then await (c_step c)
  else
    let id := default "" id in
    if negb (key_in id (f_vertices (c_flow c))) then ret None
    else
    match lookup_vertex id (f_vertices (c_flow c)) with
    | None => throw TypeError
    | Some v =>
        let props := v_props v in
        let* hook :=
          (if strict_eq (v_type v) (Some "subroutine") then
             match p_flow props with
             | None => throw (MissingSubroutineSource id)
             | Some flow =>
                 let* child := conversation_ rec
                           {| cp_conversation := Some this;
                              cp_flow := Some flow;
                              cp_observers := Some (c_observers c);
                              cp_src := p_src props;
                              cp_start := p_start props |} in
                 ret (Some (Nested child))
             end
           else
             match p_module props with
             | ModulePath path =>
                 match import_ path (default "default" (p_key props)) with
                 | Ok (Some step) => let* h := call step in ret (Leaf <$> h)
                 | Ok None => ret None
                 | Throw e => throw e
                 | Hang => hang
                 | OutOfFuel => out_of_fuel
                 end
             | ModuleFn step => let* h := call step in ret (Leaf <$> h)
             | NoModule => ret None
             end) in
        ret (Some {| s_edges := v_edges v; s_hook := hook; s_id := id |})
    end.

(** The inner loop of [genContinue]:
<<
          for (const { end } of next.edges.to) {
            const _next = await this.get(end);
            if (!(await _next?.hook?.isReady?.())) continue;
            next = _next;
            continue outer;
          }
          next = undefined;
>> *)
Fixpoint scan (this : nat) (edges : list Edge) : M (option Step) :=
  match edges with
  | [] => ret None
  | e :: edges' =>
      let* _next := get this (Some (e_end e)) in
      let* ready := hook_isReady rec _next in
      if ready then ret _next else scan this edges'
  end.

(** <<
  private async *genContinue() {
    let id;
    let next: Step = await this.step;
    outer: while (next) {
      if (await next?.hook?.isComplete?.()) {
        this.breadcrumbs.push(next);
        if (id) { next = await this.get(id); continue; }
        else { (the scan above) continue; }
      }
      id = yield next;
    }
    return next;
  }
>>
    [genLoop] is one turn of [outer], entered with the current [id] and
    [next]; it answers the pending [gen.next()] with [(done, value)]. *)
Definition genLoop (this : nat) (id : option string) (next : option Step)
  : M (bool * option Step) :=
  match next with
  | None => suspend this None
  | Some s =>
      let* complete := hook_isComplete rec false false next in
      if complete then
        push_breadcrumb this s;;
        let* next := (if truthy id then get this id else scan this (a_to (s_edges s))) in
        genLoop_ rec this id next
      else suspend this next
  end.

(** [this.gen.next(id)] *)
Definition genNext (this : nat) (id : option string) : M (bool * option Step) :=
  let* c := self this in
  generator_body this
    match c_gen c with
    | GStart => let* next := await (c_step c) in genLoop this None next
    | GYield next => genLoop this id (Some next)
    | GDone => ret (true, None)
    | GStuck => hang
    end.

(** The loop of [findStart]:
<<
    let index = 0;
    while (step || this.flow.starts[index]) {
      if (await step?.hook?.isReady?.()) break;
      step = await this.get(this.flow.starts[index++] ?? ' ');
    }
>> *)
Definition findLoop (this : nat) (index : nat) (step : option Step) : M (option Step) :=
  let* c := self this in
  let entry := f_starts (c_flow c) !! index in
  if bool_decide (is_Some step) || truthy entry then
    let* ready := hook_isReady rec step in
    if ready then ret step
    else
      let* step := get this (Some (default " " entry)) in
      findLoop_ rec this (S index) step
  else ret step.

(** <<
  private async findStart(start?: string) {
    let step: Step;
    if (start) { step = await this.get(start); }
    (the loop above)
    if (!step) throw new Error('Could not find a starting point.');
    this.gen?.next(); // Start the generator
    return this.notify(step?.id === start ? start : 'start', step);
  }
>>
    The generator started here first awaits [this.step], the promise of
    [findStart] itself: its body goes on once [notify] has run. *)
Definition findStart (this : nat) (start : option string) : M (option Step) :=
  let* step := (if truthy start then get this start else ret None) in
  modify this (with_step Pending);;
  let* step := findLoop this 0 step in
  match step with
  | None => throw NoStartFound
  | Some s =>
      let* step := notify this
                (if strict_eq (Some (s_id s)) start then start else Some "start")
                step in
      detached (genNext this None);;
      ret step
  end.

(** <<
  constructor({ conversation, flow, observers = [], start = undefined }) {
    if (flow?.type !== 'conversation')
      throw new Error('Only conversation flows are supported.');
    this.breadcrumbs = [];
    this.flow = flow;
    this.gen = this.genContinue();
    this.observers = observers;
    this.parent = conversation;
    this.step = this.findStart(start);
  }
  export default async function conversation(props) {
    return new Conversation(props);
  }
>> *)
Definition conversation (props : ConversationProps) : M nat :=
  let* observers := match cp_observers props with
              | Some a => ret a
              | None => new_array
              end in
  match cp_flow props with
  | Some flow =>
      if strict_eq (f_type flow) (Some "conversation") then
        let* this := allocate {| c_flow := flow; c_gen := GStart;
                           c_observers := observers;
                           c_parent := cp_conversation props;
                           c_step := Unset; breadcrumbs := [] |} in
        settle this (findStart this (cp_start props));;
        ret this
      else throw GraphTypeMismatch
  | None => throw GraphTypeMismatch
  end.

(** <<
  async continue(id?: string, fromChild: boolean = false) {
    const step = await this.step;
    if (!fromChild && step?.hook instanceof Conversation) {
      const _next = await step?.hook.continue(id);
      if (_next) return _next;
    }
    const next = await this.gen.next(id);
    if (step?.id === next?.value?.id) return next.value;
    if (next.done && this.parent) { return this.parent.continue(id, true); }
    return this.notify(
      (next.done && !this.parent ? 'done' : id) ?? 'continue', next.value);
  }
>> *)
Definition continue (this : nat) (id : option string) (fromChild : bool)
  : M (option Step) :=
  let* c := self this in
  let* step := await (c_step c) in
  let* _next := match fromChild, step ≫= s_hook with
          | false, Some (Nested child) => continue_ rec child id false
          | _, _ => ret None
          end in
  match _next with
  | Some _ => ret _next
  | None =>
      let* next := genNext this id in
      let '(done, value) := next in
      if strict_eq (s_id <$> step) (s_id <$> value) then ret value
      else
        match done, c_parent c with
        | true, Some parent => continue_ rec parent id true
        | true, None => notify this (Some "done") value
        | false, _ => notify this (Some (default "continue" id)) value
        end
  end.

(** <<
  async isComplete(throwOnError: boolean = false) {
    return !(
      await Promise.all(
        [await this.get(), ...this.breadcrumbs].map(
          (cur) => cur?.hook?.isComplete?.(throwOnError) ?? true))
    ).some((pass) => !pass);
  }
>> *)
Definition isComplete (this : nat) (throwOnError : bool) : M bool :=
  let* cur := get this None in
  let* c := self this in
  let* passes := promise_all (map (hook_isComplete rec true throwOnError)
                            (cur :: map Some (breadcrumbs c))) in
  ret (negb (existsb negb passes)).

Definition methods_of : methods W := {|
  conversation_ := conversation;
  continue_ := continue;
  back_ := back rec;
  isReady_ := isReady;
  isComplete_ := isComplete;
  subscribe_ := subscribe rec;
  unsubscribe_ := unsubscribe rec;
  findLoop_ := findLoop;
  genLoop_ := genLoop;
|}.

End Methods.

(** The class, with [fuel] levels of calls and loop turns to spend. *)
Fixpoint run {W} (import_ : importer W) (fuel : nat) : methods W :=
  match fuel with
  | 0 => no_fuel
  | S fuel' => methods_of import_ (run import_ fuel')
  end.

End ConvFlow.

(** ** The revision over raw flowcharts *)

Module Flowchart.
Section Methods.

Context {W : Type}.
#[local] Abbreviation M := (M W).
#[local] Abbreviation Step := (Step W).
#[local] Abbreviation ConversationProps := (ConversationProps W).

Variable import_ : importer W.

(** [JSON.parse(await readFile(src, 'utf8'))], a collaborator. *)
Variable readFlow : string → res (Flow W).

Variable rec : methods W.

(** The edges of a vertex, out of the list of all edges:
<<
      edges: this.flow.edges.reduce((acc, cur) => {
          if (cur.end === id) { acc.from.push(cur); }
          if (cur.start === id) { acc.to.push(cur); }
          return acc;
        }, { from: [], to: [] }),
>> *)
Definition adjacent (id : string) (edges : list Edge) : Adjacent :=
  {| a_from := filter (λ cur, e_end cur = id) edges;
     a_to := filter (λ cur, e_start cur = id) edges |}.

(** <<
  async get(id?: string) {
    if (!id) return this.step;
    if (!(id in this.flow.vertices)) return;
    const { props: { module, key, src, ...props }, type } = this.flow.vertices[id];
    let step;
    props.conversation = this;
    switch (type) {
      case 'subroutine':
        if (!src && !props.flow)
          throw new Error(`No source provided for subroutine, ${id}.`);
        props.observers = this.observers;
        step = conversation;
        break;
      default: (as in the other revision)
    }
    const hook = await step?.({ ...props });
    return { edges: (the reduce above), hook, id };
  }
>>
    [src] is taken out of [props]: the nested [conversation(props)] gets
    none.  When [id] passes the test [in] without being a key of
    [vertices], the value under it has no [props] and the destructuring
    throws. *)
Definition get (this : nat) (id : option string) : M (option Step) :=
  let* c := self this in
  if negb (truthy id) then await (c_step c)
  else
    let id := default "" id in
    if negb (key_in id (f_vertices (c_flow c))) then ret None
    else
    match lookup_vertex id (f_vertices (c_flow c)) with
    | None => throw TypeError
    | Some v =>
        let props := v_props v in
        let* hook :=
          (if strict_eq (v_type v) (Some "subroutine") then
             if negb (truthy (p_src props)) && negb (bool_decide (is_Some (p_flow props)))
             then throw (MissingSubroutineSource id)
             else
               let* child := conversation_ rec
                         {| cp_conversation := Some this;
                            cp_flow := p_flow props;
                            cp_observers := Some (c_observers c);
                            cp_src := None;
                            cp_start := p_start props |} in
               ret (Some (Nested child))
           else
             match p_module props with
             | ModulePath path =>
                 match import_ path (default "default" (p_key props)) with
                 | Ok (Some step) => let* h := call step in ret (Leaf <$> h)
                 | Ok None => ret None
                 | Throw e => throw e
                 | Hang => hang
                 | OutOfFuel => out_of_fuel
                 end
             | ModuleFn step => let* h := call step in ret (Leaf <$> h)
             | NoModule => ret None
             end) in
        ret (Some {| s_edges := adjacent id (f_edges (c_flow c));
                     s_hook := hook; s_id := id |})
    end.

(** [await x?.hook?.isComplete()]: a hook without the method is a TypeError. *)
Definition isComplete_of (throwOnError : bool) (s : option Step) : M bool :=
  match s ≫= s_hook with
  | None => ret false
  | Some (Leaf h) =>
      match h_isComplete h with
      | Some f => call (f throwOnError)
      | None => throw TypeError
      end
  | Some (Nested r) => isComplete_ rec r throwOnError
  end.

(** [await x?.hook.isReady()]: a step without a hook, or a hook without the
    method, is a TypeError. *)
Definition isReady_of (s : option Step) : M bool :=
  match s with
  | None => ret false
  | Some s =>
      match s_hook s with
      | None => throw TypeError
      | Some (Leaf h) =>
          match h_isReady h with
          | Some f => call f
          | None => throw TypeError
          end
      | Some (Nested r) => isReady_ rec r
      end
  end.

(** The inner loop of [genContinue]; [next] starts undefined:
<<
        for (const { end } of step.edges.to) {
          const _next = await this.get(end);
          if (!(await _next?.hook.isReady())) continue;
          next = _next;
        }
>> *)
Fixpoint scan (this : nat) (edges : list Edge) (next : option Step) : M (option Step) :=
  match edges with
  | [] => ret next
  | e :: edges' =>
      let* _next := get this (Some (e_end e)) in
      let* ready := isReady_of _next in
      scan this edges' (if ready then _next else next)
  end.

(** <<
  private async *genContinue() {
    let next: Step = await this.step;
    while (next) {
      const id = yield next;
      const step = await this.get(id);
      if (!(await step?.hook?.isComplete())) { next = step; continue; }
      next = undefined;
      this.breadcrumbs.push(step);
      if (step) { (the scan above) }
    }
    return next;
  }
>> *)
Definition genNext (this : nat) (id : option string) : M (bool * option Step) :=
  let* c := self this in
  generator_body this
    match c_gen c with
    | GStart => let* next := await (c_step c) in suspend this next
    | GYield _ =>
        let* step := get this id in
        let* complete := isComplete_of false step in
        if negb complete then suspend this step
        else
          match step with
          | Some s =>
              push_breadcrumb this s;;
              let* next := scan this (a_to (s_edges s)) None in
              suspend this next
          | None => suspend this None
          end
    | GDone => ret (true, None)
    | GStuck => hang
    end.

(** The first vertex that [findStart] takes for an entry:
<<
    for (const id in this.flow.vertices) {
      const { props: { uri }, type } = this.flow.vertices[id];
      if (type === 'stadium' || uri === start) {
        this.step = this.get(id);
        break;
      }
    }
>> *)
Fixpoint entry (start : option string) (vertices : list (string * Vertex W)) : option string :=
  match vertices with
  | [] => None
  | (id, v) :: vertices' =>
      if strict_eq (v_type v) (Some "stadium") || strict_eq (p_uri (v_props v)) start
      then Some id
      else entry start vertices'
  end.

(** The end of a turn of the loop of [findStart], and its next turn:
<<
    let vertex: Step;
    do {
      vertex = (await this.gen?.next(vertex?.id))?.value;
    } while (await vertex?.hook?.isComplete());
>> *)
Definition findWhile (this : nat) (vertex : option Step) : M (option Step) :=
  let* complete := isComplete_of false vertex in
  if complete then findLoop_ rec this 0 vertex else ret vertex.

Definition findLoop (this : nat) (_ : nat) (vertex : option Step) : M (option Step) :=
  let* next := genNext this (s_id <$> vertex) in
  findWhile this (snd next).

(** <<
  private async findStart(start?: string) {
    if (start in this.flow.vertices) {
      const step = this.notify(start, await this.get(start));
      this.gen?.next(); // Start the generator
      return step;
    }
    (the for loop and the do-while loop above)
    if (!vertex) throw new Error('Could not find a starting point.');
    return this.notify('start', vertex);
  }
>>
    [start in vertices] takes an absent [start] for the key ['undefined'].
    In the second branch the generator starts on the promise of [get] that the
    for loop stored; after that the field holds the promise of [findStart]. *)
Definition findStart (this : nat) (start : option string) : M (option Step) :=
  let* c := self this in
  let vertices := f_vertices (c_flow c) in
  if key_in (default "undefined" start) vertices then
    let* found := get this start in
    let* step := notify this start found in
    detached (genNext this None);;
    ret step
  else
    match entry start vertices with
    | Some id =>
        let* p := as_promise (get this (Some id)) in
        modify this (with_step p)
    | None => ret tt
    end;;
    let* first := genNext this None in
    modify this (with_step Pending);;
    let* vertex := findWhile this (snd first) in
    match vertex with
    | None => throw NoStartFound
    | Some _ => notify this (Some "start") vertex
    end.

(** <<
  constructor({ conversation, flow, observers = [], start = undefined }) {
    if (!flow?.type?.includes('flowchart'))
      throw new Error('Only flowcharts are supported.');
    (then as in the other revision)
  }
  export default async function conversation(props) {
    if (props.src) {
      props.flow = JSON.parse(await readFile(props.src, 'utf8'));
    }
    return new Conversation(props);
  }
>> *)
Definition conversation (props : ConversationProps) : M nat :=
  let* flow := (if truthy (cp_src props) then
                  match readFlow (default "" (cp_src props)) with
                  | Ok flow => ret (Some flow)
                  | Throw e => throw e
                  | Hang => hang
                  | OutOfFuel => out_of_fuel
                  end
                else ret (cp_flow props)) in
  let* observers := match cp_observers props with
                    | Some a => ret a
                    | None => new_array
                    end in
  match flow with
  | Some flow =>
      if match f_type flow with
         | Some type => includes "flowchart" type
         | None => false
         end
      then
        let* this := allocate {| c_flow := flow; c_gen := GStart;
                                 c_observers := observers;
                                 c_parent := cp_conversation props;
                                 c_step := Unset; breadcrumbs := [] |} in
        settle this (findStart this (cp_start props));;
        ret this
      else throw GraphTypeMismatch
  | None => throw GraphTypeMismatch
  end.

(** <<
  async continue(id?: string, fromChild: boolean = false) {
    const step = await this.step;
    if (!fromChild && step?.hook instanceof Conversation) {
      const _next = await step?.hook.continue(id);
      if (_next) return _next;
    }
    const next = await this.gen.next(id);
    if (id === undefined && !next.done &&
        (await next.value?.hook?.isComplete())) {
      this.notify('continue', next.value);
      return this.continue(id, fromChild);
    }
    if (next.done && this.parent) { return this.parent.continue(id, true); }
    return this.notify(next.done ? 'done' : id ?? 'continue', next.value);
  }
>> *)
Definition continue (this : nat) (id : option string) (fromChild : bool)
  : M (option Step) :=
  let* c := self this in
  let* step := await (c_step c) in
  let* _next := match fromChild, step ≫= s_hook with
                | false, Some (Nested child) => continue_ rec child id false
                | _, _ => ret None
                end in
  match _next with
  | Some _ => ret _next
  | None =>
      let* next := genNext this id in
      let done := fst next in
      let value := snd next in
      let* again := (if bool_decide (id = None) && negb done
                     then isComplete_of false value
                     else ret false) in
      if again then
        notify this (Some "continue") value;;
        continue_ rec this id fromChild
      else
        match done, c_parent c with
        | true, Some parent => continue_ rec parent id true
        | true, None => notify this (Some "done") value
        | false, _ => notify this (Some (default "continue" id)) value
        end
  end.

(** The calls that [this.breadcrumbs.map(...)] starts; a crumb without the
    method stops the map with a TypeError ([None] at the end). *)
Fixpoint crumbs_started (throwOnError : bool) (crumbs : list Step)
  : list (M bool) * bool :=
  match crumbs with
  | [] => ([], true)
  | cur :: crumbs' =>
      match s_hook cur with
      | Some (Leaf h) =>
          match h_isComplete h with
          | Some f =>
              let (calls, whole) := crumbs_started throwOnError crumbs' in
              (call (f throwOnError) :: calls, whole)
          | None => ([], false)
          end
      | Some (Nested r) =>
          let (calls, whole) := crumbs_started throwOnError crumbs' in
          (isComplete_ rec r throwOnError :: calls, whole)
      | None => ([], false)
      end
  end.

(** <<
  async isComplete(throwOnError: boolean = false) {
    return Boolean(
      await Promise.all(
        this.breadcrumbs.map((cur) => cur.hook.isComplete(throwOnError))));
  }
>>
    [Boolean] of an array is [true]. *)
Definition isComplete (this : nat) (throwOnError : bool) : M bool :=
  let* c := self this in
  let (calls, whole) := crumbs_started throwOnError (breadcrumbs c) in
  if whole then
    let* passes := promise_all calls in
    ret true
  else
    detached (promise_all calls);;
    throw TypeError.

Definition methods_of : methods W := {|
  conversation_ := conversation;
  continue_ := continue;
  back_ := back rec;
  isReady_ := isReady;
  isComplete_ := isComplete;
  subscribe_ := subscribe rec;
  unsubscribe_ := unsubscribe rec;
  findLoop_ := findLoop;
  genLoop_ := λ _ _ _, out_of_fuel;
|}.

End Methods.

(** The class, with [fuel] levels of calls and loop turns to spend. *)
Fixpoint run {W} (import_ : importer W) (readFlow : string → res (Flow W))
  (fuel : nat) : methods W :=
  match fuel with
  | 0 => no_fuel
  | S fuel' => methods_of import_ readFlow (run import_ readFlow fuel')
  end.

End Flowchart.

(** ** The parsers: from a mermaid diagram to a flow

    [src/parser.ts] belongs to the revision over conversation flows: it
    precomputes the edges of every step and the list of entries.  The older
    parser, of the revision over flowcharts, hands the database of the
    diagram over as it is.  [mermaid] and the file system are collaborators;
    [path.format({...path.parse(link), base: '', ext: '.json', dir})] is
    the collaborator [json_path]. *)

Module Parser.
Section Parser.

Context {W : Type}.

(** A vertex as the flowchart database of mermaid lists it, with the fields
    that the parser and the engine read. *)
Record Node : Type := {
  nd_link : option string;
  nd_type : option string;
  nd_props : Props W;
}.

(** What [getDiagramFromText] answers: [diagram.type], [db.getEdges()] and
    [db.getVertices()], the vertices in enumeration order, each key once.
    The database is that of a flowchart: only there do the two calls
    answer. *)
Record Diagram : Type := {
  d_type : string;
  d_edges : list Edge;
  d_vertices : list (string * Node);
}.

(** [FlowStep = Vertex & { edges: { from: Edge[]; to: Edge[] } }] *)
Record FlowStep : Type := {
  fs_link : option string;
  fs_type : option string;
  fs_edges : Adjacent;
  fs_props : Props W;
}.

(** [Flow = { starts: string[]; steps: Record<string, FlowStep>; type }] *)
Record Parsed : Type := {
  pf_starts : list string;
  pf_steps : list (string * FlowStep);
  pf_type : string;
}.

Inductive failure : Type :=
| UnsupportedDiagram          (* 'Only flowchart diagrams are supported.' *)
| NotAFunction                (* a TypeError: the database lacks the method *)
| External (code : nat).      (* readFile or mermaid rejects *)

Variable getDiagramFromText : string → failure + Diagram.
Variable readFile : string → failure + string.
Variable json_path : string → option string → string.

(** One turn of the loop of [parse]:
<<
  for (const id in vertices) {
    const step = (steps[id] = vertices[id]);
    step.edges = edges.reduce((acc, cur) => {
        if (cur.end === id) { acc.from.push(cur); }
        if (cur.start === id) { acc.to.push(cur); }
        return acc;
      }, { from: [], to: [] });
    if (step.type !== 'stadium' || step.edges.from.length) continue;
    starts.push(id);
  }
>> *)
Definition parse_vertex (edges : list Edge)
  (acc : list string * list (string * FlowStep)) (entry : string * Node)
  : list string * list (string * FlowStep) :=
  let '(starts, steps) := acc in
  let '(id, vertex) := entry in
  let step := {| fs_link := nd_link vertex; fs_type := nd_type vertex;
                 fs_edges := Flowchart.adjacent id edges;
                 fs_props := nd_props vertex |} in
  let steps := steps ++ [(id, step)] in
  if negb (strict_eq (fs_type step) (Some "stadium")) ||
     negb (length (a_from (fs_edges step)) =? 0)
  then (starts, steps)
  else (starts ++ [id], steps).

(** <<
  const diagram = await mermaid.mermaidAPI.getDiagramFromText(uml);
  if (!diagram.type.includes('flowchart'))
    throw new Error('Only flowchart diagrams are supported.');
  const edges = db.getEdges();
  const starts: string[] = [];
  const steps: Flow['steps'] = {};
  const vertices = db.getVertices();
  (the loop above)
  return { acc, starts, steps, title, type: 'conversation' };
>> *)
Definition parse (uml : string) : failure + Parsed :=
  match getDiagramFromText uml with
  | inl e => inl e
  | inr diagram =>
      if negb (includes "flowchart" (d_type diagram)) then inl UnsupportedDiagram
      else
        let '(starts, steps) :=
          fold_left (parse_vertex (d_edges diagram)) (d_vertices diagram) ([], []) in
        inr {| pf_starts := starts; pf_steps := steps; pf_type := "conversation" |}
  end.

(** [{ ...vertex.props, src }] *)
Definition with_src (src : string) (p : Props W) : Props W :=
  mkProps (p_module p) (p_key p) (Some src) (p_flow p) (p_start p) (p_uri p).

(** One turn of the loop of [fromFile], and whether it warns:
<<
    if (vertex.type !== 'subroutine') continue;
    if (!vertex.link) {
      console.warn('No source found for subroutine.', vertex);
      continue;
    }
    vertex.props = { ...vertex.props,
      src: format({ ...pathParse(vertex.link), base: '', ext: '.json',
                    ...(dir && { dir }) }) };
>> *)
Definition locate (dir : option string) (vertex : FlowStep) : FlowStep * bool :=
  if negb (strict_eq (fs_type vertex) (Some "subroutine")) then (vertex, false)
  else if negb (truthy (fs_link vertex)) then (vertex, true)
  else
    ({| fs_link := fs_link vertex; fs_type := fs_type vertex;
        fs_edges := fs_edges vertex;
        fs_props := with_src (json_path (default "" (fs_link vertex))
                                        (if truthy dir then dir else None))
                             (fs_props vertex) |},
     false).

(** <<
  export async function fromFile(src: string, dir?: string) {
    const file = resolve(src);
    const uml = await readFile(file, 'utf8');
    const output = await parse(uml);
    for (const id in output.steps) { (the turn above) }
    return output;
  }
>>
    The answer comes with the ids that were warned about. *)
Definition fromFile (src : string) (dir : option string)
  : failure + (Parsed * list string) :=
  match readFile src with
  | inl e => inl e
  | inr uml =>
      match parse uml with
      | inl e => inl e
      | inr output =>
          inr ({| pf_starts := pf_starts output;
                  pf_steps := map (λ '(id, vertex), (id, fst (locate dir vertex)))
                                  (pf_steps output);
                  pf_type := pf_type output |},
               map fst (filter (λ '(id, vertex), snd (locate dir vertex) = true)
                               (pf_steps output)))
      end
  end.

(** The flow as the engine reads it. *)
Definition as_vertex (step : FlowStep) : Vertex W :=
  mkVertex (fs_type step) (fs_edges step) (fs_props step).

Definition as_flow (flow : Parsed) : Flow W :=
  mkFlow (Some (pf_type flow)) (pf_starts flow) []
         (map (λ '(id, step), (id, as_vertex step)) (pf_steps flow)).

End Parser.
End Parser.

Arguments Parser.Node : clear implicits.
Arguments Parser.Diagram : clear implicits.
Arguments Parser.FlowStep : clear implicits.
Arguments Parser.Parsed : clear implicits.

Module ChartParser.
Section ChartParser.

Context {W : Type}.

Variable getDiagramFromText : string → Parser.failure + Parser.Diagram W.

(** A vertex of the database, read by the engine: it has no edges of its
    own, and the revision over flowcharts reads none. *)
Definition as_vertex (vertex : Parser.Node W) : Vertex W :=
  mkVertex (Parser.nd_type vertex) {| a_from := []; a_to := [] |}
           (Parser.nd_props vertex).

(** <<
  export async function parse(uml: string): Promise<Flow> {
    const diagram = await mermaid.mermaidAPI.getDiagramFromText(uml);
    const db = (diagram.getParser() as any).yy;
    return { acc, edges: db.getEdges(), title, type: diagram.type,
             vertices: db.getVertices() };
  }
>>
    There is no test of the type here: on a diagram that is no flowchart
    the database has no [getEdges], and the call throws. *)
Definition parse (uml : string) : Parser.failure + Flow W :=
  match getDiagramFromText uml with
  | inl e => inl e
  | inr diagram =>
      if includes "flowchart" (Parser.d_type diagram) then
        inr (mkFlow (Some (Parser.d_type diagram)) [] (Parser.d_edges diagram)
                    (map (λ '(id, vertex), (id, as_vertex vertex))
                         (Parser.d_vertices diagram)))
      else inl Parser.NotAFunction
  end.

End ChartParser.
End ChartParser.

(** ** Concrete conversations

    The world of these conversations is the list of the steps that the user
    has filled in: a step is complete when its id is in the list, and ready or
    not for good.  Between two calls the user may change the world. *)

Module Scenario.

Definition W : Type := list string.

Definition done_in (id : string) (w : W) : bool := existsb (String.eqb id) w.

Definition hook_of (id : string) (ready : bool) : StepHook W :=
  {| h_isReady := Some (λ w, (Ok ready, w));
     h_isComplete := Some (λ _ w, (Ok (done_in id w), w)) |}.

Definition plain (id : string) (ready : bool) : ModuleRef W :=
  ModuleFn (λ w, (Ok (Some (hook_of id ready)), w)).

Definition edge (a b : string) : Edge :=
  {| e_start := a; e_end := b; e_type := "arrow_point";
     e_stroke := "normal"; e_text := "continue" |}.

Definition vertex (type : option string) (from to : list Edge)
  (module : ModuleRef W) (flow : option (Flow W)) (src : option string) : Vertex W :=
  mkVertex type {| a_from := from; a_to := to |}
           (mkProps module None src flow None None).

Definition no_import : importer W := λ path _, Throw (ModuleResolutionError path).
Definition no_file : string → res (Flow W) := λ path, Throw (ModuleResolutionError path).

(** One observer, [7], subscribed from the start. *)
Definition initial (w : W) : state W :=
  {| world := w; log := []; heap := []; arrays := [[7]] |}.

Definition root (flow : Flow W) (start : option string) : ConversationProps W :=
  {| cp_conversation := None; cp_flow := Some flow; cp_observers := Some 0;
     cp_src := None; cp_start := start |}.

Definition A : methods W := ConvFlow.run no_import 20.
Definition B : methods W := Flowchart.run no_import no_file 20.

(** What a test would look at. *)
Definition id_of (r : res (option (Step W)) * state W) : res (option string) :=
  match fst r with
  | Ok s => Ok (s_id <$> s)
  | Throw e => Throw e
  | Hang => Hang
  | OutOfFuel => OutOfFuel
  end.

Definition current (this : nat) (st : state W) : option (promise W) :=
  c_step <$> heap st !! this.

Definition current_id (this : nat) (st : state W) : option string :=
  match current this st with
  | Some (Resolved (Some s)) => Some (s_id s)
  | _ => None
  end.

Definition crumbs (this : nat) (st : state W) : list string :=
  default [] ((λ c, map s_id (breadcrumbs c)) <$> heap st !! this).

Definition heard (st : state W) : list (nat * option string * option string) :=
  map (λ n, (n_from n, n_action n, s_id <$> n_step n)) (log st).

(** *** [start] with two successors, [a] and [b], both ready *)

Definition two_ready (type : string) : Flow W :=
  mkFlow (Some type) ["start"] [edge "start" "a"; edge "start" "b"]
    [("start", vertex (Some "stadium") [] [edge "start" "a"; edge "start" "b"]
                      (plain "start" true) None None);
     ("a", vertex None [edge "start" "a"] [] (plain "a" true) None None);
     ("b", vertex None [edge "start" "b"] [] (plain "b" true) None None)].

(** *** [start] with two successors, [skip] that is not ready and [next] *)

Definition skip_next (type : string) : Flow W :=
  mkFlow (Some type) ["start"] [edge "start" "skip"; edge "start" "next"]
    [("start", vertex (Some "stadium") [] [edge "start" "skip"; edge "start" "next"]
                      (plain "start" true) None None);
     ("next", vertex None [edge "start" "next"] [] (plain "next" true) None None);
     ("skip", vertex None [edge "start" "skip"] [] (plain "skip" false) None None)].

(** *** An entry [start] and a vertex [other] that is not ready *)

Definition unready_other (type : string) : Flow W :=
  mkFlow (Some type) ["start"] []
    [("start", vertex (Some "stadium") [] [] (plain "start" true) None None);
     ("other", vertex None [] [] (plain "other" false) None None)].

(** *** An entry that is never ready *)

Definition unready_start : Flow W :=
  mkFlow (Some "conversation") ["start"] []
    [("start", vertex (Some "stadium") [] [] (plain "start" false) None None)].

(** The same entry beside a step named [' '] that is ready and is no
    entry. *)
Definition unready_start_blank : Flow W :=
  mkFlow (Some "conversation") ["start"] []
    [("start", vertex (Some "stadium") [] [] (plain "start" false) None None);
     (" ", vertex None [] [] (plain " " true) None None)].

(** The same entry followed by an entry with the empty id. *)
Definition unready_then_empty : Flow W :=
  mkFlow (Some "conversation") ["start"; ""] []
    [("start", vertex (Some "stadium") [] [] (plain "start" false) None None)].

(** An entry whose module is a path that cannot be imported. *)
Definition unresolvable_start : Flow W :=
  mkFlow (Some "conversation") ["start"] []
    [("start", vertex (Some "stadium") [] [] (ModulePath "./test") None None)].

(** The step [start] of these flows, as [get] resolves it. *)
Definition unready_step : Step W :=
  {| s_edges := {| a_from := []; a_to := [] |};
     s_hook := Some (Leaf (hook_of "start" false)); s_id := "start" |}.

(** The same entry in a flowchart. *)
Definition unready_chart : Flow W :=
  mkFlow (Some "flowchart") [] []
    [("start", vertex (Some "stadium") [] [] (plain "start" false) None None)].

(** *** A subroutine that names a file and embeds no flow *)

Definition sub_src (type : string) : Flow W :=
  mkFlow (Some type) ["start"] []
    [("start", vertex (Some "stadium") [] [] (plain "start" true) None None);
     ("sub", vertex (Some "subroutine") [] [] NoModule None (Some "./sub.json"))].

(** *** A subroutine [sub] between [start] and [end], over [s1 --> s2] *)

Definition inner (type : string) : Flow W :=
  mkFlow (Some type) ["s1"] [edge "s1" "s2"]
    [("s1", vertex (Some "stadium") [] [edge "s1" "s2"] (plain "s1" true) None None);
     ("s2", vertex None [edge "s1" "s2"] [] (plain "s2" true) None None)].

Definition outer (type : string) : Flow W :=
  mkFlow (Some type) ["start"] [edge "start" "sub"; edge "sub" "end"]
    [("start", vertex (Some "stadium") [] [edge "start" "sub"]
                      (plain "start" true) None None);
     ("sub", vertex (Some "subroutine") [edge "start" "sub"] [edge "sub" "end"]
                    NoModule (Some (inner type)) None);
     ("end", vertex None [edge "sub" "end"] [] (plain "end" true) None None)].

(** The user fills in [start]; the conversation moves into [sub], whose
    conversation (reference [1]) waits on [s1]. *)
Definition in_sub : state W :=
  snd (continue_ A 0 None false
         (set_world ["start"]
            (snd (conversation_ A (root (outer "conversation") None) (initial []))))).

(** The user fills in [s1]; the sub-conversation moves to [s2]. *)
Definition in_sub_at_s2 : state W :=
  snd (continue_ A 0 None false (set_world ["start"; "s1"] in_sub)).

(** A conversation over the graph [flow], just built. *)
Definition built (class : methods W) (flow : Flow W) (start : option string) : state W :=
  snd (conversation_ class (root flow start) (initial [])).

(** Over [two_ready]: the user fills in [start] and continues, then goes
    back and clears [start] again. *)
Definition moved_on (class : methods W) (type : string) : state W :=
  snd (continue_ class 0 None false (set_world ["start"] (built class (two_ready type) None))).

Definition gone_back (class : methods W) (type : string) : state W :=
  set_world [] (snd (back_ class 0 false (moved_on class type))).

(** Over [two_ready]: the user fills in every step and continues to the
    end, then goes back and clears the last step again. *)
Definition finished (class : methods W) (type : string) : state W :=
  snd (continue_ class 0 None false
         (set_world ["start"; "a"; "b"] (moved_on class type))).

Definition back_from_the_end (class : methods W) (type : string) : state W :=
  set_world ["start"] (snd (back_ class 0 false (finished class type))).

(** The steps [start] and [a] of [two_ready], as [get] resolves them. *)
Definition start_step : Step W :=
  {| s_edges := {| a_from := []; a_to := [edge "start" "a"; edge "start" "b"] |};
     s_hook := Some (Leaf (hook_of "start" true)); s_id := "start" |}.

Definition a_step : Step W :=
  {| s_edges := {| a_from := [edge "start" "a"]; a_to := [] |};
     s_hook := Some (Leaf (hook_of "a" true)); s_id := "a" |}.

(** The step [other] of [unready_other], as the revision over flowcharts
    resolves it. *)
Definition other_step : Step W :=
  {| s_edges := {| a_from := []; a_to := [] |};
     s_hook := Some (Leaf (hook_of "other" false)); s_id := "other" |}.

(** A graph that is no conversation at all. *)
Definition barchart : Flow W := mkFlow (Some "barchart") [] [] [].

End Scenario.

(** ** Concrete diagrams and flows for the further statements *)

Module Samples.
Import Scenario.

Definition node (type link : option string) (module : ModuleRef W) : Parser.Node W :=
  {| Parser.nd_link := link; Parser.nd_type := type;
     Parser.nd_props := mkProps module None None None None None |}.

(** The diagram of the tests of the parser:
<<
  flowchart
    start([Start]) --> mid[[Mid]]
    mid --> sub[[Subroutine]]
    sub --> END
    click mid './something'
>>
    with step modules for [start] and [END]. *)
Definition diagram : Parser.Diagram W :=
  {| Parser.d_type := "flowchart-v2";
     Parser.d_edges := [edge "start" "mid"; edge "mid" "sub"; edge "sub" "END"];
     Parser.d_vertices :=
       [("start", node (Some "stadium") None (plain "start" true));
        ("mid", node (Some "subroutine") (Some "./something") NoModule);
        ("sub", node (Some "subroutine") None NoModule);
        ("END", node None None (plain "END" true))] |}.

(** A stadium on a cycle: an edge ends at it. *)
Definition cycle : Parser.Diagram W :=
  {| Parser.d_type := "flowchart-v2";
     Parser.d_edges := [edge "a" "b"; edge "b" "a"];
     Parser.d_vertices :=
       [("a", node (Some "stadium") None (plain "a" true));
        ("b", node None None (plain "b" true))] |}.

Definition mermaid (uml : string) : Parser.failure + Parser.Diagram W :=
  if String.eqb uml "diagram" then inr diagram
  else if String.eqb uml "cycle" then inr cycle
  else inl (Parser.External 0).

Definition files (path : string) : Parser.failure + string :=
  if String.eqb path "test.uml" then inr "diagram" else inl (Parser.External 1).

(** A stand-in for [path.format]. *)
Definition beside (link : string) (dir : option string) : string :=
  (default "." dir ++ "/" ++ link ++ ".json")%string.

Definition parsed (uml : string) : Flow W :=
  match Parser.parse mermaid uml with
  | inr flow => Parser.as_flow flow
  | inl _ => barchart
  end.

Definition charted (uml : string) : Flow W :=
  match ChartParser.parse mermaid uml with
  | inr flow => flow
  | inl _ => barchart
  end.

(** Two entries, of which the first is not ready. *)
Definition two_entries : Flow W :=
  mkFlow (Some "conversation") ["skip"; "start"] []
    [("skip", vertex (Some "stadium") [] [] (plain "skip" false) None None);
     ("start", vertex (Some "stadium") [] [] (plain "start" true) None None)].

(** A flowchart without a stadium, whose only vertex has a [uri]. *)
Definition no_stadium : Flow W :=
  mkFlow (Some "flowchart") [] []
    [("a", mkVertex None {| a_from := []; a_to := [] |}
                    (mkProps (plain "a" true) None None None None (Some "/a")))].

(** A second observer, [8], subscribes to the conversation over
    [two_ready]. *)
Definition two_observers : state W :=
  snd (subscribe_ A 0 8 (built A (two_ready "conversation") None)).

End Samples.

(** ** Vocabulary of the statements *)

Section Vocabulary.

Context {W : Type}.
#[local] Abbreviation M := (M W).
#[local] Abbreviation Step := (Step W).
#[local] Abbreviation state := (state W).

(** The state that [notify] leaves. *)
Definition notified (this : nat) (action : option string) (step : option Step)
  (c : Conversation W) (st : state) : state :=
  update this (with_step (Resolved step))
    (if negb (strict_eq action (Some "start")) || negb (bool_decide (is_Some (c_parent c)))
     then set_log (log st ++ calls this action step
                                   (default [] (arrays st !! c_observers c))) st
     else st).

(** Every parent was there before its child: references grow. *)
Definition parents_below (st : state) : Prop :=
  ∀ i c p, heap st !! i = Some c → c_parent c = Some p → p < i.

(** The hook of [s] is the object of a step module, and asked
    [isComplete()] in the world [w] it answers no, leaving the world [w']. *)
Definition reports_incomplete (s : Step) (w w' : W) : Prop :=
  ∃ h f, s_hook s = Some (Leaf h) ∧ h_isComplete h = Some f ∧
         f false w = (Ok false, w').

(** [s] stays incomplete as long as the world is in [I]. *)
Definition stays_incomplete (s : Step) (I : W → Prop) : Prop :=
  ∀ w, I w → ∃ w', reports_incomplete s w w' ∧ I w'.

(** The same call [n] times in a row: the answers, and the last state. *)
Fixpoint repeatedly {A} (call : M A) (n : nat) (st : state) : list (res A) * state :=
  match n with
  | 0 => ([], st)
  | S n' =>
      let (r, st1) := call st in
      let (rs, st2) := repeatedly call n' st1 in
      (r :: rs, st2)
  end.

(** What no method ever writes: the flow, the parent and the observer
    array of a conversation. *)
Definition same_fixed (c c' : Conversation W) : Prop :=
  c_flow c' = c_flow c ∧ c_parent c' = c_parent c ∧ c_observers c' = c_observers c.

(** The observer call [n] is not a ["start"] made in the name of a
    conversation that has a parent: if its action is ["start"], the
    conversation that made it is in the store and has no parent. *)
Definition from_a_root (st : state) (n : notification W) : Prop :=
  n_action n = Some "start" →
  ∃ c, heap st !! n_from n = Some c ∧ c_parent c = None.

(** From [st] to [st'] no conversation is lost or gets another flow, parent
    or observer array, and the log has only grown, by observer calls none of
    which is a ["start"] of a nested conversation. *)
Definition told_by_roots (st st' : state) : Prop :=
  (∀ i c, heap st !! i = Some c → ∃ c', heap st' !! i = Some c' ∧ same_fixed c c') ∧
  ∃ ns, log st' = log st ++ ns ∧ Forall (from_a_root st') ns.

Definition tells_as_root {A} (m : M A) : Prop :=
  ∀ st r st', m st = (r, st') → told_by_roots st st'.

Definition all_tell_as_root (rec : methods W) : Prop :=
  (∀ props, tells_as_root (conversation_ rec props)) ∧
  (∀ this id fromChild, tells_as_root (continue_ rec this id fromChild)) ∧
  (∀ this fromChild, tells_as_root (back_ rec this fromChild)) ∧
  (∀ this, tells_as_root (isReady_ rec this)) ∧
  (∀ this throwOnError, tells_as_root (isComplete_ rec this throwOnError)) ∧
  (∀ this observer, tells_as_root (subscribe_ rec this observer)) ∧
  (∀ this observer, tells_as_root (unsubscribe_ rec this observer)) ∧
  (∀ this index step, tells_as_root (findLoop_ rec this index step)) ∧
  (∀ this id next, tells_as_root (genLoop_ rec this id next)).

(** What a client may ask of the class [rec]: to construct a conversation,
    or one of the public methods of a conversation. *)
Inductive asked (rec : methods W) : ∀ {A : Type}, M A → Prop :=
| asked_conversation props : asked rec (conversation_ rec props)
| asked_continue this id fromChild : asked rec (continue_ rec this id fromChild)
| asked_back this fromChild : asked rec (back_ rec this fromChild)
| asked_isReady this : asked rec (isReady_ rec this)
| asked_isComplete this throwOnError : asked rec (isComplete_ rec this throwOnError)
| asked_subscribe this observer : asked rec (subscribe_ rec this observer)
| asked_unsubscribe this observer : asked rec (unsubscribe_ rec this observer).

(** From [st] to [st'] every conversation is still there; apart from [g]
    each has kept its generator and its breadcrumbs, and apart from [s] each
    has kept its current step. *)
Definition kept_but (g s : option nat) (st st' : state) : Prop :=
  ∀ i c, heap st !! i = Some c →
    ∃ c', heap st' !! i = Some c' ∧ same_fixed c c' ∧
          (Some i ≠ g → c_gen c' = c_gen c ∧ breadcrumbs c' = breadcrumbs c) ∧
          (Some i ≠ s → c_step c' = c_step c).

Definition keeps_but (g s : option nat) {A} (m : M A) : Prop :=
  ∀ st r st', m st = (r, st') → kept_but g s st st'.

(** The methods that look but do not navigate: they write no current
    step, and only the loops write a generator, that of their own
    conversation. *)
Definition quiet (rec : methods W) : Prop :=
  (∀ props, keeps_but None None (conversation_ rec props)) ∧
  (∀ this, keeps_but None None (isReady_ rec this)) ∧
  (∀ this throwOnError, keeps_but None None (isComplete_ rec this throwOnError)) ∧
  (∀ this index step, keeps_but (Some this) None (findLoop_ rec this index step)) ∧
  (∀ this id next, keeps_but (Some this) None (genLoop_ rec this id next)).

(** The conversation as the constructor sets its fields, and the store
    with it when [findStart] is about to run. *)
Definition infant (props : ConversationProps W) (flow : Flow W) (st : state)
  : Conversation W :=
  {| c_flow := flow; c_gen := GStart;
     c_observers := default (length (arrays st)) (cp_observers props);
     c_parent := cp_conversation props;
     c_step := Unset; breadcrumbs := [] |}.

Definition newborn (props : ConversationProps W) (flow : Flow W) (st : state) : state :=
  let st1 := match cp_observers props with
             | Some _ => st
             | None => set_arrays (arrays st ++ [[]]) st
             end in
  set_heap (heap st1 ++ [infant props flow st]) st1.

(** The entry [id] of [flow] is never ready: whenever the conversation
    [this] over [flow] resolves it (with at least [k0] of fuel), the step, if
    any, answers [isReady()] with no (or has no such method). *)
Definition never_ready (import_ : importer W) (k0 this : nat) (flow : Flow W)
  (id : string) : Prop :=
  ∀ fuel fuel' (st : state) c,
    k0 ≤ fuel → k0 ≤ fuel' →
    heap st !! this = Some c → c_flow c = flow →
    ∃ s st1 st2,
      ConvFlow.get import_ (ConvFlow.run import_ fuel) this (Some id) st = (Ok s, st1) ∧
      hook_isReady (ConvFlow.run import_ fuel') s st1 = (Ok false, st2).

(** The candidates at the end of [edges] are resolved and asked in turn
    ([get] and [ready] stand for the two calls), from [st] to [st'], and none
    of them is ready. *)
Inductive passed_over (get : option string → M (option Step))
  (ready : option Step → M bool) : list Edge → state → state → Prop :=
| passed_nil st : passed_over get ready [] st st
| passed_cons e edges st st1 st2 st3 candidate :
    get (Some (e_end e)) st = (Ok candidate, st1) →
    ready candidate st1 = (Ok false, st2) →
    passed_over get ready edges st2 st3 →
    passed_over get ready (e :: edges) st st3.

(** The calls [ms], one after the other from [st] to [st'], all answer, and
    [rs] are the answers. *)
Inductive all_answer {A} : list (M A) → state → list A → state → Prop :=
| answer_nil st : all_answer [] st [] st
| answer_cons m ms st a st1 rs st2 :
    m st = (Ok a, st1) →
    all_answer ms st1 rs st2 →
    all_answer (m :: ms) st (a :: rs) st2.

End Vocabulary.

(** ** Vocabulary of the further statements *)

Section FurtherVocabulary.

Context {W : Type}.

(** The vertex [id] of a diagram is an entry: a stadium at which no edge
    ends. *)
Definition is_entry (edges : list Edge) (id : string) (vertex : Parser.Node W) : Prop :=
  Parser.nd_type vertex = Some "stadium" ∧ ∀ e, e ∈ edges → e_end e ≠ id.

Definition is_entry_b (edges : list Edge) (entry : string * Parser.Node W) : bool :=
  strict_eq (Parser.nd_type entry.2) (Some "stadium") &&
  (length (filter (λ cur, e_end cur = entry.1) edges) =? 0).

(** The step that [parse] makes of a vertex. *)
Definition transcoded (edges : list Edge) (entry : string * Parser.Node W)
  : string * Parser.FlowStep W :=
  (entry.1, {| Parser.fs_link := Parser.nd_link entry.2;
               Parser.fs_type := Parser.nd_type entry.2;
               Parser.fs_edges := Flowchart.adjacent entry.1 edges;
               Parser.fs_props := Parser.nd_props entry.2 |}).

(** A subroutine with a link: the step that [fromFile] gives a source. *)
Definition needs_source (step : Parser.FlowStep W) : bool :=
  strict_eq (Parser.fs_type step) (Some "subroutine") && truthy (Parser.fs_link step).

(** [after] is the step [before] but for [props.src]. *)
Definition same_but_src (before after : Parser.FlowStep W) : Prop :=
  Parser.fs_type after = Parser.fs_type before ∧
  Parser.fs_link after = Parser.fs_link before ∧
  Parser.fs_edges after = Parser.fs_edges before ∧
  p_module (Parser.fs_props after) = p_module (Parser.fs_props before) ∧
  p_key (Parser.fs_props after) = p_key (Parser.fs_props before) ∧
  p_flow (Parser.fs_props after) = p_flow (Parser.fs_props before) ∧
  p_start (Parser.fs_props after) = p_start (Parser.fs_props before) ∧
  p_uri (Parser.fs_props after) = p_uri (Parser.fs_props before).

(** The conversation [this] is nested [k] deep, and it and all its
    ancestors hold the observer array [a] (as the sub-conversations that
    [get] builds do). *)
Inductive nested_on (st : state W) (a : nat) : nat → nat → Prop :=
| nested_root this c :
    heap st !! this = Some c → c_observers c = a → c_parent c = None →
    nested_on st a this 0
| nested_child this c p k :
    heap st !! this = Some c → c_observers c = a → c_parent c = Some p →
    nested_on st a p k →
    nested_on st a this (S k).

(** The two questions that a client may put to a conversation of the class
    [rec]. *)
Inductive looks (rec : methods W) : M W bool → Prop :=
| looks_isReady this : looks rec (isReady_ rec this)
| looks_isComplete this throwOnError : looks rec (isComplete_ rec this throwOnError).

(** From [st] to [st'] only the world of the step modules may differ. *)
Definition same_store (st st' : state W) : Prop :=
  heap st' = heap st ∧ log st' = log st ∧ arrays st' = arrays st.

Definition only_asks {A} (m : M W A) : Prop :=
  ∀ st r st', m st = (r, st') → same_store st st'.

(** The hook of [s] is the object of a step module, and asked
    [isComplete()] in the world [w] it answers yes, leaving the world [w']. *)
Definition reports_complete (s : Step W) (w w' : W) : Prop :=
  ∃ h f, s_hook s = Some (Leaf h) ∧ h_isComplete h = Some f ∧
         f false w = (Ok true, w').

(** The entry [id] of [flow] is ready: whenever the conversation [this]
    over [flow] resolves it (with at least [k0] of fuel), there is a step, and
    it answers [isReady()] with yes. *)
Definition ready_when_asked (import_ : importer W) (k0 this : nat) (flow : Flow W)
  (id : string) : Prop :=
  ∀ fuel fuel' (st : state W) c,
    k0 ≤ fuel → k0 ≤ fuel' →
    heap st !! this = Some c → c_flow c = flow →
    ∃ s st1 st2,
      ConvFlow.get import_ (ConvFlow.run import_ fuel) this (Some id) st = (Ok (Some s), st1) ∧
      hook_isReady (ConvFlow.run import_ fuel') (Some s) st1 = (Ok true, st2).

(** From [st] to [st'] the store of conversations has not shrunk, and if
    every parent came before its child it still does. *)
Definition in_order (st st' : state W) : Prop :=
  length (heap st) ≤ length (heap st') ∧ (parents_below st → parents_below st').

(** A call that keeps the parents first, when the conversation [b] that it
    may name as a parent is in the store. *)
Definition orderly (b : option nat) {A} (m : M W A) : Prop :=
  ∀ st r st', m st = (r, st') →
    (∀ p, b = Some p → p < length (heap st)) →
    in_order st st'.

Definition all_orderly (rec : methods W) : Prop :=
  (∀ props, orderly (cp_conversation props) (conversation_ rec props)) ∧
  (∀ this id fromChild, orderly None (continue_ rec this id fromChild)) ∧
  (∀ this fromChild, orderly None (back_ rec this fromChild)) ∧
  (∀ this, orderly None (isReady_ rec this)) ∧
  (∀ this throwOnError, orderly None (isComplete_ rec this throwOnError)) ∧
  (∀ this observer, orderly None (subscribe_ rec this observer)) ∧
  (∀ this observer, orderly None (unsubscribe_ rec this observer)) ∧
  (∀ this index step, orderly None (findLoop_ rec this index step)) ∧
  (∀ this id next, orderly None (genLoop_ rec this id next)).

(** What a client may ask of the class [rec] in the store [st]: as [asked],
    with a parent, when the constructor is given one, that is a conversation
    of the store. *)
Inductive asked_of (st : state W) (rec : methods W) : ∀ {A : Type}, M W A → Prop :=
| of_conversation props :
    (∀ p, cp_conversation props = Some p → p < length (heap st)) →
    asked_of st rec (conversation_ rec props)
| of_continue this id fromChild : asked_of st rec (continue_ rec this id fromChild)
| of_back this fromChild : asked_of st rec (back_ rec this fromChild)
| of_isReady this : asked_of st rec (isReady_ rec this)
| of_isComplete this throwOnError : asked_of st rec (isComplete_ rec this throwOnError)
| of_subscribe this observer : asked_of st rec (subscribe_ rec this observer)
| of_unsubscribe this observer : asked_of st rec (unsubscribe_ rec this observer).

End FurtherVocabulary.

(** * Properties *)

(** ** Running the monad *)

Section Running.

Context {W : Type}.
#[local] Abbreviation M := (M W).
#[local] Abbreviation state := (state W).

Lemma bind_Ok {A B} (m : M A) (f : A → M B) (st st' : state) a :
  m st = (Ok a, st') → (let* x := m in f x) st = f a st'.
Proof. intros H. unfold bind. now rewrite H. Qed.

Lemma bind_Throw {A B} (m : M A) (f : A → M B) (st st' : state) e :
  m st = (Throw e, st') → (let* x := m in f x) st = (Throw e, st').
Proof. intros H. unfold bind. now rewrite H. Qed.

Lemma bind_OutOfFuel {A B} (m : M A) (f : A → M B) (st st' : state) :
  m st = (OutOfFuel, st') → (let* x := m in f x) st = (OutOfFuel, st').
Proof. intros H. unfold bind. now rewrite H. Qed.

Lemma self_Ok this c (st : state) :
  heap st !! this = Some c → self this st = (Ok c, st).
Proof. intros H. unfold self. now rewrite H. Qed.

Lemma key_in_own id (l : list (string * Vertex W)) :
  is_Some (lookup_vertex id l) → key_in id l = true.
Proof. intros [v Hv]. unfold key_in. now rewrite Hv. Qed.

Lemma key_in_lookup id (l : list (string * Vertex W)) v :
  lookup_vertex id l = Some v → key_in id l = true.
Proof. intros Hv. unfold key_in. now rewrite Hv. Qed.

Lemma key_in_false id (l : list (string * Vertex W)) :
  key_in id l = false → lookup_vertex id l = None.
Proof. unfold key_in. now destruct (lookup_vertex id l). Qed.

Lemma strict_eq_Some a s : strict_eq a (Some s) = true ↔ a = Some s.
Proof.
  destruct a as [x|]; simpl; [|split; discriminate].
  rewrite String.eqb_eq. split; congruence.
Qed.

Lemma strict_eq_Some_false a s : strict_eq a (Some s) = false ↔ a ≠ Some s.
Proof.
  rewrite <- strict_eq_Some. destruct (strict_eq a (Some s)); split; congruence.
Qed.

Lemma notify_eq this action step c (st : state) :
  heap st !! this = Some c →
  notify this action step st = (Ok step, notified this action step c st).
Proof.
  intros H. unfold notify, notified.
  rewrite (bind_Ok _ _ _ _ _ (self_Ok _ _ _ H)).
  destruct (negb (strict_eq action (Some "start")) || _); reflexivity.
Qed.

End Running.

(** ** Construction checks the type of the graph *)

Section Construction.

Context {W : Type}.
Variable import_ : importer W.
Variable readFlow : string → res (Flow W).

Lemma settle_outcome this (m : M W (option (Step W))) (st : state W) :
  fst (settle this m st) = Ok tt ∨ fst (settle this m st) = OutOfFuel.
Proof. unfold settle. destruct (m st) as [[?|?| |] ?]; simpl; auto. Qed.

(** C7.  A graph whose [type] is not that of a conversation (for the
    revision over flowcharts: does not contain ['flowchart']) makes the
    constructor throw the graph-type error, and the store holds no new
    Conversation; with the right [type] the constructor throws nothing: it
    hands out the new reference (given the fuel to run [findStart]). *)
Theorem construction_checks_the_graph_type fuel (props : ConversationProps W) (st : state W) :
  let a := conversation_ (ConvFlow.run import_ (S fuel)) props st in
  let b := conversation_ (Flowchart.run import_ readFlow (S fuel)) props st in
  ((∀ flow, cp_flow props = Some flow → f_type flow ≠ Some "conversation") →
     fst a = Throw GraphTypeMismatch ∧ heap (snd a) = heap st) ∧
  ((∃ flow, cp_flow props = Some flow ∧ f_type flow = Some "conversation") →
     fst a = Ok (length (heap st)) ∨ fst a = OutOfFuel) ∧
  (truthy (cp_src props) = false →
   (∀ flow type, cp_flow props = Some flow → f_type flow = Some type →
                 includes "flowchart" type = false) →
     fst b = Throw GraphTypeMismatch ∧ heap (snd b) = heap st) ∧
  (truthy (cp_src props) = false →
   (∃ flow type, cp_flow props = Some flow ∧ f_type flow = Some type ∧
                 includes "flowchart" type = true) →
     fst b = Ok (length (heap st)) ∨ fst b = OutOfFuel).
Proof.
  cbn zeta. simpl conversation_.
  unfold ConvFlow.conversation, Flowchart.conversation.
  split; [|split; [|split]].
  - intros Hno. unfold bind.
    destruct (cp_observers props); simpl;
      (destruct (cp_flow props) as [flow|] eqn:Hflow; [|done]);
      (destruct (strict_eq (f_type flow) (Some "conversation")) eqn:Ht; [|done]);
      apply strict_eq_Some in Ht; now destruct (Hno flow).
  - intros (flow & Hflow & Ht). rewrite Hflow.
    apply strict_eq_Some in Ht. rewrite Ht. unfold bind.
    destruct (cp_observers props); simpl;
      match goal with
      | |- context [settle ?t ?m ?s] =>
          destruct (settle_outcome t m s) as [H|H];
          destruct (settle t m s) as [r s']; simpl in H; subst r; simpl; auto
      end.
  - intros Hsrc Hno. rewrite Hsrc. unfold bind. simpl.
    destruct (cp_observers props); simpl;
      (destruct (cp_flow props) as [flow|] eqn:Hflow; [|done]);
      (destruct (f_type flow) as [type|] eqn:Ht; [|done]);
      now rewrite (Hno flow type).
  - intros Hsrc (flow & type & Hflow & Ht & Hinc). rewrite Hsrc, Hflow. unfold bind. simpl.
    rewrite Ht, Hinc.
    destruct (cp_observers props); simpl;
      match goal with
      | |- context [settle ?t ?m ?s] =>
          destruct (settle_outcome t m s) as [H|H];
          destruct (settle t m s) as [r s']; simpl in H; subst r; simpl; auto
      end.
Qed.

End Construction.

(** ** Notifications *)

Section Telling.

Context {W : Type}.
#[local] Abbreviation M := (M W).
#[local] Abbreviation state := (state W).

Lemma told_refl (st : state) : told_by_roots st st.
Proof.
  split.
  - intros i c Hc. exists c. split; [assumption | repeat split].
  - exists []. rewrite app_nil_r. split; [reflexivity | constructor].
Qed.

Lemma from_a_root_later (st st' : state) n :
  (∀ i c, heap st !! i = Some c → ∃ c', heap st' !! i = Some c' ∧ same_fixed c c') →
  from_a_root st n → from_a_root st' n.
Proof.
  intros Hheap Hn Hstart. destruct (Hn Hstart) as (c & Hc & Hp).
  destruct (Hheap _ _ Hc) as (c' & Hc' & _ & Hp' & _).
  exists c'. split; [assumption | congruence].
Qed.

Lemma told_trans (st1 st2 st3 : state) :
  told_by_roots st1 st2 → told_by_roots st2 st3 → told_by_roots st1 st3.
Proof.
  intros [H12 (ns1 & Hl1 & Hn1)] [H23 (ns2 & Hl2 & Hn2)]. split.
  - intros i c Hc. destruct (H12 _ _ Hc) as (c2 & Hc2 & Hf & Hp & Ho).
    destruct (H23 _ _ Hc2) as (c3 & Hc3 & Hf' & Hp' & Ho').
    exists c3. split; [assumption|]. repeat split; congruence.
  - exists (ns1 ++ ns2). split.
    + rewrite Hl2, Hl1. symmetry. apply app_assoc.
    + apply Forall_app. split; [|assumption].
      eapply Forall_impl; [exact Hn1|]. intros n. now apply from_a_root_later.
Qed.

(** Nothing was said, and the conversations are who they were. *)
Lemma told_silent (st st' : state) :
  (∀ i c, heap st !! i = Some c → ∃ c', heap st' !! i = Some c' ∧ same_fixed c c') →
  log st' = log st → told_by_roots st st'.
Proof.
  intros Hheap Hlog. split; [assumption|].
  exists []. rewrite app_nil_r. split; [assumption | constructor].
Qed.

Lemma told_same_heap (st st' : state) :
  heap st' = heap st → log st' = log st → told_by_roots st st'.
Proof.
  intros Hheap Hlog. apply told_silent; [|assumption].
  intros i c Hc. exists c. rewrite Hheap. split; [assumption | repeat split].
Qed.

Lemma told_update this (f : Conversation W → Conversation W) (st : state) :
  (∀ c, same_fixed c (f c)) → told_by_roots st (update this f st).
Proof.
  intros Hf. unfold update.
  destruct (heap st !! this) as [c0|] eqn:Hthis; [|apply told_refl].
  apply told_silent; [|reflexivity]. simpl. intros i c Hc.
  destruct (decide (i = this)) as [->|Hne].
  - exists (f c0). rewrite list_lookup_insert_eq by (now apply lookup_lt_Some in Hc).
    split; [reflexivity|]. assert (c0 = c) as -> by congruence. apply Hf.
  - exists c. rewrite list_lookup_insert_ne by congruence.
    split; [assumption | repeat split].
Qed.

Lemma tells_ret {A} (a : A) : tells_as_root (ret a : M A).
Proof. intros st r st' [= <- <-]. apply told_refl. Qed.

Lemma tells_throw {A} e : tells_as_root (throw e : M A).
Proof. intros st r st' [= <- <-]. apply told_refl. Qed.

Lemma tells_hang {A} : tells_as_root (hang : M A).
Proof. intros st r st' [= <- <-]. apply told_refl. Qed.

Lemma tells_out_of_fuel {A} : tells_as_root (out_of_fuel : M A).
Proof. intros st r st' [= <- <-]. apply told_refl. Qed.

Lemma tells_bind {A B} (m : M A) (f : A → M B) :
  tells_as_root m → (∀ a, tells_as_root (f a)) → tells_as_root (let* a := m in f a).
Proof.
  intros Hm Hf st r st' Hrun. unfold bind in Hrun.
  destruct (m st) as [[a|e| |] st1] eqn:Hm1;
    try (injection Hrun as <- <-; eapply Hm; eassumption).
  eapply told_trans; [eapply Hm; eassumption | eapply Hf; eassumption].
Qed.

Lemma tells_self this : tells_as_root (self this : M _).
Proof.
  intros st r st' Hrun. unfold self in Hrun.
  destruct (heap st !! this); injection Hrun as <- <-; apply told_refl.
Qed.

Lemma tells_await p : tells_as_root (await p : M _).
Proof. destruct p; simpl; auto using tells_ret, tells_hang, tells_throw. Qed.

Lemma tells_call {A} (f : W → res A * W) : tells_as_root (call f).
Proof.
  intros st r st' Hrun. unfold call in Hrun.
  destruct (f (world st)). injection Hrun as <- <-. now apply told_same_heap.
Qed.

Lemma tells_read_array a : tells_as_root (read_array a : M _).
Proof. intros st r st' [= <- <-]. apply told_refl. Qed.

Lemma tells_new_array : tells_as_root (new_array : M _).
Proof. intros st r st' [= <- <-]. now apply told_same_heap. Qed.

Lemma tells_modify_array a f : tells_as_root (modify_array a f : M _).
Proof.
  intros st r st' [= <- <-]. now destruct (arrays st !! a); apply told_same_heap.
Qed.

Lemma tells_modify this (f : Conversation W → Conversation W) :
  (∀ c, same_fixed c (f c)) → tells_as_root (modify this f : M _).
Proof. intros Hf st r st' [= <- <-]. now apply told_update. Qed.

Lemma tells_with_gen this gen : tells_as_root (modify this (with_gen gen) : M _).
Proof. apply tells_modify. intros c. repeat split. Qed.

Lemma tells_with_step this p : tells_as_root (modify this (with_step p) : M _).
Proof. apply tells_modify. intros c. repeat split. Qed.

Lemma tells_with_breadcrumbs this b :
  tells_as_root (modify this (with_breadcrumbs b) : M _).
Proof. apply tells_modify. intros c. repeat split. Qed.

Lemma tells_push_breadcrumb this step :
  tells_as_root (push_breadcrumb this step : M _).
Proof. apply tells_modify. intros c. repeat split. Qed.

Lemma tells_suspend this next : tells_as_root (suspend this next : M _).
Proof.
  destruct next; simpl; (apply tells_bind; [apply tells_with_gen | intros; apply tells_ret]).
Qed.

(** A conversation that is added is nobody's child yet, and says nothing. *)
Lemma tells_allocate (c : Conversation W) : tells_as_root (allocate c : M _).
Proof.
  intros st r st' [= <- <-]. apply told_silent; [|reflexivity].
  intros i ci Hci. exists ci. simpl.
  rewrite lookup_app_l by (now apply lookup_lt_Some in Hci).
  split; [assumption | repeat split].
Qed.

(** The one place where observers are called. *)
Lemma tells_notify this action step : tells_as_root (notify this action step : M _).
Proof.
  intros st r st' Hrun.
  destruct (heap st !! this) as [c|] eqn:Hc.
  - rewrite (notify_eq _ _ _ _ _ Hc) in Hrun. injection Hrun as <- <-.
    unfold notified. eapply told_trans; [|apply told_update; intros ?; repeat split].
    destruct (negb (strict_eq action (Some "start")) ||
              negb (bool_decide (is_Some (c_parent c)))) eqn:Hsay; [|apply told_refl].
    split.
    + intros i ci Hci. exists ci. split; [assumption | repeat split].
    + eexists. split; [reflexivity|].
      unfold calls. apply Forall_map, Forall_true. intros observer Hstart.
      simpl in *. subst action. exists c. split; [assumption|].
      simpl in Hsay. destruct (c_parent c); [discriminate | reflexivity].
  - unfold notify, bind, self in Hrun. rewrite Hc in Hrun.
    injection Hrun as <- <-. apply told_refl.
Qed.

Lemma tells_generator_body {A} this (m : M A) :
  tells_as_root m → tells_as_root (generator_body this m).
Proof.
  intros Hm st r st' Hrun. unfold generator_body in Hrun.
  destruct (m st) as [[a|e| |] st1] eqn:Hm1; injection Hrun as <- <-;
    try (eapply Hm; eassumption);
    (eapply told_trans; [eapply Hm; eassumption|]);
    apply told_update; intros c; repeat split.
Qed.

Lemma tells_detached {A} (m : M A) : tells_as_root m → tells_as_root (detached m).
Proof.
  intros Hm st r st' Hrun. unfold detached in Hrun.
  destruct (m st) as [[a|e| |] st1] eqn:Hm1; injection Hrun as <- <-;
    eapply Hm; eassumption.
Qed.

Lemma tells_settle this (m : M (option (Step W))) :
  tells_as_root m → tells_as_root (settle this m).
Proof.
  intros Hm st r st' Hrun. unfold settle in Hrun.
  destruct (m st) as [[a|e| |] st1] eqn:Hm1; injection Hrun as <- <-;
    try (eapply Hm; eassumption);
    (eapply told_trans; [eapply Hm; eassumption|]);
    apply told_update; intros c; repeat split.
Qed.

Lemma tells_as_promise (m : M (option (Step W))) :
  tells_as_root m → tells_as_root (as_promise m).
Proof.
  intros Hm st r st' Hrun. unfold as_promise in Hrun.
  destruct (m st) as [[a|e| |] st1] eqn:Hm1; injection Hrun as <- <-;
    eapply Hm; eassumption.
Qed.

Lemma tells_promise_all {A} (ms : list (M A)) :
  Forall tells_as_root ms → tells_as_root (promise_all ms).
Proof.
  induction 1 as [|m ms Hm _ IH]; intros st r st' Hrun; simpl in Hrun.
  - injection Hrun as <- <-. apply told_refl.
  - destruct (m st) as [r1 st1] eqn:Hm1.
    assert (H1 : told_by_roots st st1) by (eapply Hm; eassumption).
    destruct (promise_all ms st1) as [rs st2] eqn:Hms.
    assert (H2 : told_by_roots st1 st2) by (eapply IH; eassumption).
    assert (Hst : st' = st1 ∨ st' = st2).
    { destruct r1, rs; injection Hrun as <- <-; auto. }
    destruct Hst as [-> | ->]; [assumption | eapply told_trans; eassumption].
Qed.

Lemma tells_isReady this : tells_as_root (isReady this : M bool).
Proof.
  unfold isReady. apply tells_bind; [apply tells_self|]. intros c.
  apply tells_bind; [apply tells_await | intros; apply tells_ret].
Qed.

Lemma all_tell_no_fuel : all_tell_as_root (@no_fuel W).
Proof.
  unfold all_tell_as_root.
  repeat match goal with |- _ ∧ _ => split end; intros; apply tells_out_of_fuel.
Qed.

End Telling.

Create HintDb tell.

#[local] Hint Resolve tells_ret tells_throw tells_hang tells_out_of_fuel tells_self
  tells_await tells_call tells_read_array tells_new_array tells_modify_array
  tells_with_gen tells_with_step tells_with_breadcrumbs tells_push_breadcrumb
  tells_suspend tells_allocate tells_notify tells_isReady : tell.

Ltac tell_step :=
  match goal with
  | |- tells_as_root (bind _ _) => apply tells_bind; [|intros ?]
  | |- tells_as_root (generator_body _ _) => apply tells_generator_body
  | |- tells_as_root (as_promise _) => apply tells_as_promise
  | |- tells_as_root (detached _) => apply tells_detached
  | |- tells_as_root (settle _ _) => apply tells_settle
  | |- tells_as_root (match ?e with _ => _ end) => destruct e
  | |- tells_as_root _ => solve [eauto with tell]
  end.

Ltac tell := repeat tell_step.

Section ToldShared.

Context {W : Type}.
Variable rec : methods W.
Hypothesis Hrec : all_tell_as_root rec.

Lemma tells_hook_isReady step : tells_as_root (hook_isReady rec step).
Proof using Hrec.
  destruct Hrec as (_ & _ & _ & Hready & _). unfold hook_isReady. tell.
Qed.

Lemma tells_hook_isComplete missing throwOnError step :
  tells_as_root (hook_isComplete rec missing throwOnError step).
Proof using Hrec.
  destruct Hrec as (_ & _ & _ & _ & Hcomplete & _). unfold hook_isComplete. tell.
Qed.

Lemma tells_back this fromChild : tells_as_root (back rec this fromChild).
Proof using Hrec.
  destruct Hrec as (_ & _ & Hback & _). unfold back. tell.
Qed.

Lemma tells_subscribe this observer : tells_as_root (subscribe rec this observer).
Proof using Hrec.
  destruct Hrec as (_ & _ & _ & _ & _ & Hsubscribe & _). unfold subscribe. tell.
Qed.

Lemma tells_unsubscribe this observer : tells_as_root (unsubscribe rec this observer).
Proof using Hrec.
  destruct Hrec as (_ & _ & _ & _ & _ & _ & Hunsubscribe & _). unfold unsubscribe. tell.
Qed.

End ToldShared.

#[local] Hint Resolve tells_hook_isReady tells_hook_isComplete tells_back
  tells_subscribe tells_unsubscribe : tell.

Section ToldConvFlow.

Context {W : Type}.
Variable import_ : importer W.
Variable rec : methods W.
Hypothesis Hrec : all_tell_as_root rec.

Lemma ConvFlow_tells_get this id : tells_as_root (ConvFlow.get import_ rec this id).
Proof using Hrec.
  destruct Hrec as (Hconv & _). unfold ConvFlow.get. tell.
Qed.

Lemma ConvFlow_tells_scan this edges :
  tells_as_root (ConvFlow.scan import_ rec this edges).
Proof using Hrec.
  pose proof ConvFlow_tells_get.
  induction edges as [|e edges IH]; simpl; tell.
Qed.

Lemma ConvFlow_tells_genLoop this id next :
  tells_as_root (ConvFlow.genLoop import_ rec this id next).
Proof using Hrec.
  pose proof ConvFlow_tells_get. pose proof ConvFlow_tells_scan.
  destruct Hrec as (_ & _ & _ & _ & _ & _ & _ & _ & Hloop).
  unfold ConvFlow.genLoop. tell.
Qed.

Lemma ConvFlow_tells_genNext this id :
  tells_as_root (ConvFlow.genNext import_ rec this id).
Proof using Hrec.
  pose proof ConvFlow_tells_genLoop. unfold ConvFlow.genNext. tell.
Qed.

Lemma ConvFlow_tells_findLoop this index step :
  tells_as_root (ConvFlow.findLoop import_ rec this index step).
Proof using Hrec.
  pose proof ConvFlow_tells_get.
  destruct Hrec as (_ & _ & _ & _ & _ & _ & _ & Hloop & _).
  unfold ConvFlow.findLoop. tell.
Qed.

Lemma ConvFlow_tells_findStart this start :
  tells_as_root (ConvFlow.findStart import_ rec this start).
Proof using Hrec.
  pose proof ConvFlow_tells_get. pose proof ConvFlow_tells_findLoop.
  pose proof ConvFlow_tells_genNext.
  unfold ConvFlow.findStart. tell.
Qed.

Lemma ConvFlow_tells_conversation props :
  tells_as_root (ConvFlow.conversation import_ rec props).
Proof using Hrec.
  pose proof ConvFlow_tells_findStart. unfold ConvFlow.conversation. tell.
Qed.

Lemma ConvFlow_tells_continue this id fromChild :
  tells_as_root (ConvFlow.continue import_ rec this id fromChild).
Proof using Hrec.
  pose proof ConvFlow_tells_genNext.
  destruct Hrec as (_ & Hcontinue & _). unfold ConvFlow.continue. tell.
Qed.

Lemma ConvFlow_tells_isComplete this throwOnError :
  tells_as_root (ConvFlow.isComplete import_ rec this throwOnError).
Proof using Hrec.
  pose proof ConvFlow_tells_get. unfold ConvFlow.isComplete. tell.
  apply tells_promise_all, Forall_map, Forall_true. intros s.
  now apply tells_hook_isComplete.
Qed.

Lemma ConvFlow_all_tell_methods_of : all_tell_as_root (ConvFlow.methods_of import_ rec).
Proof using Hrec.
  unfold all_tell_as_root.
  repeat match goal with |- _ ∧ _ => split end; simpl; intros.
  - apply ConvFlow_tells_conversation.
  - apply ConvFlow_tells_continue.
  - now apply tells_back.
  - apply tells_isReady.
  - apply ConvFlow_tells_isComplete.
  - now apply tells_subscribe.
  - now apply tells_unsubscribe.
  - apply ConvFlow_tells_findLoop.
  - apply ConvFlow_tells_genLoop.
Qed.

End ToldConvFlow.

Lemma ConvFlow_all_tell_run {W} (import_ : importer W) fuel :
  all_tell_as_root (ConvFlow.run import_ fuel).
Proof.
  induction fuel; simpl; [apply all_tell_no_fuel | now apply ConvFlow_all_tell_methods_of].
Qed.

Section ToldFlowchart.

Context {W : Type}.
Variable import_ : importer W.
Variable readFlow : string → res (Flow W).
Variable rec : methods W.
Hypothesis Hrec : all_tell_as_root rec.

Lemma Flowchart_tells_get this id : tells_as_root (Flowchart.get import_ rec this id).
Proof using Hrec.
  destruct Hrec as (Hconv & _). unfold Flowchart.get. tell.
Qed.

Lemma Flowchart_tells_isComplete_of throwOnError s :
  tells_as_root (Flowchart.isComplete_of rec throwOnError s).
Proof using Hrec.
  destruct Hrec as (_ & _ & _ & _ & Hcomplete & _). unfold Flowchart.isComplete_of. tell.
Qed.

Lemma Flowchart_tells_isReady_of s : tells_as_root (Flowchart.isReady_of rec s).
Proof using Hrec.
  destruct Hrec as (_ & _ & _ & Hready & _). unfold Flowchart.isReady_of. tell.
Qed.

Lemma Flowchart_tells_scan this edges next :
  tells_as_root (Flowchart.scan import_ rec this edges next).
Proof using Hrec.
  pose proof Flowchart_tells_get. pose proof Flowchart_tells_isReady_of.
  revert next. induction edges as [|e edges IH]; intros next; simpl; tell.
Qed.

Lemma Flowchart_tells_genNext this id :
  tells_as_root (Flowchart.genNext import_ rec this id).
Proof using Hrec.
  pose proof Flowchart_tells_get. pose proof Flowchart_tells_isComplete_of.
  pose proof Flowchart_tells_scan. unfold Flowchart.genNext. tell.
Qed.

Lemma Flowchart_tells_findWhile this vertex :
  tells_as_root (Flowchart.findWhile rec this vertex).
Proof using Hrec.
  pose proof Flowchart_tells_isComplete_of.
  destruct Hrec as (_ & _ & _ & _ & _ & _ & _ & Hloop & _).
  unfold Flowchart.findWhile. tell.
Qed.

Lemma Flowchart_tells_findLoop this index vertex :
  tells_as_root (Flowchart.findLoop import_ rec this index vertex).
Proof using Hrec.
  pose proof Flowchart_tells_genNext. pose proof Flowchart_tells_findWhile.
  unfold Flowchart.findLoop. tell.
Qed.

Lemma Flowchart_tells_findStart this start :
  tells_as_root (Flowchart.findStart import_ rec this start).
Proof using Hrec.
  pose proof Flowchart_tells_get. pose proof Flowchart_tells_genNext.
  pose proof Flowchart_tells_findWhile.
  unfold Flowchart.findStart. tell.
Qed.

Lemma Flowchart_tells_conversation props :
  tells_as_root (Flowchart.conversation import_ readFlow rec props).
Proof using Hrec.
  pose proof Flowchart_tells_findStart. unfold Flowchart.conversation. tell.
Qed.

Lemma Flowchart_tells_continue this id fromChild :
  tells_as_root (Flowchart.continue import_ rec this id fromChild).
Proof using Hrec.
  pose proof Flowchart_tells_genNext. pose proof Flowchart_tells_isComplete_of.
  destruct Hrec as (_ & Hcontinue & _). unfold Flowchart.continue. tell.
Qed.

Lemma Flowchart_tells_crumbs_started throwOnError crumbs :
  Forall tells_as_root (fst (Flowchart.crumbs_started rec throwOnError crumbs)).
Proof using Hrec.
  destruct Hrec as (_ & _ & _ & _ & Hcomplete & _).
  induction crumbs as [|cur crumbs IH]; simpl; [constructor|].
  destruct (s_hook cur) as [[h|r]|]; [| |constructor].
  - destruct (h_isComplete h); [|constructor].
    destruct (Flowchart.crumbs_started _ _ _). simpl in *.
    constructor; [apply tells_call | assumption].
  - destruct (Flowchart.crumbs_started _ _ _). simpl in *.
    constructor; [apply Hcomplete | assumption].
Qed.

Lemma Flowchart_tells_isComplete this throwOnError :
  tells_as_root (Flowchart.isComplete rec this throwOnError).
Proof using Hrec.
  unfold Flowchart.isComplete. apply tells_bind; [tell|]. intros c.
  pose proof (Flowchart_tells_crumbs_started throwOnError (breadcrumbs c)) as Hcalls.
  destruct (Flowchart.crumbs_started _ _ _) as [calls whole]. simpl in Hcalls.
  destruct whole.
  - apply tells_bind; [now apply tells_promise_all | intros; tell].
  - apply tells_bind; [|intros; tell].
    apply tells_detached. now apply tells_promise_all.
Qed.

Lemma Flowchart_all_tell_methods_of :
  all_tell_as_root (Flowchart.methods_of import_ readFlow rec).
Proof using Hrec.
  unfold all_tell_as_root.
  repeat match goal with |- _ ∧ _ => split end; simpl; intros.
  - apply Flowchart_tells_conversation.
  - apply Flowchart_tells_continue.
  - now apply tells_back.
  - apply tells_isReady.
  - apply Flowchart_tells_isComplete.
  - now apply tells_subscribe.
  - now apply tells_unsubscribe.
  - apply Flowchart_tells_findLoop.
  - apply tells_out_of_fuel.
Qed.

End ToldFlowchart.

Lemma Flowchart_all_tell_run {W} (import_ : importer W) readFlow fuel :
  all_tell_as_root (Flowchart.run import_ readFlow fuel).
Proof.
  induction fuel; simpl; [apply all_tell_no_fuel | now apply Flowchart_all_tell_methods_of].
Qed.

Section Notifications.

Context {W : Type}.

Lemma asked_tells_as_root (rec : methods W) {A} (m : M W A) :
  all_tell_as_root rec → asked rec m → tells_as_root m.
Proof.
  intros (Hconv & Hcontinue & Hback & Hready & Hcomplete & Hsub & Hunsub & _) Hm.
  destruct Hm; auto.
Qed.

(** C9.  Whatever a client asks of either revision of the class (to
    construct a conversation, or any public method of any conversation, with
    all that the call sets off in nested and parent conversations), the
    observers are only called more, and of the calls that are added none is
    made with the action ["start"] by a conversation that has a parent: a
    call with the action ["start"] comes from a conversation without a
    parent. *)
Theorem nested_conversation_never_notifies_start
  (import_ : importer W) readFlow fuel {A} (m : M W A) (st : state W) r st' :
  asked (ConvFlow.run import_ fuel) m ∨ asked (Flowchart.run import_ readFlow fuel) m →
  m st = (r, st') →
  ∃ ns, log st' = log st ++ ns ∧
        ∀ n, n ∈ ns →
          (∀ c, heap st' !! n_from n = Some c → is_Some (c_parent c) →
                n_action n ≠ Some "start") ∧
          (n_action n = Some "start" →
           ∃ c, heap st' !! n_from n = Some c ∧ c_parent c = None).
Proof.
  intros Hm Hrun.
  assert (Htells : tells_as_root m).
  { destruct Hm as [Hm|Hm]; (eapply asked_tells_as_root; [|exact Hm]).
    - apply ConvFlow_all_tell_run.
    - apply Flowchart_all_tell_run. }
  destruct (Htells _ _ _ Hrun) as [_ (ns & Hlog & Hns)].
  exists ns. split; [assumption|]. intros n Hn.
  rewrite Forall_forall in Hns. specialize (Hns n Hn). split; [|exact Hns].
  intros c Hc [p Hp] Hstart. destruct (Hns Hstart) as (c' & Hc' & Hp').
  congruence.
Qed.

End Notifications.

(** ** Going back *)

Section GoingBack.

Context {W : Type}.
Variable import_ : importer W.
Variable readFlow : string → res (Flow W).

Lemma last_snoc_removelast {A} (l : list A) x :
  last (l ++ [x]) = Some x ∧ removelast (l ++ [x]) = l.
Proof. split; [apply last_snoc | apply removelast_last]. Qed.

Lemma back_at_a_step (rec : methods W) this fromChild (c : Conversation W) current
  (st : state W) :
  heap st !! this = Some c →
  c_step c = Resolved current →
  (fromChild = true ∨ ∀ child, current ≫= s_hook ≠ Some (Nested child)) →
  (∀ crumbs crumb, breadcrumbs c = crumbs ++ [crumb] →
     back rec this fromChild st =
       (Ok (Some crumb),
        notified this (Some "back") (Some crumb) c
          (update this (with_breadcrumbs crumbs) st))) ∧
  (breadcrumbs c = [] → c_parent c = None →
     back rec this fromChild st = (Ok None, st)).
Proof.
  intros Hc Hstep Hleaf.
  assert (Hgo : back rec this fromChild st =
    match last (breadcrumbs c) with
    | None => match c_parent c with
              | Some p => back_ rec p true
              | None => ret None
              end
    | Some crumb =>
        modify this (with_breadcrumbs (removelast (breadcrumbs c)));;
        notify this (Some "back") (Some crumb)
    end st).
  { unfold back. rewrite (bind_Ok _ _ _ _ _ (self_Ok _ _ _ Hc)), Hstep.
    rewrite (bind_Ok _ _ st st current) by reflexivity.
    destruct fromChild; [reflexivity|].
    destruct Hleaf as [?|Hleaf]; [discriminate|].
    destruct (current ≫= s_hook) as [[h|child]|] eqn:Hh; try reflexivity.
    now destruct (Hleaf child). }
  rewrite Hgo. clear Hgo.
  split.
  - intros crumbs crumb Hb. rewrite Hb.
    destruct (last_snoc_removelast crumbs crumb) as [-> ->].
    unfold bind at 1, modify at 1.
    assert (Hc' : heap (update this (with_breadcrumbs crumbs) st) !! this
                  = Some (with_breadcrumbs crumbs c)).
    { unfold update. rewrite Hc. simpl.
      apply list_lookup_insert_eq. now apply lookup_lt_Some in Hc. }
    rewrite (notify_eq _ _ _ _ _ Hc'). reflexivity.
  - intros Hb Hp. rewrite Hb, Hp. reflexivity.
Qed.


End GoingBack.

(** ** Unsubscribing *)

Section Unsubscribing.

Context {W : Type}.
Variable import_ : importer W.
Variable readFlow : string → res (Flow W).

Lemma findIndex_absent {A} (p : A → bool) (l : list A) :
  Forall (λ x, p x = false) l → findIndex p l = (-1)%Z.
Proof.
  induction 1 as [|x l Hx _ IH]; simpl; [reflexivity|].
  rewrite Hx, IH. reflexivity.
Qed.

Lemma findIndex_stranger (observer : nat) (l : list nat) :
  observer ∉ l → findIndex (λ itm, Nat.eqb itm observer) l = (-1)%Z.
Proof.
  intros Hnot. apply findIndex_absent, Forall_forall. intros x Hx.
  apply Nat.eqb_neq. intros ->. contradiction.
Qed.

Lemma splice_from_the_end {A} (l : list A) :
  splice (-1) 1 l = take (length l - 1) l.
Proof.
  unfold splice. change (-1 <? 0)%Z with true. cbv iota.
  replace (Z.to_nat (Z.max (Z.of_nat (length l) + -1) 0)) with (length l - 1) by lia.
  rewrite drop_ge by lia. apply app_nil_r.
Qed.

Lemma take_is_removelast {A} (l : list A) : take (length l - 1) l = removelast l.
Proof.
  destruct l as [|x l] using rev_ind; [reflexivity|].
  rewrite removelast_last, length_app. simpl.
  replace (length l + 1 - 1) with (length l) by lia.
  now rewrite take_app_length.
Qed.

Lemma unsubscribe_chain (R : nat → methods W) observer a :
  (∀ n, unsubscribe_ (R (S n)) = unsubscribe (R n)) →
  ∀ fuel this (st : state W) l,
    parents_below st → this < fuel → this < length (heap st) →
    arrays st !! a = Some l → observer ∉ l →
    ∃ st' k,
      unsubscribe_ (R fuel) this observer st = (Ok tt, st') ∧
      heap st' = heap st ∧
      arrays st' !! a = Some (take (length l - k) l) ∧
      ∀ c, heap st !! this = Some c → c_observers c = a →
           (l ≠ [] → 0 < k) ∧ (c_parent c = None → k = 1).
Proof.
  intros HR. induction fuel as [|fuel IH]; intros this st l Hwf Hfuel Hthis Ha Hnot; [lia|].
  rewrite HR. unfold unsubscribe.
  destruct (lookup_lt_is_Some_2 _ _ Hthis) as [c Hc].
  rewrite (bind_Ok _ _ _ _ _ (self_Ok _ _ _ Hc)).
  unfold bind at 1, modify_array at 1.
  set (st1 := match arrays st !! c_observers c with
              | Some l0 => set_arrays (<[c_observers c := _]> (arrays st)) st
              | None => st
              end).
  assert (Hheap1 : heap st1 = heap st).
  { unfold st1. now destruct (arrays st !! c_observers c). }
  assert (H1 : ∃ k0, arrays st1 !! a = Some (take (length l - k0) l) ∧
                     (c_observers c = a → k0 = 1) ∧ k0 ≤ 1).
  { destruct (decide (a = c_observers c)) as [->|Hne].
    - exists 1. unfold st1. rewrite Ha. simpl.
      rewrite list_lookup_insert_eq by (now apply lookup_lt_Some in Ha).
      rewrite findIndex_stranger by assumption.
      now rewrite splice_from_the_end.
    - exists 0. unfold st1. split; [|split; [intros; now subst|lia]].
      replace (length l - 0) with (length l) by lia. rewrite firstn_all.
      destruct (arrays st !! c_observers c); [|assumption]. simpl.
      now rewrite list_lookup_insert_ne. }
  destruct H1 as (k0 & Ha1 & Hk0 & Hk0le).
  destruct (c_parent c) as [p|] eqn:Hp.
  - assert (Hpi : p < this) by (eapply Hwf; eauto).
    destruct (IH p st1 (take (length l - k0) l)) as (st' & k1 & Hrun & Hheap & Ha' & _).
    + intros i ci pi. rewrite Hheap1. apply Hwf.
    + lia.
    + rewrite Hheap1. lia.
    + assumption.
    + intros Hin. apply Hnot. rewrite <- (take_drop (length l - k0) l).
      apply elem_of_app. now left.
    + exists st', (k0 + k1). split; [exact Hrun|]. split; [congruence|]. split.
      * rewrite Ha', take_take, length_take. f_equal. f_equal. lia.
      * intros c' Hc'. rewrite Hc in Hc'. injection Hc' as <-. intros Hobs.
        split; [intros _; specialize (Hk0 Hobs); lia|]. rewrite Hp. discriminate.
  - exists st1, k0. split; [reflexivity|]. split; [assumption|]. split; [assumption|].
    intros c' Hc'. rewrite Hc in Hc'. injection Hc' as <-. intros Hobs.
    split; intros; specialize (Hk0 Hobs); lia.
Qed.

(** C10.  Unsubscribing an observer that is not in the list of a
    conversation still takes an observer away: [findIndex] answers [-1] and
    [splice(-1, 1)] removes the last element.  The list that is left is the
    old one without its last [k] observers, with [k] at least one, and
    exactly one for a conversation without a parent (each ancestor that
    shares the list takes one more); the observer that was subscribed last,
    which is not the one unsubscribed, is gone. *)
Theorem unsubscribing_a_stranger_drops_the_last_observer
  fuel this (c : Conversation W) observers observer (st : state W) :
  heap st !! this = Some c →
  arrays st !! c_observers c = Some observers →
  observers ≠ [] →
  observer ∉ observers →
  parents_below st →
  this < fuel →
  ∀ unsubscribe_of,
    unsubscribe_of = unsubscribe_ (ConvFlow.run import_ fuel) ∨
    unsubscribe_of = unsubscribe_ (Flowchart.run import_ readFlow fuel) →
    ∃ st' k dropped,
      unsubscribe_of this observer st = (Ok tt, st') ∧
      0 < k ∧ (c_parent c = None → k = 1) ∧
      arrays st' !! c_observers c = Some (take (length observers - k) observers) ∧
      last observers = Some dropped ∧ dropped ≠ observer ∧
      (c_parent c = None →
       arrays st' !! c_observers c = Some (removelast observers)).
Proof.
  intros Hc Ha Hne Hnot Hwf Hfuel unsubscribe_of Hof.
  assert (Hrun : ∃ R, (∀ n, unsubscribe_ (R (S n)) = unsubscribe (R n)) ∧
                      unsubscribe_of = unsubscribe_ (R fuel)).
  { destruct Hof as [-> | ->]; eexists; (split; [|reflexivity]); intros n; reflexivity. }
  destruct Hrun as (R & HR & ->).
  destruct (unsubscribe_chain R observer (c_observers c) HR fuel this st observers)
    as (st' & k & Hrun & _ & Ha' & Hk); auto.
  { now apply lookup_lt_Some in Hc. }
  destruct (Hk c Hc eq_refl) as [Hpos Hroot].
  destruct (last observers) as [dropped|] eqn:Hlast.
  2: { apply last_None in Hlast. contradiction. }
  exists st', k, dropped. repeat split; auto.
  - intros ->. apply Hnot. apply last_Some in Hlast as [l' ->].
    apply elem_of_app. right. now apply list_elem_of_singleton.
  - intros Hp. rewrite Ha', (Hroot Hp). f_equal. apply take_is_removelast.
Qed.

End Unsubscribing.

(** ** Continuing from a step that is not complete *)

Section Waiting.

Context {W : Type}.
Variable import_ : importer W.
Variable readFlow : string → res (Flow W).

Lemma update_same this (f : Conversation W → Conversation W) c (st : state W) :
  heap st !! this = Some c → f c = c → update this f st = st.
Proof.
  intros Hc Hf. unfold update, set_heap. rewrite Hc, Hf, list_insert_id by assumption.
  now destruct st.
Qed.

Lemma update_lookup this (f : Conversation W → Conversation W) c (st : state W) :
  heap st !! this = Some c → heap (update this f st) !! this = Some (f c).
Proof.
  intros Hc. unfold update. rewrite Hc. simpl.
  apply list_lookup_insert_eq. now apply lookup_lt_Some in Hc.
Qed.

Lemma with_gen_same (c : Conversation W) g : c_gen c = g → with_gen g c = c.
Proof. intros <-. now destruct c. Qed.

Lemma call_eq {A} (f : W → res A * W) (st : state W) r w :
  f (world st) = (r, w) → call f st = (r, set_world w st).
Proof. intros H. unfold call. now rewrite H. Qed.

Lemma strict_eq_refl a : strict_eq a a = true.
Proof. destruct a; simpl; [apply String.eqb_refl|reflexivity]. Qed.

(** One call, in the revision over conversation flows: nothing moves but
    the world of the step. *)
Lemma ConvFlow_continue_waits (rec : methods W) this (c : Conversation W) s w'
  (st : state W) :
  heap st !! this = Some c →
  c_step c = Resolved (Some s) →
  c_gen c = GYield s →
  reports_incomplete s (world st) w' →
  ConvFlow.continue import_ rec this None false st = (Ok (Some s), set_world w' st).
Proof.
  intros Hc Hstep Hgen (h & f & Hh & Hf & Hno).
  unfold ConvFlow.continue.
  rewrite (bind_Ok _ _ _ _ _ (self_Ok _ _ _ Hc)), Hstep. simpl await.
  rewrite (bind_Ok _ _ st st (Some s)) by reflexivity.
  simpl. rewrite Hh.
  rewrite (bind_Ok _ _ st st None) by reflexivity.
  assert (Hnext : ConvFlow.genNext import_ rec this None st
                  = (Ok (false, Some s), set_world w' st)).
  { unfold ConvFlow.genNext.
    rewrite (bind_Ok _ _ _ _ _ (self_Ok _ _ _ Hc)), Hgen.
    unfold generator_body, ConvFlow.genLoop, hook_isComplete. simpl. rewrite Hh, Hf.
    rewrite (bind_Ok _ _ _ _ _ (call_eq _ _ _ _ Hno)).
    unfold suspend, bind, modify.
    rewrite (update_same this _ c); [reflexivity|exact Hc|now apply with_gen_same]. }
  rewrite (bind_Ok _ _ _ _ _ Hnext). simpl.
  now rewrite String.eqb_refl.
Qed.

(** One call, in the revision over flowcharts: the step is asked twice, the
    observers hear ["continue"] with the same step, nothing else moves. *)
Lemma Flowchart_continue_waits (rec : methods W) this (c : Conversation W) s g w1 w2
  (st : state W) :
  heap st !! this = Some c →
  c_step c = Resolved (Some s) →
  c_gen c = GYield g →
  reports_incomplete s (world st) w1 →
  reports_incomplete s w1 w2 →
  Flowchart.continue import_ rec this None false st =
    (Ok (Some s),
     notified this (Some "continue") (Some s) c
       (update this (with_gen (GYield s)) (set_world w2 st))).
Proof.
  intros Hc Hstep Hgen (h & f & Hh & Hf & Hno) (h' & f' & Hh' & Hf' & Hno').
  rewrite Hh in Hh'. injection Hh' as <-. rewrite Hf in Hf'. injection Hf' as <-.
  unfold Flowchart.continue.
  rewrite (bind_Ok _ _ _ _ _ (self_Ok _ _ _ Hc)), Hstep. simpl await.
  rewrite (bind_Ok _ _ st st (Some s)) by reflexivity.
  simpl. rewrite Hh.
  rewrite (bind_Ok _ _ st st None) by reflexivity.
  set (st1 := update this (with_gen (GYield s)) (set_world w1 st)).
  assert (Hnext : Flowchart.genNext import_ rec this None st = (Ok (false, Some s), st1)).
  { unfold Flowchart.genNext.
    rewrite (bind_Ok _ _ _ _ _ (self_Ok _ _ _ Hc)), Hgen.
    unfold generator_body.
    assert (Hget : Flowchart.get import_ rec this None st = (Ok (Some s), st)).
    { unfold Flowchart.get. rewrite (bind_Ok _ _ _ _ _ (self_Ok _ _ _ Hc)). simpl.
      now rewrite Hstep. }
    rewrite (bind_Ok _ _ _ _ _ Hget).
    unfold Flowchart.isComplete_of. simpl. rewrite Hh, Hf.
    rewrite (bind_Ok _ _ _ _ _ (call_eq _ _ _ _ Hno)). reflexivity. }
  rewrite (bind_Ok _ _ _ _ _ Hnext). cbn [fst snd negb andb].
  unfold Flowchart.isComplete_of at 1. simpl. rewrite Hh, Hf.
  assert (Hw1 : world st1 = w1).
  { unfold st1, update. simpl. now destruct (heap st !! this). }
  assert (Hagain : call (f false) st1 = (Ok false, set_world w2 st1))
    by (apply call_eq; now rewrite Hw1).
  rewrite (bind_Ok _ _ _ _ _ Hagain).
  assert (Hc1 : heap (set_world w2 st1) !! this = Some (with_gen (GYield s) c)).
  { unfold st1. simpl. apply (update_lookup this _ c (set_world w1 st)). exact Hc. }
  rewrite (notify_eq _ _ _ _ _ Hc1). f_equal.
  unfold notified, st1, update. simpl. rewrite Hc. simpl.
  rewrite list_lookup_insert_eq by (now apply lookup_lt_Some in Hc). reflexivity.
Qed.

Lemma world_update this (f : Conversation W → Conversation W) (st : state W) :
  world (update this f st) = world st.
Proof. unfold update. now destruct (heap st !! this). Qed.

Lemma notified_lookup this action step (c c0 : Conversation W) (st : state W) :
  heap st !! this = Some c0 →
  heap (notified this action step c st) !! this = Some (with_step (Resolved step) c0) ∧
  world (notified this action step c st) = world st.
Proof.
  intros Hc. unfold notified. rewrite world_update.
  destruct (_ || _); (split; [apply update_lookup; exact Hc | reflexivity]).
Qed.

Lemma continue_waits_once fuel this (c : Conversation W) s (I : W → Prop) (st : state W)
  continue_of :
  heap st !! this = Some c →
  c_step c = Resolved (Some s) →
  c_gen c = GYield s →
  stays_incomplete s I →
  I (world st) →
  continue_of = continue_ (ConvFlow.run import_ (S fuel)) ∨
  continue_of = continue_ (Flowchart.run import_ readFlow (S fuel)) →
  ∃ st1 c1,
    continue_of this None false st = (Ok (Some s), st1) ∧
    heap st1 !! this = Some c1 ∧
    breadcrumbs c1 = breadcrumbs c ∧
    c_step c1 = Resolved (Some s) ∧
    c_gen c1 = GYield s ∧
    I (world st1).
Proof.
  intros Hc Hstep Hgen Hstay HI [-> | ->].
  - destruct (Hstay _ HI) as (w1 & Hno & HI1).
    exists (set_world w1 st), c. split.
    + simpl continue_. apply (ConvFlow_continue_waits _ this c); assumption.
    + auto.
  - destruct (Hstay _ HI) as (w1 & Hno1 & HI1).
    destruct (Hstay _ HI1) as (w2 & Hno2 & HI2).
    eexists _, _. split.
    + simpl continue_. apply (Flowchart_continue_waits _ this c s s w1 w2); assumption.
    + destruct (notified_lookup this (Some "continue") (Some s) c
                  (with_gen (GYield s) c)
                  (update this (with_gen (GYield s)) (set_world w2 st))) as [Hl Hw].
      * apply (update_lookup this _ c (set_world w2 st)). exact Hc.
      * rewrite Hl, Hw, world_update. simpl. auto.
Qed.

(** X23.  [continue()] waits on a step that is not complete.  Take a
    conversation whose current step is the object of a step module (not a
    nested conversation), on which the generator is suspended, and which
    answers [isComplete()] with no as long as the world stays in [I].  Then
    [continue()] without arguments returns that step and leaves the
    breadcrumbs and the current step as they are, and so does every further
    call, any number of times, in both revisions. *)
Theorem continue_waits_on_an_incomplete_step
  fuel this (c : Conversation W) s (I : W → Prop) n (st : state W) :
  heap st !! this = Some c →
  c_step c = Resolved (Some s) →
  c_gen c = GYield s →
  stays_incomplete s I →
  I (world st) →
  ∀ continue_of,
    continue_of = continue_ (ConvFlow.run import_ (S fuel)) ∨
    continue_of = continue_ (Flowchart.run import_ readFlow (S fuel)) →
    let r := repeatedly (continue_of this None false) n st in
    fst r = replicate n (Ok (Some s)) ∧
    ∃ c', heap (snd r) !! this = Some c' ∧
          breadcrumbs c' = breadcrumbs c ∧
          c_step c' = Resolved (Some s) ∧
          I (world (snd r)).
Proof.
  intros Hc Hstep Hgen Hstay HI continue_of Hof. cbn zeta.
  revert st c Hc Hstep Hgen HI.
  induction n as [|n IH]; intros st c Hc Hstep Hgen HI.
  - simpl. split; [reflexivity|]. exists c. auto.
  - destruct (continue_waits_once fuel this c s I st continue_of)
      as (st1 & c1 & Hrun & Hc1 & Hb1 & Hs1 & Hg1 & HI1); auto.
    destruct (IH st1 c1 Hc1 Hs1 Hg1 HI1) as (Hrs & c' & Hc' & Hb' & Hs' & HI').
    simpl. rewrite Hrun.
    destruct (repeatedly (continue_of this None false) n st1) as [rs st2].
    simpl in *. split; [now rewrite Hrs|].
    exists c'. repeat split; auto. congruence.
Qed.

End Waiting.

(** ** Looking does not navigate

    Resolving a step, asking a hook and turning the generator leave the
    current step of every conversation alone: only [notify] writes it.  And
    a generator is only turned by the loops of its own conversation. *)

Section Frame.

Context {W : Type}.
#[local] Abbreviation M := (M W).
#[local] Abbreviation state := (state W).

Lemma same_fixed_refl (c : Conversation W) : same_fixed c c.
Proof. repeat split. Qed.

Lemma kept_refl g s (st : state) : kept_but g s st st.
Proof. intros i c Hc. exists c. auto using same_fixed_refl. Qed.

Lemma kept_trans g s (st1 st2 st3 : state) :
  kept_but g s st1 st2 → kept_but g s st2 st3 → kept_but g s st1 st3.
Proof.
  intros H12 H23 i c Hc.
  destruct (H12 i c Hc) as (c2 & Hc2 & (Hf & Hp & Ho) & Hg & Hs).
  destruct (H23 i c2 Hc2) as (c3 & Hc3 & (Hf' & Hp' & Ho') & Hg' & Hs').
  exists c3. split; [assumption|]. split; [|split].
  - repeat split; congruence.
  - intros Hi. destruct (Hg Hi), (Hg' Hi). split; congruence.
  - intros Hi. rewrite Hs', Hs; auto.
Qed.

Lemma kept_mono g s g' s' (st st' : state) :
  g' = None ∨ g' = g → s' = None ∨ s' = s →
  kept_but g' s' st st' → kept_but g s st st'.
Proof.
  intros Hg Hs H i c Hc. destruct (H i c Hc) as (c' & ? & ? & Hgen & Hstep).
  exists c'. split; [assumption|]. split; [assumption|]. split.
  - intros Hi. apply Hgen. destruct Hg as [-> | ->]; [discriminate | assumption].
  - intros Hi. apply Hstep. destruct Hs as [-> | ->]; [discriminate | assumption].
Qed.

Lemma keeps_mono g s g' s' {A} (m : M A) :
  g' = None ∨ g' = g → s' = None ∨ s' = s →
  keeps_but g' s' m → keeps_but g s m.
Proof. intros Hg Hs H st r st' Hm. eapply kept_mono, H, Hm; assumption. Qed.

Lemma keeps_weaken g s {A} (m : M A) : keeps_but None None m → keeps_but g s m.
Proof. apply keeps_mono; now left. Qed.

Lemma keeps_ret g s {A} (a : A) : keeps_but g s (ret a : M A).
Proof. intros st r st' [= <- <-]. apply kept_refl. Qed.

Lemma keeps_throw g s {A} e : keeps_but g s (throw e : M A).
Proof. intros st r st' [= <- <-]. apply kept_refl. Qed.

Lemma keeps_hang g s {A} : keeps_but g s (hang : M A).
Proof. intros st r st' [= <- <-]. apply kept_refl. Qed.

Lemma keeps_out_of_fuel g s {A} : keeps_but g s (out_of_fuel : M A).
Proof. intros st r st' [= <- <-]. apply kept_refl. Qed.

Lemma keeps_bind g s {A B} (m : M A) (f : A → M B) :
  keeps_but g s m → (∀ a, keeps_but g s (f a)) → keeps_but g s (let* a := m in f a).
Proof.
  intros Hm Hf st r st' Hrun. unfold bind in Hrun.
  destruct (m st) as [[a|e| |] st1] eqn:Hm1;
    try (injection Hrun as <- <-; eapply Hm; eassumption).
  eapply kept_trans; [eapply Hm; eassumption | eapply Hf; eassumption].
Qed.

Lemma keeps_self g s this : keeps_but g s (self this : M _).
Proof.
  intros st r st' Hrun. unfold self in Hrun.
  destruct (heap st !! this); injection Hrun as <- <-; apply kept_refl.
Qed.

Lemma keeps_await g s p : keeps_but g s (await p : M _).
Proof. destruct p; simpl; auto using keeps_ret, keeps_hang, keeps_throw. Qed.

Lemma kept_same_heap g s (st st' : state) : heap st' = heap st → kept_but g s st st'.
Proof. intros H i c Hc. exists c. rewrite H. auto using same_fixed_refl. Qed.

Lemma keeps_call g s {A} (f : W → res A * W) : keeps_but g s (call f).
Proof.
  intros st r st' Hrun. unfold call in Hrun.
  destruct (f (world st)). injection Hrun as <- <-. now apply kept_same_heap.
Qed.

Lemma keeps_emit g s ns : keeps_but g s (emit ns : M _).
Proof. intros st r st' [= <- <-]. now apply kept_same_heap. Qed.

Lemma keeps_read_array g s a : keeps_but g s (read_array a : M _).
Proof. intros st r st' [= <- <-]. apply kept_refl. Qed.

Lemma keeps_new_array g s : keeps_but g s (new_array : M _).
Proof. intros st r st' [= <- <-]. now apply kept_same_heap. Qed.

Lemma keeps_modify_array g s a f : keeps_but g s (modify_array a f : M _).
Proof.
  intros st r st' [= <- <-]. apply kept_same_heap.
  now destruct (arrays st !! a).
Qed.

Lemma kept_update g s this (f : Conversation W → Conversation W) (st : state) :
  (∀ c, same_fixed c (f c)) →
  (g = Some this ∨ ∀ c, c_gen (f c) = c_gen c ∧ breadcrumbs (f c) = breadcrumbs c) →
  (s = Some this ∨ ∀ c, c_step (f c) = c_step c) →
  kept_but g s st (update this f st).
Proof.
  intros Hfix Hgen Hstep i c Hc. unfold update.
  destruct (heap st !! this) as [c0|] eqn:Hthis; [|exists c; auto using same_fixed_refl].
  simpl. destruct (decide (i = this)) as [->|Hne].
  - exists (f c0). rewrite list_lookup_insert_eq by (now apply lookup_lt_Some in Hc).
    assert (c0 = c) as -> by congruence.
    split; [reflexivity|]. split; [apply Hfix|]. split.
    + intros Hx. destruct Hgen as [->|Hgen]; [contradiction|apply Hgen].
    + intros Hx. destruct Hstep as [->|Hstep]; [contradiction|apply Hstep].
  - exists c. rewrite list_lookup_insert_ne by congruence. auto using same_fixed_refl.
Qed.

Lemma kept_with_gen s this gen (st : state) :
  kept_but (Some this) s st (update this (with_gen gen) st).
Proof. apply kept_update; [intros c; repeat split | now left | right; reflexivity]. Qed.

Lemma keeps_with_gen s this gen : keeps_but (Some this) s (modify this (with_gen gen) : M _).
Proof. intros st r st' [= <- <-]. apply kept_with_gen. Qed.

Lemma keeps_push_breadcrumb s this step :
  keeps_but (Some this) s (push_breadcrumb this step : M _).
Proof.
  intros st r st' [= <- <-].
  apply kept_update; [intros c; repeat split | now left | right; reflexivity].
Qed.

Lemma kept_with_step g this p (st : state) :
  kept_but g (Some this) st (update this (with_step p) st).
Proof.
  apply kept_update; [intros c; repeat split | right; intros c; now split | now left].
Qed.

Lemma keeps_with_step g this p : keeps_but g (Some this) (modify this (with_step p) : M _).
Proof. intros st r st' [= <- <-]. apply kept_with_step. Qed.

Lemma keeps_suspend s this next : keeps_but (Some this) s (suspend this next : M _).
Proof.
  destruct next; simpl; (apply keeps_bind; [apply keeps_with_gen | intros; apply keeps_ret]).
Qed.

Lemma keeps_notify g this action step :
  keeps_but g (Some this) (notify this action step : M _).
Proof.
  unfold notify. apply keeps_bind; [apply keeps_self|]. intros c.
  apply keeps_bind.
  - destruct (_ || _); [|apply keeps_ret].
    apply keeps_bind; [apply keeps_read_array | intros; apply keeps_emit].
  - intros _. apply keeps_bind; [apply keeps_with_step | intros; apply keeps_ret].
Qed.

Lemma keeps_generator_body s {A} this (m : M A) :
  keeps_but (Some this) s m → keeps_but (Some this) s (generator_body this m).
Proof.
  intros Hm st r st' Hrun. unfold generator_body in Hrun.
  destruct (m st) as [[a|e| |] st1] eqn:Hm1; injection Hrun as <- <-;
    try (eapply Hm; eassumption);
    (eapply kept_trans; [eapply Hm; eassumption | apply kept_with_gen]).
Qed.

Lemma keeps_detached g s {A} (m : M A) :
  keeps_but g s m → keeps_but g s (detached m).
Proof.
  intros Hm st r st' Hrun. unfold detached in Hrun.
  destruct (m st) as [[a|e| |] st1] eqn:Hm1; injection Hrun as <- <-;
    eapply Hm; eassumption.
Qed.

Lemma keeps_settle g this (m : M (option (Step W))) :
  keeps_but g (Some this) m → keeps_but g (Some this) (settle this m).
Proof.
  intros Hm st r st' Hrun. unfold settle in Hrun.
  destruct (m st) as [[a|e| |] st1] eqn:Hm1; injection Hrun as <- <-;
    try (eapply Hm; eassumption);
    (eapply kept_trans; [eapply Hm; eassumption | apply kept_with_step]).
Qed.

Lemma keeps_as_promise g s (m : M (option (Step W))) :
  keeps_but g s m → keeps_but g s (as_promise m).
Proof.
  intros Hm st r st' Hrun. unfold as_promise in Hrun.
  destruct (m st) as [[a|e| |] st1] eqn:Hm1; injection Hrun as <- <-;
    eapply Hm; eassumption.
Qed.

Lemma keeps_promise_all g s {A} (ms : list (M A)) :
  Forall (keeps_but g s) ms → keeps_but g s (promise_all ms).
Proof.
  induction 1 as [|m ms Hm _ IH]; intros st r st' Hrun; simpl in Hrun.
  - injection Hrun as <- <-. apply kept_refl.
  - destruct (m st) as [r1 st1] eqn:Hm1.
    assert (H1 : kept_but g s st st1) by (eapply Hm; eassumption).
    destruct (promise_all ms st1) as [rs st2] eqn:Hms.
    assert (H2 : kept_but g s st1 st2) by (eapply IH; eassumption).
    assert (Hst : st' = st1 ∨ st' = st2).
    { destruct r1, rs; injection Hrun as <- <-; auto. }
    destruct Hst as [-> | ->]; [assumption | eapply kept_trans; eassumption].
Qed.

(** A conversation that has just been allocated is nobody's yet: what
    follows may write all of it. *)
Lemma keeps_allocate {A} (c : Conversation W) (k : nat → M A) :
  (∀ this, keeps_but (Some this) (Some this) (k this)) →
  keeps_but None None (let* this := allocate c in k this).
Proof.
  intros Hk st r st' Hrun. unfold bind, allocate in Hrun.
  intros i ci Hci.
  assert (Hlt : i < length (heap st)) by now apply lookup_lt_Some in Hci.
  destruct (Hk _ _ _ _ Hrun i ci) as (c' & Hc' & Hfix & Hgen & Hstep).
  - simpl. now rewrite lookup_app_l.
  - assert (Hi : Some i ≠ Some (length (heap st))) by (intros [= ->]; lia).
    exists c'. split; [assumption|]. split; [assumption|]. split; intros _; auto.
Qed.

Lemma keeps_hook_isReady g s (rec : methods W) step :
  quiet rec → keeps_but g s (hook_isReady rec step).
Proof.
  intros (_ & Hready & _). apply keeps_weaken. unfold hook_isReady.
  destruct (step ≫= s_hook) as [[h|r]|]; [|apply Hready|apply keeps_ret].
  destruct (h_isReady h); [apply keeps_call | apply keeps_ret].
Qed.

Lemma keeps_hook_isComplete g s (rec : methods W) missing throwOnError step :
  quiet rec → keeps_but g s (hook_isComplete rec missing throwOnError step).
Proof.
  intros (_ & _ & Hcomplete & _). apply keeps_weaken. unfold hook_isComplete.
  destruct (step ≫= s_hook) as [[h|r]|]; [|apply Hcomplete|apply keeps_ret].
  destruct (h_isComplete h); [apply keeps_call | apply keeps_ret].
Qed.

Lemma keeps_isReady g s this : keeps_but g s (isReady this : M bool).
Proof.
  unfold isReady. apply keeps_bind; [apply keeps_self|]. intros c.
  apply keeps_bind; [apply keeps_await | intros; apply keeps_ret].
Qed.

Lemma quiet_no_fuel : quiet (@no_fuel W).
Proof. repeat split; intros; apply keeps_out_of_fuel. Qed.

(** Both fields kept make the same conversation. *)
Lemma kept_same g s (st st' : state) i c :
  kept_but g s st st' → Some i ≠ g → Some i ≠ s →
  heap st !! i = Some c → heap st' !! i = Some c.
Proof.
  intros H Hg Hs Hc. destruct (H i c Hc) as (c' & Hc' & (Hf & Hp & Ho) & Hgen & Hstep).
  destruct (Hgen Hg) as [Hgen' Hb]. specialize (Hstep Hs).
  rewrite Hc'. f_equal. destruct c, c'. simpl in *. congruence.
Qed.

End Frame.

Create HintDb frame.

#[local] Hint Resolve keeps_ret keeps_throw keeps_hang keeps_out_of_fuel keeps_self
  keeps_await keeps_call keeps_emit keeps_read_array keeps_new_array
  keeps_modify_array keeps_with_gen keeps_push_breadcrumb keeps_with_step
  keeps_suspend keeps_notify keeps_hook_isReady keeps_hook_isComplete
  keeps_isReady : frame.

Ltac frame_step :=
  match goal with
  | |- keeps_but _ _ (bind _ _) => apply keeps_bind; [|intros ?]
  | |- keeps_but _ _ (generator_body _ _) => apply keeps_generator_body
  | |- keeps_but _ _ (as_promise _) => apply keeps_as_promise
  | |- keeps_but _ _ (match ?e with _ => _ end) => destruct e
  | |- keeps_but _ _ _ => solve [eauto with frame]
  | |- keeps_but _ _ _ => apply keeps_weaken; solve [eauto with frame]
  | |- keeps_but (Some ?x) (Some ?x) _ =>
      apply (keeps_mono _ _ (Some x) None); [now right | now left |];
      solve [eauto with frame]
  end.

Ltac frame := repeat frame_step.

Section QuietConvFlow.

Context {W : Type}.
Variable import_ : importer W.
Variable rec : methods W.
Hypothesis Hrec : quiet rec.

Lemma ConvFlow_keeps_get this id :
  keeps_but None None (ConvFlow.get import_ rec this id).
Proof using Hrec.
  destruct Hrec as (Hconv & _). unfold ConvFlow.get. frame.
Qed.

Lemma ConvFlow_keeps_scan this edges :
  keeps_but None None (ConvFlow.scan import_ rec this edges).
Proof using Hrec.
  pose proof ConvFlow_keeps_get.
  induction edges as [|e edges IH]; simpl; frame.
Qed.

Lemma ConvFlow_keeps_genLoop this id next :
  keeps_but (Some this) None (ConvFlow.genLoop import_ rec this id next).
Proof using Hrec.
  pose proof ConvFlow_keeps_get. pose proof ConvFlow_keeps_scan.
  destruct Hrec as (_ & _ & _ & _ & Hloop). unfold ConvFlow.genLoop. frame.
Qed.

Lemma ConvFlow_keeps_genNext this id :
  keeps_but (Some this) None (ConvFlow.genNext import_ rec this id).
Proof using Hrec.
  pose proof ConvFlow_keeps_genLoop. unfold ConvFlow.genNext. frame.
Qed.

Lemma ConvFlow_keeps_findLoop this index step :
  keeps_but (Some this) None (ConvFlow.findLoop import_ rec this index step).
Proof using Hrec.
  pose proof ConvFlow_keeps_get.
  destruct Hrec as (_ & _ & _ & Hloop & _). unfold ConvFlow.findLoop. frame.
Qed.

Lemma ConvFlow_keeps_findStart this start :
  keeps_but (Some this) (Some this) (ConvFlow.findStart import_ rec this start).
Proof using Hrec.
  pose proof ConvFlow_keeps_get. pose proof ConvFlow_keeps_findLoop.
  pose proof ConvFlow_keeps_genNext.
  unfold ConvFlow.findStart. frame.
  apply keeps_detached. frame.
Qed.

Lemma ConvFlow_keeps_conversation props :
  keeps_but None None (ConvFlow.conversation import_ rec props).
Proof using Hrec.
  pose proof ConvFlow_keeps_findStart.
  unfold ConvFlow.conversation. apply keeps_bind; [frame|]. intros observers.
  destruct (cp_flow props) as [flow|]; [|frame].
  destruct (strict_eq _ _); [|frame].
  apply keeps_allocate. intros this.
  apply keeps_bind; [apply keeps_settle; auto | intros; frame].
Qed.

Lemma ConvFlow_keeps_isComplete this throwOnError :
  keeps_but None None (ConvFlow.isComplete import_ rec this throwOnError).
Proof using Hrec.
  pose proof ConvFlow_keeps_get. unfold ConvFlow.isComplete. frame.
  apply keeps_promise_all, Forall_map, Forall_true. intros s.
  now apply keeps_hook_isComplete.
Qed.

Lemma ConvFlow_quiet_methods_of : quiet (ConvFlow.methods_of import_ rec).
Proof using Hrec.
  repeat split; simpl; intros.
  - apply ConvFlow_keeps_conversation.
  - apply keeps_isReady.
  - apply ConvFlow_keeps_isComplete.
  - apply ConvFlow_keeps_findLoop.
  - apply ConvFlow_keeps_genLoop.
Qed.

End QuietConvFlow.

Lemma ConvFlow_quiet_run {W} (import_ : importer W) fuel :
  quiet (ConvFlow.run import_ fuel).
Proof.
  induction fuel; simpl; [apply quiet_no_fuel | now apply ConvFlow_quiet_methods_of].
Qed.

Section QuietFlowchart.

Context {W : Type}.
Variable import_ : importer W.
Variable readFlow : string → res (Flow W).
Variable rec : methods W.
Hypothesis Hrec : quiet rec.

Lemma Flowchart_keeps_get this id :
  keeps_but None None (Flowchart.get import_ rec this id).
Proof using Hrec.
  destruct Hrec as (Hconv & _). unfold Flowchart.get. frame.
Qed.

Lemma Flowchart_keeps_isComplete_of throwOnError s :
  keeps_but None None (Flowchart.isComplete_of rec throwOnError s).
Proof using Hrec.
  destruct Hrec as (_ & _ & Hcomplete & _). unfold Flowchart.isComplete_of. frame.
Qed.

Lemma Flowchart_keeps_isReady_of s : keeps_but None None (Flowchart.isReady_of rec s).
Proof using Hrec.
  destruct Hrec as (_ & Hready & _). unfold Flowchart.isReady_of. frame.
Qed.

Lemma Flowchart_keeps_scan this edges next :
  keeps_but None None (Flowchart.scan import_ rec this edges next).
Proof using Hrec.
  pose proof Flowchart_keeps_get. pose proof Flowchart_keeps_isReady_of.
  revert next. induction edges as [|e edges IH]; intros next; simpl; frame.
Qed.

Lemma Flowchart_keeps_genNext this id :
  keeps_but (Some this) None (Flowchart.genNext import_ rec this id).
Proof using Hrec.
  pose proof Flowchart_keeps_get. pose proof Flowchart_keeps_isComplete_of.
  pose proof Flowchart_keeps_scan. unfold Flowchart.genNext. frame.
Qed.

Lemma Flowchart_keeps_findWhile this vertex :
  keeps_but (Some this) None (Flowchart.findWhile rec this vertex).
Proof using Hrec.
  pose proof Flowchart_keeps_isComplete_of.
  destruct Hrec as (_ & _ & _ & Hloop & _). unfold Flowchart.findWhile. frame.
Qed.

Lemma Flowchart_keeps_findLoop this index vertex :
  keeps_but (Some this) None (Flowchart.findLoop import_ rec this index vertex).
Proof using Hrec.
  pose proof Flowchart_keeps_genNext. pose proof Flowchart_keeps_findWhile.
  unfold Flowchart.findLoop. frame.
Qed.

Lemma Flowchart_keeps_findStart this start :
  keeps_but (Some this) (Some this) (Flowchart.findStart import_ rec this start).
Proof using Hrec.
  pose proof Flowchart_keeps_get. pose proof Flowchart_keeps_genNext.
  pose proof Flowchart_keeps_findWhile.
  unfold Flowchart.findStart. apply keeps_bind; [frame|]. intros c.
  destruct (key_in _ _).
  - frame. apply keeps_detached. frame.
  - frame.
Qed.

Lemma Flowchart_keeps_conversation props :
  keeps_but None None (Flowchart.conversation import_ readFlow rec props).
Proof using Hrec.
  pose proof Flowchart_keeps_findStart.
  unfold Flowchart.conversation.
  apply keeps_bind; [frame|]. intros flow.
  apply keeps_bind; [frame|]. intros observers.
  destruct flow as [flow|]; [|frame].
  destruct (match f_type flow with Some _ => _ | None => _ end); [|frame].
  apply keeps_allocate. intros this.
  apply keeps_bind; [apply keeps_settle; auto | intros; frame].
Qed.

Lemma Flowchart_keeps_crumbs_started throwOnError crumbs :
  Forall (keeps_but None None) (fst (Flowchart.crumbs_started rec throwOnError crumbs)).
Proof using Hrec.
  destruct Hrec as (_ & _ & Hcomplete & _).
  induction crumbs as [|cur crumbs IH]; simpl; [constructor|].
  destruct (s_hook cur) as [[h|r]|]; [| |constructor].
  - destruct (h_isComplete h); [|constructor].
    destruct (Flowchart.crumbs_started _ _ _). simpl in *.
    constructor; [apply keeps_call | assumption].
  - destruct (Flowchart.crumbs_started _ _ _). simpl in *.
    constructor; [apply Hcomplete | assumption].
Qed.

Lemma Flowchart_keeps_isComplete this throwOnError :
  keeps_but None None (Flowchart.isComplete rec this throwOnError).
Proof using Hrec.
  unfold Flowchart.isComplete. apply keeps_bind; [frame|]. intros c.
  pose proof (Flowchart_keeps_crumbs_started throwOnError (breadcrumbs c)) as Hcalls.
  destruct (Flowchart.crumbs_started _ _ _) as [calls whole]. simpl in Hcalls.
  destruct whole.
  - apply keeps_bind; [now apply keeps_promise_all | intros; frame].
  - apply keeps_bind; [|intros; frame].
    apply keeps_detached. now apply keeps_promise_all.
Qed.

Lemma Flowchart_quiet_methods_of : quiet (Flowchart.methods_of import_ readFlow rec).
Proof using Hrec.
  repeat split; simpl; intros.
  - apply Flowchart_keeps_conversation.
  - apply keeps_isReady.
  - apply Flowchart_keeps_isComplete.
  - apply Flowchart_keeps_findLoop.
  - apply keeps_out_of_fuel.
Qed.

End QuietFlowchart.

Lemma Flowchart_quiet_run {W} (import_ : importer W) readFlow fuel :
  quiet (Flowchart.run import_ readFlow fuel).
Proof.
  induction fuel; simpl; [apply quiet_no_fuel | now apply Flowchart_quiet_methods_of].
Qed.

(** ** Starting on a given step *)

Section Starting.

Context {W : Type}.
Variable import_ : importer W.
Variable readFlow : string → res (Flow W).

Lemma newborn_lookup (props : ConversationProps W) flow (st : state W) :
  heap (newborn props flow st) !! length (heap st) = Some (infant props flow st).
Proof.
  unfold newborn. simpl.
  destruct (cp_observers props); simpl; apply list_lookup_middle; reflexivity.
Qed.

Lemma ConvFlow_conversation_born (rec : methods W) props flow (st : state W) :
  cp_flow props = Some flow →
  f_type flow = Some "conversation" →
  ConvFlow.conversation import_ rec props st =
    (settle (length (heap st))
       (ConvFlow.findStart import_ rec (length (heap st)) (cp_start props));;
     ret (length (heap st))) (newborn props flow st).
Proof.
  intros Hflow Htype. unfold ConvFlow.conversation, newborn.
  rewrite Hflow, Htype. simpl strict_eq. unfold infant.
  destruct (cp_observers props); reflexivity.
Qed.

Lemma Flowchart_conversation_born (rec : methods W) props flow type (st : state W) :
  truthy (cp_src props) = false →
  cp_flow props = Some flow →
  f_type flow = Some type →
  includes "flowchart" type = true →
  Flowchart.conversation import_ readFlow rec props st =
    (settle (length (heap st))
       (Flowchart.findStart import_ rec (length (heap st)) (cp_start props));;
     ret (length (heap st))) (newborn props flow st).
Proof.
  intros Hsrc Hflow Htype Hinc. unfold Flowchart.conversation, newborn.
  rewrite Hsrc, Hflow. unfold bind at 1. simpl.
  rewrite Htype, Hinc. unfold infant.
  destruct (cp_observers props); reflexivity.
Qed.

Lemma truthy_Some start : start ≠ "" → truthy (Some start) = true.
Proof.
  intros Hne. simpl. destruct (String.eqb_spec start ""); [contradiction|reflexivity].
Qed.

Lemma isReady_at this (c : Conversation W) s (st : state W) :
  heap st !! this = Some c → c_step c = Resolved (Some s) →
  isReady this st = (Ok true, st).
Proof.
  intros Hc Hs. unfold isReady.
  rewrite (bind_Ok _ _ _ _ _ (self_Ok _ _ _ Hc)), Hs. reflexivity.
Qed.

(** [findStart] with a start that resolves and is ready, in the revision
    over conversation flows. *)
Lemma ConvFlow_findStart_adopts (rec : methods W) this start s (c : Conversation W)
  (st st1 st2 : state W) :
  quiet rec →
  heap st !! this = Some c →
  c_gen c = GStart →
  start ≠ "" →
  ConvFlow.get import_ rec this (Some start) st = (Ok (Some s), st1) →
  hook_isReady rec (Some s) (update this (with_step Pending) st1) = (Ok true, st2) →
  ∃ r st',
    ConvFlow.findStart import_ rec this (Some start) st = (r, st') ∧
    (r = Ok (Some s) ∨ r = OutOfFuel) ∧
    (∃ c', heap st' !! this = Some c' ∧ c_step c' = Resolved (Some s)) ∧
    ((∀ st0, world st0 = world st2 →
             fst (hook_isComplete rec false false (Some s) st0) = Ok false) →
     r = Ok (Some s)).
Proof.
  intros Hq Hc Hgen Hne Hget Hready.
  unfold ConvFlow.findStart. rewrite truthy_Some by assumption.
  rewrite (bind_Ok _ _ _ _ _ Hget).
  unfold bind at 1, modify at 1.
  set (st1' := update this (with_step Pending) st1) in *.
  (* the conversation after [get] *)
  destruct (ConvFlow_keeps_get import_ rec Hq this (Some start) _ _ _ Hget this c Hc)
    as (c1 & Hc1 & _ & Hgen1 & _).
  destruct Hgen1 as [Hgen1 _]; [discriminate|].
  assert (Hc1' : heap st1' !! this = Some (with_step Pending c1))
    by (apply update_lookup; exact Hc1).
  (* the loop stops at once *)
  assert (Hloop : ConvFlow.findLoop import_ rec this 0 (Some s) st1' = (Ok (Some s), st2)).
  { unfold ConvFlow.findLoop. rewrite (bind_Ok _ _ _ _ _ (self_Ok _ _ _ Hc1')).
    rewrite bool_decide_eq_true_2 by eauto.
    change (true || ?b) with true. cbv iota.
    now rewrite (bind_Ok _ _ _ _ _ Hready). }
  rewrite (bind_Ok _ _ _ _ _ Hloop).
  destruct (keeps_hook_isReady None None rec (Some s) Hq _ _ _ Hready this _ Hc1')
    as (c2 & Hc2 & _ & Hgen2 & _).
  destruct Hgen2 as [Hgen2 _]; [discriminate|]. simpl in Hgen2.
  set (action := if strict_eq (Some (s_id s)) (Some start) then Some start else Some "start").
  rewrite (bind_Ok _ _ _ _ _ (notify_eq _ action (Some s) _ _ Hc2)).
  set (st3 := notified this action (Some s) c2 st2).
  destruct (notified_lookup this action (Some s) c2 c2 st2 Hc2) as [Hc3 Hw3].
  fold st3 in Hc3, Hw3.
  (* priming *)
  destruct (detached (ConvFlow.genNext import_ rec this None) st3)
    as [r4 st4] eqn:Hprime.
  assert (Hkept : kept_but (Some this) None st3 st4).
  { eapply (keeps_detached (Some this) None); [|exact Hprime].
    now apply ConvFlow_keeps_genNext. }
  destruct (Hkept this _ Hc3) as (c4 & Hc4 & _ & _ & Hstep4).
  assert (Hstep4' : c_step c4 = Resolved (Some s)) by (now rewrite Hstep4).
  assert (Hr4 : r4 = Ok tt ∨ r4 = OutOfFuel).
  { unfold detached in Hprime.
    destruct (ConvFlow.genNext import_ rec this None st3) as [[?|?| |] ?];
      injection Hprime as <- <-; auto. }
  unfold bind at 1. rewrite Hprime.
  destruct Hr4 as [-> | ->].
  - exists (Ok (Some s)), st4. split; [reflexivity|]. split; [now left|].
    split; [eauto|]. reflexivity.
  - exists OutOfFuel, st4. split; [reflexivity|]. split; [now right|].
    split; [eauto|]. intros Hinc. exfalso.
    (* with an incomplete step the generator suspends at once *)
    unfold detached, ConvFlow.genNext in Hprime.
    rewrite (bind_Ok _ _ _ _ _ (self_Ok _ _ _ Hc3)) in Hprime.
    simpl c_gen in Hprime. rewrite Hgen2, Hgen1, Hgen in Hprime.
    simpl c_step in Hprime. simpl await in Hprime.
    unfold generator_body in Hprime.
    rewrite (bind_Ok _ _ st3 st3 (Some s)) in Hprime by reflexivity.
    unfold ConvFlow.genLoop in Hprime.
    specialize (Hinc st3 Hw3).
    destruct (hook_isComplete rec false false (Some s) st3) as [rc st5] eqn:Hrc.
    simpl in Hinc. subst rc.
    rewrite (bind_Ok _ _ _ _ _ Hrc) in Hprime.
    unfold suspend, bind, modify in Hprime. discriminate.
Qed.

(** [findStart] with a start that names a vertex and resolves, in the
    revision over flowcharts: readiness is not asked for. *)
Lemma Flowchart_findStart_adopts (rec : methods W) this start s (c : Conversation W)
  (st st1 : state W) :
  quiet rec →
  heap st !! this = Some c →
  c_gen c = GStart →
  is_Some (lookup_vertex start (f_vertices (c_flow c))) →
  Flowchart.get import_ rec this (Some start) st = (Ok (Some s), st1) →
  ∃ st',
    Flowchart.findStart import_ rec this (Some start) st = (Ok (Some s), st') ∧
    ∃ c', heap st' !! this = Some c' ∧ c_step c' = Resolved (Some s).
Proof.
  intros Hq Hc Hgen Hin Hget.
  unfold Flowchart.findStart.
  rewrite (bind_Ok _ _ _ _ _ (self_Ok _ _ _ Hc)). simpl default.
  rewrite key_in_own by assumption.
  rewrite (bind_Ok _ _ _ _ _ Hget).
  destruct (Flowchart_keeps_get import_ rec Hq this (Some start) _ _ _ Hget this c Hc)
    as (c1 & Hc1 & _ & Hgen1 & _).
  destruct Hgen1 as [Hgen1 _]; [discriminate|].
  rewrite (bind_Ok _ _ _ _ _ (notify_eq _ (Some start) (Some s) _ _ Hc1)).
  set (st2 := notified this (Some start) (Some s) c1 st1).
  destruct (notified_lookup this (Some start) (Some s) c1 c1 st1 Hc1) as [Hc2 _].
  fold st2 in Hc2.
  assert (Hprime : Flowchart.genNext import_ rec this None st2
                   = (Ok (false, Some s), update this (with_gen (GYield s)) st2)).
  { unfold Flowchart.genNext. rewrite (bind_Ok _ _ _ _ _ (self_Ok _ _ _ Hc2)).
    simpl c_gen. rewrite Hgen1, Hgen. reflexivity. }
  unfold bind at 1, detached. rewrite Hprime.
  eexists. split; [reflexivity|].
  eexists. split; [apply (update_lookup this _ _ st2 Hc2) | reflexivity].
Qed.


End Starting.

(** ** No entry is ready *)

Section NoStart.

Context {W : Type}.
Variable import_ : importer W.

(** The loop of [findStart] runs through all the entries and gives up. *)
Lemma ConvFlow_findLoop_exhausts k0 this flow :
  lookup_vertex " " (f_vertices flow) = None →
  (∀ id, id ∈ f_starts flow → id ≠ "" ∧ never_ready import_ k0 this flow id) →
  ∀ fuel index step (st : state W) c,
    index ≤ length (f_starts flow) + 1 →
    (index = length (f_starts flow) + 1 → step = None) →
    k0 + (length (f_starts flow) + 2 - index) ≤ fuel →
    heap st !! this = Some c →
    c_flow c = flow →
    (∃ st2, hook_isReady (ConvFlow.run import_ (fuel - 1)) step st = (Ok false, st2)) →
    ∃ st', findLoop_ (ConvFlow.run import_ fuel) this index step st = (Ok None, st').
Proof.
  intros Hspace Hnever.
  induction fuel as [|fuel IH]; intros index step st c Hindex Hlast Hfuel Hc Hflow Hstep; [lia|].
  simpl findLoop_. replace (S fuel - 1) with fuel in Hstep by lia.
  unfold ConvFlow.findLoop. rewrite (bind_Ok _ _ _ _ _ (self_Ok _ _ _ Hc)), Hflow.
  destruct Hstep as (st2 & Hstep).
  destruct (bool_decide (is_Some step) || truthy (f_starts flow !! index)) eqn:Hgo.
  2: { apply orb_false_iff in Hgo as [Hnone _].
       apply bool_decide_eq_false in Hnone.
       destruct step; [exfalso; eauto|]. eexists. reflexivity. }
  rewrite (bind_Ok _ _ _ _ _ Hstep).
  destruct (keeps_hook_isReady None None _ step (ConvFlow_quiet_run import_ fuel) _ _ _ Hstep
              this c Hc) as (c2 & Hc2 & (Hflow2 & _) & _).
  rewrite Hflow in Hflow2.
  destruct (f_starts flow !! index) as [id|] eqn:Hentry.
  - (* an entry: it resolves, and is not ready *)
    assert (Hlt : index < length (f_starts flow)) by now apply lookup_lt_Some in Hentry.
    destruct (Hnever id) as [Hne Hid]; [eapply list_elem_of_lookup_2; eassumption|].
    destruct (Hid fuel (fuel - 1) st2 c2) as (s & st3 & st4 & Hget & Hready);
      [lia | lia | assumption | assumption |].
    simpl default. rewrite (bind_Ok _ _ _ _ _ Hget).
    destruct (ConvFlow_keeps_get import_ _ (ConvFlow_quiet_run import_ fuel) this (Some id)
                _ _ _ Hget this c2 Hc2) as (c3 & Hc3 & (Hflow3 & _) & _).
    apply (IH (S index) s st3 c3); try lia; eauto. congruence.
  - (* past the last entry: the step of the last one is left *)
    simpl default.
    assert (Hget : ConvFlow.get import_ (ConvFlow.run import_ fuel) this (Some " ") st2
                   = (Ok None, st2)).
    { unfold ConvFlow.get. rewrite (bind_Ok _ _ _ _ _ (self_Ok _ _ _ Hc2)).
      simpl. unfold key_in. now rewrite Hflow2, Hspace. }
    rewrite (bind_Ok _ _ _ _ _ Hget).
    assert (Hge : length (f_starts flow) ≤ index) by now apply lookup_ge_None in Hentry.
    destruct step as [s|]; [|discriminate].
    assert (index = length (f_starts flow)) as ->.
    { destruct (decide (index = length (f_starts flow) + 1)) as [->|]; [|lia].
      now specialize (Hlast eq_refl). }
    destruct fuel as [|fuel']; [lia|]. simpl findLoop_.
    unfold ConvFlow.findLoop. rewrite (bind_Ok _ _ _ _ _ (self_Ok _ _ _ Hc2)), Hflow2.
    rewrite lookup_ge_None_2 by lia. simpl. eexists. reflexivity.
Qed.


End NoStart.

(** ** Which successor comes next *)

Section Successors.

Context {W : Type}.
Variable import_ : importer W.
Variable readFlow : string → res (Flow W).
Variable rec : methods W.

Lemma hook_isReady_None (st st' : state W) b :
  hook_isReady rec None st = (Ok b, st') → b = false.
Proof. now intros [= <- _]. Qed.

(** In the revision over conversation flows the scan stops at the first
    candidate that is ready: the candidates declared before it have been asked
    and were not ready.  It ends with nothing when no candidate is ready. *)
Lemma ConvFlow_scan_takes_the_first_ready this edges (st st' : state W) next :
  ConvFlow.scan import_ rec this edges st = (Ok next, st') ↔
  match next with
  | Some s =>
      ∃ before e after st1 st2,
        edges = before ++ e :: after ∧
        passed_over (ConvFlow.get import_ rec this) (hook_isReady rec) before st st1 ∧
        ConvFlow.get import_ rec this (Some (e_end e)) st1 = (Ok (Some s), st2) ∧
        hook_isReady rec (Some s) st2 = (Ok true, st')
  | None =>
      passed_over (ConvFlow.get import_ rec this) (hook_isReady rec) edges st st'
  end.
Proof.
  revert st. induction edges as [|e edges IH]; intros st; simpl.
  - split.
    + intros [= <- <-]. constructor.
    + destruct next as [s|].
      * intros (before & e & after & _ & _ & Heq & _). now destruct before.
      * inversion 1. reflexivity.
  - split.
    + unfold bind at 1.
      destruct (ConvFlow.get import_ rec this (Some (e_end e)) st) as [[cand|?| |] st1] eqn:Hget;
        try discriminate.
      unfold bind at 1.
      destruct (hook_isReady rec cand st1) as [[[|]|?| |] st2] eqn:Hready; try discriminate.
      * intros [= <- <-]. destruct cand as [s|].
        -- exists [], e, edges, st, st1. repeat split; auto. constructor.
        -- now apply hook_isReady_None in Hready.
      * intros Hrest. apply IH in Hrest. destruct next as [s|].
        -- destruct Hrest as (before & e' & after & sta & stb & -> & Hpass & Hget' & Hready').
           exists (e :: before), e', after, sta, stb. repeat split; auto.
           econstructor; eassumption.
        -- econstructor; eassumption.
    + destruct next as [s|].
      * intros (before & e' & after & sta & stb & Heq & Hpass & Hget & Hready).
        destruct before as [|e0 before]; simpl in Heq; injection Heq as <- ->.
        -- inversion Hpass; subst.
           rewrite (bind_Ok _ _ _ _ _ Hget), (bind_Ok _ _ _ _ _ Hready). reflexivity.
        -- inversion Hpass as [|? ? ? st1 st2 ? cand Hget0 Hready0 Hpass0]; subst.
           rewrite (bind_Ok _ _ _ _ _ Hget0), (bind_Ok _ _ _ _ _ Hready0).
           apply IH. exists before, e', after, sta, stb. auto.
      * intros Hpass.
        inversion Hpass as [|? ? ? st1 st2 ? cand Hget0 Hready0 Hpass0]; subst.
        rewrite (bind_Ok _ _ _ _ _ Hget0), (bind_Ok _ _ _ _ _ Hready0).
        now apply IH.
Qed.

(** The generator moves on from a complete step, without a target: the
    step becomes a breadcrumb and the first ready successor is where the
    generator suspends next, when that successor is not complete itself. *)
Lemma ConvFlow_advance_to_the_first_ready fuel this (c : Conversation W) cur s
  (st st1 st2 st3 : state W) :
  heap st !! this = Some c →
  c_gen c = GYield cur →
  hook_isComplete (ConvFlow.run import_ (S fuel)) false false (Some cur) st = (Ok true, st1) →
  ConvFlow.scan import_ (ConvFlow.run import_ (S fuel)) this (a_to (s_edges cur))
    (update this (λ c, with_breadcrumbs (breadcrumbs c ++ [cur]) c) st1) = (Ok (Some s), st2) →
  hook_isComplete (ConvFlow.run import_ fuel) false false (Some s) st2 = (Ok false, st3) →
  ConvFlow.genNext import_ (ConvFlow.run import_ (S fuel)) this None st =
    (Ok (false, Some s), update this (with_gen (GYield s)) st3).
Proof.
  intros Hc Hgen Hdone Hscan Hnot.
  unfold ConvFlow.genNext. rewrite (bind_Ok _ _ _ _ _ (self_Ok _ _ _ Hc)), Hgen.
  unfold generator_body, ConvFlow.genLoop.
  rewrite (bind_Ok _ _ _ _ _ Hdone).
  unfold bind at 1, push_breadcrumb, modify at 1. simpl truthy. cbv iota.
  rewrite (bind_Ok _ _ _ _ _ Hscan).
  simpl genLoop_. unfold ConvFlow.genLoop.
  rewrite (bind_Ok _ _ _ _ _ Hnot). reflexivity.
Qed.

(** In the revision over flowcharts the scan runs to the end: a ready
    candidate declared last replaces whatever was found before it. *)
Lemma Flowchart_scan_takes_the_last_ready this edges e next s (st st1 st2 st3 : state W) found :
  Flowchart.scan import_ rec this edges next st = (Ok found, st1) →
  Flowchart.get import_ rec this (Some (e_end e)) st1 = (Ok (Some s), st2) →
  Flowchart.isReady_of rec (Some s) st2 = (Ok true, st3) →
  Flowchart.scan import_ rec this (edges ++ [e]) next st = (Ok (Some s), st3).
Proof.
  revert next st. induction edges as [|e0 edges IH]; intros next st Hscan Hget Hready; simpl in *.
  - injection Hscan as <- <-.
    now rewrite (bind_Ok _ _ _ _ _ Hget), (bind_Ok _ _ _ _ _ Hready).
  - unfold bind at 1 in Hscan. unfold bind at 1.
    destruct (Flowchart.get import_ rec this (Some (e_end e0)) st) as [[cand|?| |] sta];
      try discriminate.
    unfold bind at 1 in Hscan. unfold bind at 1.
    destruct (Flowchart.isReady_of rec cand sta) as [[ready|?| |] stb]; try discriminate.
    eapply IH; eassumption.
Qed.

End Successors.

(** ** Is the whole history complete? *)

Section History.

Context {W : Type}.
Variable import_ : importer W.
Variable rec : methods W.

Lemma promise_all_Ok {A} (ms : list (M W A)) (st st' : state W) rs :
  promise_all ms st = (Ok rs, st') ↔ all_answer ms st rs st'.
Proof.
  revert st rs. induction ms as [|m ms IH]; intros st rs; simpl.
  - split; [intros [= <- <-]; constructor | inversion 1; reflexivity].
  - split.
    + destruct (m st) as [r1 st1] eqn:Hm.
      destruct (promise_all ms st1) as [r2 st2] eqn:Hms.
      destruct r1 as [a|?| |]; destruct r2 as [l|?| |]; try discriminate.
      intros [= <- <-]. econstructor; [eassumption | now apply IH].
    + inversion 1 as [|? ? ? a st1 l ? Hm Hms]; subst.
      apply IH in Hms. now rewrite Hm, Hms.
Qed.

Lemma all_answer_length {A} (ms : list (M W A)) (st st' : state W) rs :
  all_answer ms st rs st' → length rs = length ms.
Proof. induction 1; simpl; congruence. Qed.

Lemma none_fails (passes : list bool) :
  negb (existsb negb passes) = true ↔ Forall (λ pass, pass = true) passes.
Proof.
  induction passes as [|[|] passes IH]; simpl.
  - split; [constructor | reflexivity].
  - rewrite IH. split; [now constructor | now inversion 1].
  - split; [discriminate | inversion 1; discriminate].
Qed.

(** In the revision over conversation flows, [isComplete] asks the current
    step and every breadcrumb anew, all of them, and answers true exactly
    when each of them answers true (a step without a hook or without the
    method counts for true). *)
Lemma ConvFlow_isComplete_asks_everyone this (c : Conversation W) current throwOnError
  (st st' : state W) b :
  heap st !! this = Some c →
  c_step c = Resolved current →
  ConvFlow.isComplete import_ rec this throwOnError st = (Ok b, st') ↔
  ∃ passes,
    all_answer (map (hook_isComplete rec true throwOnError)
                    (current :: map Some (breadcrumbs c))) st passes st' ∧
    length passes = S (length (breadcrumbs c)) ∧
    (b = true ↔ Forall (λ pass, pass = true) passes).
Proof.
  intros Hc Hstep. unfold ConvFlow.isComplete.
  assert (Hget : ConvFlow.get import_ rec this None st = (Ok current, st)).
  { unfold ConvFlow.get. rewrite (bind_Ok _ _ _ _ _ (self_Ok _ _ _ Hc)). simpl.
    now rewrite Hstep. }
  rewrite (bind_Ok _ _ _ _ _ Hget), (bind_Ok _ _ _ _ _ (self_Ok _ _ _ Hc)).
  unfold bind.
  destruct (promise_all _ st) as [[passes|?| |] st1] eqn:Hall; split;
    try discriminate;
    try (intros (passes' & Hans & _); apply promise_all_Ok in Hans; congruence).
  - intros [= <- <-]. exists passes. apply promise_all_Ok in Hall.
    split; [assumption|]. split.
    + apply all_answer_length in Hall. rewrite Hall, length_map. simpl.
      now rewrite length_map.
    + apply none_fails.
  - intros (passes' & Hans & _ & Hb). apply promise_all_Ok in Hans.
    rewrite Hall in Hans. injection Hans as <- <-. f_equal. f_equal.
    destruct b, (negb (existsb negb passes)) eqn:Hn; auto.
    + apply proj1 in Hb. specialize (Hb eq_refl). apply none_fails in Hb. congruence.
    + apply none_fails, Hb in Hn. discriminate.
Qed.

(** In the revision over flowcharts, [isComplete] answers true as soon as
    every breadcrumb has answered, whatever the answers. *)
Lemma Flowchart_isComplete_always_true this throwOnError (st st' : state W) b :
  Flowchart.isComplete rec this throwOnError st = (Ok b, st') → b = true.
Proof.
  unfold Flowchart.isComplete, bind, self.
  destruct (heap st !! this) as [c|]; [|discriminate].
  destruct (Flowchart.crumbs_started rec throwOnError (breadcrumbs c)) as [calls [|]].
  - destruct (promise_all calls st) as [[?|?| |] ?]; try discriminate. now intros [= <- _].
  - destruct (detached _ st) as [[?|?| |] ?]; discriminate.
Qed.

End History.

(** ** Resolving a subroutine *)

Section Subroutines.

Context {W : Type}.
Variable import_ : importer W.
Variable readFlow : string → res (Flow W).

Lemma ConvFlow_conversation_throws fuel props (st : state W) e :
  fst (conversation_ (ConvFlow.run import_ fuel) props st) = Throw e →
  e = GraphTypeMismatch.
Proof.
  destruct fuel as [|fuel]; [discriminate|]. simpl conversation_.
  unfold ConvFlow.conversation, bind.
  destruct (match cp_observers props with Some a => ret a | None => new_array end st)
    as [[observers|?| |] st1] eqn:Hobs;
    try (destruct (cp_observers props); discriminate).
  destruct (cp_flow props) as [flow|]; [|now intros [= <-]].
  destruct (strict_eq _ _); [|now intros [= <-]].
  simpl. destruct (settle _ _ _) as [[?|?| |] ?] eqn:Hsettle; try discriminate.
  pose proof (settle_outcome (length (heap st1))
                (ConvFlow.findStart import_ (ConvFlow.run import_ fuel) (length (heap st1))
                   (cp_start props))
                (set_heap (heap st1 ++ [{| c_flow := flow; c_gen := GStart;
                     c_observers := observers; c_parent := cp_conversation props;
                     c_step := Unset; breadcrumbs := [] |}]) st1)) as Hout.
  unfold allocate in Hsettle. simpl in Hsettle. rewrite Hsettle in Hout.
  simpl in Hout. destruct Hout; discriminate.
Qed.

Lemma Flowchart_conversation_throws fuel props (st : state W) e :
  cp_src props = None →
  fst (conversation_ (Flowchart.run import_ readFlow fuel) props st) = Throw e →
  e = GraphTypeMismatch.
Proof.
  intros Hsrc. destruct fuel as [|fuel]; [discriminate|]. simpl conversation_.
  unfold Flowchart.conversation. rewrite Hsrc. simpl truthy. cbv iota.
  unfold bind at 1. simpl. unfold bind at 1.
  destruct (match cp_observers props with Some a => ret a | None => new_array end st)
    as [[observers|?| |] st1] eqn:Hobs;
    try (destruct (cp_observers props); discriminate).
  destruct (cp_flow props) as [flow|]; [|now intros [= <-]].
  destruct (match f_type flow with Some _ => _ | None => _ end); [|now intros [= <-]].
  unfold bind. simpl. destruct (settle _ _ _) as [[?|?| |] ?] eqn:Hsettle; try discriminate.
  pose proof (settle_outcome (length (heap st1))
                (Flowchart.findStart import_ (Flowchart.run import_ readFlow fuel)
                   (length (heap st1)) (cp_start props))
                (set_heap (heap st1 ++ [{| c_flow := flow; c_gen := GStart;
                     c_observers := observers; c_parent := cp_conversation props;
                     c_step := Unset; breadcrumbs := [] |}]) st1)) as Hout.
  rewrite Hsettle in Hout. simpl in Hout. destruct Hout; discriminate.
Qed.

(** In the revision over flowcharts, resolving a subroutine fails with the
    missing-source error exactly when the vertex has neither a [src] nor a
    [flow]. *)
Lemma Flowchart_subroutine_needs_a_source fuel this (c : Conversation W) id v (st : state W) :
  heap st !! this = Some c →
  id ≠ "" →
  lookup_vertex id (f_vertices (c_flow c)) = Some v →
  v_type v = Some "subroutine" →
  fst (Flowchart.get import_ (Flowchart.run import_ readFlow fuel) this (Some id) st)
    = Throw (MissingSubroutineSource id) ↔
  truthy (p_src (v_props v)) = false ∧ p_flow (v_props v) = None.
Proof.
  intros Hc Hne Hv Htype. unfold Flowchart.get.
  rewrite (bind_Ok _ _ _ _ _ (self_Ok _ _ _ Hc)), truthy_Some by assumption.
  change (default "" (Some id)) with id. change (negb true) with false.
  cbv iota beta zeta. rewrite (key_in_lookup _ _ _ Hv), Hv, Htype.
  change (negb true) with false. cbv iota. simpl strict_eq. cbv iota.
  destruct (truthy (p_src (v_props v))) eqn:Hsrc; simpl negb; simpl andb.
  - split; [|intros [? _]; discriminate]. intros Hthrow. exfalso.
    unfold bind in Hthrow.
    destruct (conversation_ _ _ st) as [[?|e| |] ?] eqn:Hconv; try discriminate.
    simpl in Hthrow. injection Hthrow as ->.
    assert (H : MissingSubroutineSource id = GraphTypeMismatch)
      by (eapply (Flowchart_conversation_throws fuel _ st);
          [|rewrite Hconv; reflexivity]; reflexivity).
    discriminate.
  - destruct (p_flow (v_props v)) as [flow|] eqn:Hflow; simpl.
    + split; [|intros [_ ?]; discriminate]. intros Hthrow. exfalso.
      unfold bind in Hthrow.
      destruct (conversation_ _ _ st) as [[?|e| |] ?] eqn:Hconv; try discriminate.
      simpl in Hthrow. injection Hthrow as ->.
      assert (H : MissingSubroutineSource id = GraphTypeMismatch)
        by (eapply (Flowchart_conversation_throws fuel _ st);
            [|rewrite Hconv; reflexivity]; reflexivity).
      discriminate.
    + split; auto.
Qed.

(** In the revision over conversation flows, it fails with that error
    exactly when the vertex has no [flow], whatever its [src]. *)
Lemma ConvFlow_subroutine_needs_a_flow fuel this (c : Conversation W) id v (st : state W) :
  heap st !! this = Some c →
  id ≠ "" →
  lookup_vertex id (f_vertices (c_flow c)) = Some v →
  v_type v = Some "subroutine" →
  fst (ConvFlow.get import_ (ConvFlow.run import_ fuel) this (Some id) st)
    = Throw (MissingSubroutineSource id) ↔
  p_flow (v_props v) = None.
Proof.
  intros Hc Hne Hv Htype. unfold ConvFlow.get.
  rewrite (bind_Ok _ _ _ _ _ (self_Ok _ _ _ Hc)), truthy_Some by assumption.
  change (default "" (Some id)) with id. change (negb true) with false.
  cbv iota beta zeta. rewrite (key_in_lookup _ _ _ Hv), Hv, Htype.
  change (negb true) with false. cbv iota. simpl strict_eq. cbv iota.
  destruct (p_flow (v_props v)) as [flow|] eqn:Hflow; simpl.
  - split; [|discriminate]. intros Hthrow. exfalso.
    unfold bind in Hthrow.
    destruct (conversation_ _ _ st) as [[?|e| |] ?] eqn:Hconv; try discriminate.
    simpl in Hthrow. injection Hthrow as ->.
    assert (H : MissingSubroutineSource id = GraphTypeMismatch)
      by (eapply (ConvFlow_conversation_throws fuel _ st); rewrite Hconv; reflexivity).
    discriminate.
  - split; auto.
Qed.

End Subroutines.

(** ** The claims on concrete conversations *)

Section Concrete.

Import Scenario.

(** C1, where the code departs from it.  [start] has two successors, [a]
    declared first and [b] declared second, both ready.  Once [start] is
    complete, [continue()] lands on [b] in the revision over flowcharts: its
    scan has no way out of the loop, so the last ready successor wins.  The
    revision over conversation flows lands on [a], as claimed. *)
Theorem flowchart_walk_takes_the_last_ready_successor :
  let chart := set_world ["start"] (built B (two_ready "flowchart") None) in
  let conv := set_world ["start"] (built A (two_ready "conversation") None) in
  current_id 0 chart = Some "start" ∧
  id_of (continue_ B 0 None false chart) = Ok (Some "b") ∧
  current_id 0 conv = Some "start" ∧
  id_of (continue_ A 0 None false conv) = Ok (Some "a").
Proof. vm_compute. repeat split. Qed.

(** The scenario of the specification, on both revisions: with [skip] not
    ready and [next] ready, the walk lands on [next]. *)
Lemma walk_skips_the_unready_successor :
  id_of (continue_ A 0 None false
           (set_world ["start"] (built A (skip_next "conversation") None)))
    = Ok (Some "next") ∧
  id_of (continue_ B 0 None false
           (set_world ["start"] (built B (skip_next "flowchart") None)))
    = Ok (Some "next").
Proof. vm_compute. split; reflexivity. Qed.

(** C2, where the code departs from it.  The walk has gone past [start],
    which is now a breadcrumb; then the user takes [start] back, so that its
    hook answers [isComplete()] with no.  In the revision over flowcharts
    [isComplete()] still answers true: it looks at the array of answers, not
    at the answers.  The revision over conversation flows answers false. *)
Theorem flowchart_isComplete_ignores_the_answers :
  let chart := snd (continue_ B 0 None false
                      (set_world ["start"] (built B (two_ready "flowchart") None))) in
  let conv := snd (continue_ A 0 None false
                     (set_world ["start"] (built A (two_ready "conversation") None))) in
  crumbs 0 chart = ["start"] ∧
  done_in "start" [] = false ∧
  fst (isComplete_ B 0 false (set_world [] chart)) = Ok true ∧
  crumbs 0 conv = ["start"] ∧
  fst (isComplete_ A 0 false (set_world [] conv)) = Ok false.
Proof. vm_compute. repeat split. Qed.


(** C4, where the code departs from it.  The subroutine [sub] names a file
    and embeds no flow.  The revision over conversation flows only looks for
    the flow and fails with the missing-source error.  The revision over
    flowcharts lets the vertex through (and then fails on the type of the
    graph it has not loaded). *)
Theorem subroutine_with_only_a_src_has_no_source :
  (p_src <$> (v_props <$> lookup_vertex "sub" (f_vertices (sub_src "conversation"))))
    = Some (Some "./sub.json") ∧
  fst (ConvFlow.get no_import A 0 (Some "sub") (built A (sub_src "conversation") None))
    = Throw (MissingSubroutineSource "sub") ∧
  fst (Flowchart.get no_import B 0 (Some "sub") (built B (sub_src "flowchart") None))
    = Throw GraphTypeMismatch.
Proof. vm_compute. repeat split. Qed.

(** On a sub-conversation [continue()] asks the sub-conversation first: the
    conversation sits on [sub], which answers [isComplete()] with no, and
    [continue()] hands out [s1], the current step of the sub-conversation. *)
Lemma continue_hands_out_the_step_of_the_child :
  current_id 0 in_sub = Some "sub" ∧
  fst (isComplete_ A 1 false in_sub) = Ok false ∧
  id_of (continue_ A 0 None false in_sub) = Ok (Some "s1") ∧
  id_of (continue_ A 0 None false in_sub) ≠ Ok (current_id 0 in_sub) ∧
  crumbs 0 (snd (continue_ A 0 None false in_sub)) = crumbs 0 in_sub.
Proof. vm_compute. repeat split; discriminate. Qed.


(** C5, where the code departs from it.  Over [two_ready] the user has filled
    in [start], continued to [a], gone back and cleared [start] again:
    [start] is the current step, there is no breadcrumb, and [start] answers
    [isComplete()] with no.  In the revision over conversation flows
    [continue()] does not stay there: the generator is still suspended on
    [a], and the call hands out [a], makes it the current step and tells the
    observers ["continue"], with no breadcrumb for [start].  The revision
    over flowcharts resolves the current step again and stays on [start]. *)
Theorem continue_after_back_leaves_an_incomplete_step :
  let conv := gone_back A "conversation" in
  let chart := gone_back B "flowchart" in
  current 0 conv = Some (Resolved (Some start_step)) ∧
  crumbs 0 conv = [] ∧
  fst (hook_isComplete A false false (Some start_step) conv) = Ok false ∧
  id_of (continue_ A 0 None false conv) = Ok (Some "a") ∧
  current_id 0 (snd (continue_ A 0 None false conv)) = Some "a" ∧
  crumbs 0 (snd (continue_ A 0 None false conv)) = [] ∧
  heard (snd (continue_ A 0 None false conv))
    = heard conv ++ [(0, Some "continue", Some "a")] ∧
  current_id 0 chart = Some "start" ∧
  id_of (continue_ B 0 None false chart) = Ok (Some "start") ∧
  current_id 0 (snd (continue_ B 0 None false chart)) = Some "start".
Proof. vm_compute. repeat split. Qed.

(** Once a conversation has come to its end its generator is finished for
    good.  After [back()] the last step is the current step again, and the
    user clears it; [continue()] hands out nothing, tells the observers
    ["done"] once more and leaves the conversation without a current step,
    in both revisions. *)
Lemma continue_after_the_end_leaves_an_incomplete_step :
  let conv := back_from_the_end A "conversation" in
  let chart := back_from_the_end B "flowchart" in
  (current_id 0 conv = Some "a" ∧ done_in "a" (world conv) = false ∧
   id_of (continue_ A 0 None false conv) = Ok None ∧
   current 0 (snd (continue_ A 0 None false conv)) = Some (Resolved None) ∧
   heard (snd (continue_ A 0 None false conv)) = heard conv ++ [(0, Some "done", None)]) ∧
  (current_id 0 chart = Some "b" ∧ done_in "b" (world chart) = false ∧
   id_of (continue_ B 0 None false chart) = Ok None ∧
   current 0 (snd (continue_ B 0 None false chart)) = Some (Resolved None) ∧
   heard (snd (continue_ B 0 None false chart)) = heard chart ++ [(0, Some "done", None)]).
Proof. vm_compute. repeat split. Qed.


(** Moving into a subroutine builds its conversation, which starts on [s1]
    and tells nobody: the observers heard the ["start"] of the root, and
    nothing of the kind since. *)
Lemma only_the_root_is_heard_starting :
  (c_parent <$> heap in_sub !! 1) = Some (Some 0) ∧
  current_id 1 in_sub = Some "s1" ∧
  heard in_sub = [(0, Some "start", Some "start"); (0, Some "continue", Some "sub")].
Proof. vm_compute. repeat split. Qed.

(** The revision over flowcharts never asks an entry whether it is ready:
    it starts on the entry that is not, where the revision over conversation
    flows finds no starting point. *)
Lemma flowchart_starts_on_an_unready_entry :
  current_id 0 (built B unready_chart None) = Some "start" ∧
  heard (built B unready_chart None) = [(0, Some "start", Some "start")] ∧
  current 0 (built A unready_start None) = Some (Rejected NoStartFound).
Proof. vm_compute. repeat split. Qed.

End Concrete.

(** ** The theorems at work *)

Section AtWork.

Import Scenario.

Lemma construction_checks_the_graph_type_witness :
  (fst (conversation_ A (root barchart None) (initial [])) = Throw GraphTypeMismatch ∧
   heap (snd (conversation_ A (root barchart None) (initial []))) = []) ∧
  (fst (conversation_ A (root (two_ready "conversation") None) (initial [])) = Ok 0 ∨
   fst (conversation_ A (root (two_ready "conversation") None) (initial [])) = OutOfFuel) ∧
  (fst (conversation_ B (root barchart None) (initial [])) = Throw GraphTypeMismatch ∧
   heap (snd (conversation_ B (root barchart None) (initial []))) = []) ∧
  (fst (conversation_ B (root (two_ready "flowchart") None) (initial [])) = Ok 0 ∨
   fst (conversation_ B (root (two_ready "flowchart") None) (initial [])) = OutOfFuel).
Proof.
  destruct (construction_checks_the_graph_type no_import no_file 19
              (root barchart None) (initial [])) as (Hbar & _ & Hbar' & _).
  destruct (construction_checks_the_graph_type no_import no_file 19
              (root (two_ready "conversation") None) (initial [])) as (_ & Hconv & _).
  destruct (construction_checks_the_graph_type no_import no_file 19
              (root (two_ready "flowchart") None) (initial [])) as (_ & _ & _ & Hchart).
  split; [|split; [|split]].
  - apply Hbar. intros flow Hflow. injection Hflow as <-. discriminate.
  - apply Hconv. eexists. split; reflexivity.
  - apply Hbar'; [reflexivity|].
    intros flow type Hflow. injection Hflow as <-. intros Htype. injection Htype as <-.
    reflexivity.
  - apply Hchart; [reflexivity|]. eexists _, _. repeat split; reflexivity.
Defined.

Lemma nested_conversation_never_notifies_start_witness :
  let st := set_world ["start"] (built A (outer "conversation") None) in
  let run := continue_ A 0 None false st in
  ∃ ns, log (snd run) = log st ++ ns ∧
        ∀ n, n ∈ ns →
          (∀ c, heap (snd run) !! n_from n = Some c → is_Some (c_parent c) →
                n_action n ≠ Some "start") ∧
          (n_action n = Some "start" →
           ∃ c, heap (snd run) !! n_from n = Some c ∧ c_parent c = None).
Proof.
  intros st run.
  apply (nested_conversation_never_notifies_start no_import no_file 20
           (continue_ A 0 None false) st (fst run)).
  - left. apply asked_continue.
  - apply surjective_pairing.
Defined.


Lemma start_stays_incomplete : stays_incomplete start_step (λ w : W, w = []).
Proof.
  intros w ->. exists []. split; [|reflexivity].
  eexists _, _. repeat split; reflexivity.
Defined.

Lemma continue_waits_on_an_incomplete_step_witness :
  (let r := repeatedly (continue_ A 0 None false) 3
              (built A (two_ready "conversation") None) in
   fst r = [Ok (Some start_step); Ok (Some start_step); Ok (Some start_step)] ∧
   crumbs 0 (snd r) = [] ∧ current_id 0 (snd r) = Some "start") ∧
  (let r := repeatedly (continue_ B 0 None false) 3
              (built B (two_ready "flowchart") None) in
   fst r = [Ok (Some start_step); Ok (Some start_step); Ok (Some start_step)] ∧
   crumbs 0 (snd r) = [] ∧ current_id 0 (snd r) = Some "start").
Proof.
  split; intros r.
  - edestruct (continue_waits_on_an_incomplete_step no_import no_file 19 0)
      with (s := start_step) (I := λ w : W, w = []) (n := 3)
           (st := built A (two_ready "conversation") None)
      as (Hr & c' & Hc' & Hb' & Hs' & _).
    + vm_compute. reflexivity.
    + reflexivity.
    + reflexivity.
    + exact start_stays_incomplete.
    + reflexivity.
    + left. reflexivity.
    + split; [exact Hr|]. subst r.
      unfold crumbs, current_id, current, A, B in *. rewrite Hc'.
      cbn [fmap option_fmap option_map default from_option id].
      rewrite Hb', Hs'. split; reflexivity.
  - edestruct (continue_waits_on_an_incomplete_step no_import no_file 19 0)
      with (s := start_step) (I := λ w : W, w = []) (n := 3)
           (st := built B (two_ready "flowchart") None)
      as (Hr & c' & Hc' & Hb' & Hs' & _).
    + vm_compute. reflexivity.
    + reflexivity.
    + reflexivity.
    + exact start_stays_incomplete.
    + reflexivity.
    + right. reflexivity.
    + split; [exact Hr|]. subst r.
      unfold crumbs, current_id, current, A, B in *. rewrite Hc'.
      cbn [fmap option_fmap option_map default from_option id].
      rewrite Hb', Hs'. split; reflexivity.
Defined.


Lemma unready_start_never_ready :
  never_ready no_import 0 0 unready_start "start".
Proof.
  intros fuel fuel' st c _ _ Hc Hflow.
  eexists _, _, _. split.
  - unfold ConvFlow.get. rewrite (bind_Ok _ _ _ _ _ (self_Ok _ _ _ Hc)), Hflow.
    reflexivity.
  - reflexivity.
Defined.


Lemma unsubscribing_a_stranger_drops_the_last_observer_witness :
  let st := snd (subscribe_ A 0 8 (built A (two_ready "conversation") None)) in
  arrays st = [[7; 8]] ∧
  ∃ st', unsubscribe_ A 0 9 st = (Ok tt, st') ∧ arrays st' !! 0 = Some [7].
Proof.
  intros st. split; [reflexivity|].
  edestruct (unsubscribing_a_stranger_drops_the_last_observer no_import no_file 20 0)
    with (observers := [7; 8]) (observer := 9) (st := st)
    as (st' & k & dropped & Hrun & _ & _ & _ & _ & _ & Hroot).
  - vm_compute. reflexivity.
  - reflexivity.
  - discriminate.
  - intros Hin. repeat (apply elem_of_cons in Hin as [Hin|Hin]; [discriminate|]).
    now apply elem_of_nil in Hin.
  - intros i c p Hi Hp. destruct i as [|i]; [|discriminate].
    vm_compute in Hi. injection Hi as <-. discriminate.
  - lia.
  - left. reflexivity.
  - exists st'. split; [exact Hrun|]. apply Hroot. reflexivity.
Defined.

End AtWork.

(** * Further properties *)

(** ** The parser *)

Section Parsing.

Context {W : Type}.
Variable getDiagramFromText : string → Parser.failure + Parser.Diagram W.

Lemma parse_vertex_eq edges starts steps (entry : string * Parser.Node W) :
  Parser.parse_vertex edges (starts, steps) entry =
  (starts ++ (if is_entry_b edges entry then [entry.1] else []),
   steps ++ [transcoded edges entry]).
Proof.
  destruct entry as [id v]. unfold Parser.parse_vertex, is_entry_b, transcoded. simpl.
  destruct (strict_eq (Parser.nd_type v) (Some "stadium")); simpl;
    [destruct (length _ =? 0); simpl|]; now rewrite ?app_nil_r.
Qed.

Lemma parse_vertex_fold edges (vertices : list (string * Parser.Node W)) starts steps :
  fold_left (Parser.parse_vertex edges) vertices (starts, steps) =
  (starts ++ map fst (filter (λ entry, is_entry_b edges entry = true) vertices),
   steps ++ map (transcoded edges) vertices).
Proof.
  revert starts steps. induction vertices as [|entry vertices IH]; intros starts steps.
  - simpl. now rewrite !app_nil_r.
  - cbn [fold_left]. rewrite parse_vertex_eq, IH, filter_cons.
    destruct (is_entry_b edges entry); simpl.
    + destruct (decide (true = true)); [|congruence]. simpl. now rewrite <- !app_assoc.
    + destruct (decide (false = true)); [discriminate|]. now rewrite app_nil_r, <- app_assoc.
Qed.

Lemma parse_eq uml (d : Parser.Diagram W) :
  getDiagramFromText uml = inr d →
  includes "flowchart" (Parser.d_type d) = true →
  Parser.parse getDiagramFromText uml =
    inr {| Parser.pf_starts :=
             map fst (filter (λ entry, is_entry_b (Parser.d_edges d) entry = true)
                             (Parser.d_vertices d));
           Parser.pf_steps := map (transcoded (Parser.d_edges d)) (Parser.d_vertices d);
           Parser.pf_type := "conversation" |}.
Proof.
  intros Hd Htype. unfold Parser.parse. rewrite Hd, Htype. simpl.
  now rewrite parse_vertex_fold.
Qed.

Lemma is_entry_b_spec edges id (v : Parser.Node W) :
  is_entry_b edges (id, v) = true ↔ is_entry edges id v.
Proof.
  unfold is_entry_b, is_entry. simpl. rewrite andb_true_iff, strict_eq_Some, Nat.eqb_eq.
  apply and_iff_compat_l. rewrite length_zero_iff_nil. split.
  - intros Hnil e He Hend.
    assert (Hin : e ∈ filter (λ cur, e_end cur = id) edges)
      by (apply list_elem_of_filter; auto).
    rewrite Hnil in Hin. inversion Hin.
  - intros Hnone. destruct (filter _ edges) as [|e l] eqn:Hf; [reflexivity|].
    assert (Hin : e ∈ filter (λ cur, e_end cur = id) edges) by (rewrite Hf; left).
    apply list_elem_of_filter in Hin as [Hend He]. now destruct (Hnone e He).
Qed.

(** X1.  The entries that [parse] lists are the stadiums of the diagram at which
    no edge ends, all of them, in the order of the vertices. *)
Theorem parse_lists_the_entries uml (d : Parser.Diagram W) :
  getDiagramFromText uml = inr d →
  includes "flowchart" (Parser.d_type d) = true →
  ∃ flow,
    Parser.parse getDiagramFromText uml = inr flow ∧
    (∀ id, id ∈ Parser.pf_starts flow ↔
           ∃ v, (id, v) ∈ Parser.d_vertices d ∧ is_entry (Parser.d_edges d) id v) ∧
    sublist (Parser.pf_starts flow) (map fst (Parser.d_vertices d)).
Proof.
  intros Hd Htype. eexists. split; [apply (parse_eq uml d Hd Htype)|]. simpl. split.
  - intros id. rewrite list_elem_of_fmap. split.
    + intros ([id' v] & -> & Hin). apply list_elem_of_filter in Hin as [Hentry Hin].
      exists v. split; [assumption|]. now apply is_entry_b_spec.
    + intros (v & Hin & Hentry). exists (id, v). split; [reflexivity|].
      apply list_elem_of_filter. split; [|assumption]. now apply is_entry_b_spec.
  - apply (fmap_sublist fst), sublist_filter.
Qed.


Variable import_ : importer W.
Variable readFlow : string → res (Flow W).

Lemma chart_parse_eq uml (d : Parser.Diagram W) :
  getDiagramFromText uml = inr d →
  includes "flowchart" (Parser.d_type d) = true →
  ChartParser.parse getDiagramFromText uml =
    inr (mkFlow (Some (Parser.d_type d)) [] (Parser.d_edges d)
                (map (λ '(id, vertex), (id, ChartParser.as_vertex vertex))
                     (Parser.d_vertices d))).
Proof. intros Hd Htype. unfold ChartParser.parse. now rewrite Hd, Htype. Qed.

(** A vertex is looked up alike in the steps of [parse] and in the vertices
    of the older parser. *)
Lemma lookup_transcoded id edges (vertices : list (string * Parser.Node W)) :
  lookup_vertex id (map (λ '(id, step), (id, Parser.as_vertex step))
                        (map (transcoded edges) vertices)) =
  (λ v, mkVertex (v_type v) (Flowchart.adjacent id edges) (v_props v)) <$>
  lookup_vertex id (map (λ '(id, vertex), (id, ChartParser.as_vertex vertex)) vertices).
Proof.
  induction vertices as [|[k v] vertices IH]; [reflexivity|]. simpl.
  destruct (String.eqb k id) eqn:Hk; [|exact IH].
  apply String.eqb_eq in Hk as ->. reflexivity.
Qed.

#[local] Ltac alike :=
  split; [reflexivity|]; split; [first [assumption | reflexivity]|];
  split; [reflexivity|]; split; [reflexivity|];
  let s := fresh "s" in let Hs := fresh "Hs" in
  intros s Hs; simpl in Hs; try discriminate Hs; injection Hs as <-; split; reflexivity.

(** X2.  The two revisions resolve a step alike.  The revision over conversation
    flows, on the flow that [parse] makes of a diagram, and the revision
    over flowcharts, on the flow that the older parser makes of it, resolve a
    vertex that is no subroutine to the same step: the same id, the same
    hook, and the same edges, which the one has from the parser and the other
    works out of the list of all edges.  Both ask the module in the same
    world and leave the same world, and neither touches a conversation. *)
Theorem both_revisions_resolve_a_step_alike
  uml (d : Parser.Diagram W) recA recB a b (ca cb : Conversation W) flow chart id
  (sta stb : state W) :
  getDiagramFromText uml = inr d →
  Parser.parse getDiagramFromText uml = inr flow →
  ChartParser.parse getDiagramFromText uml = inr chart →
  heap sta !! a = Some ca → c_flow ca = Parser.as_flow flow →
  heap stb !! b = Some cb → c_flow cb = chart →
  world sta = world stb →
  id ≠ "" →
  (∀ v, lookup_vertex id (f_vertices chart) = Some v → v_type v ≠ Some "subroutine") →
  let ra := ConvFlow.get import_ recA a (Some id) sta in
  let rb := Flowchart.get import_ recB b (Some id) stb in
  fst ra = fst rb ∧
  world (snd ra) = world (snd rb) ∧
  heap (snd ra) = heap sta ∧ heap (snd rb) = heap stb ∧
  (∀ s, fst ra = Ok (Some s) →
        s_id s = id ∧ s_edges s = Flowchart.adjacent id (Parser.d_edges d)).
Proof.
  intros Hd Hflow Hchart Ha Hfa Hb Hfb Hw Hid Hsub.
  assert (Htype : includes "flowchart" (Parser.d_type d) = true).
  { unfold Parser.parse in Hflow. rewrite Hd in Hflow.
    destruct (includes "flowchart" (Parser.d_type d)); [reflexivity | discriminate]. }
  rewrite (parse_eq uml d Hd Htype) in Hflow. injection Hflow as <-.
  rewrite (chart_parse_eq uml d Hd Htype) in Hchart. injection Hchart as <-.
  intros ra rb. subst ra rb. unfold ConvFlow.get, Flowchart.get.
  rewrite (bind_Ok _ _ _ _ _ (self_Ok _ _ _ Ha)), (bind_Ok _ _ _ _ _ (self_Ok _ _ _ Hb)).
  rewrite truthy_Some by assumption. simpl negb. cbv iota.
  change (default "" (Some id)) with id.
  rewrite Hfa, Hfb in *. unfold Parser.as_flow.
  cbn [f_vertices f_edges Parser.pf_steps] in *.
  unfold key_in. rewrite lookup_transcoded.
  set (odd := existsb (String.eqb id) inherited).
  destruct (lookup_vertex id _) as [v|] eqn:Hv; simpl.
  2:{ destruct odd; simpl; alike. }
  specialize (Hsub v eq_refl).
  apply strict_eq_Some_false in Hsub. rewrite Hsub.
  destruct (p_module (v_props v)) as [|f|path]; simpl.
  - unfold bind, ret. simpl. alike.
  - unfold bind, call, ret. rewrite Hw.
    destruct (f (world stb)) as [[h|e| |] w]; simpl; alike.
  - destruct (import_ path _) as [[step|]|e| |]; simpl;
      try (unfold bind, ret, throw, hang, out_of_fuel; simpl; alike).
    unfold bind, call, ret. rewrite Hw.
    destruct (step (world stb)) as [[h|e| |] w]; simpl; alike.
Qed.


(** X3.  A flowchart without an entry makes a conversation that cannot start.
    Whatever [parse] returns is a flow that the constructor takes; when the
    diagram has no stadium free of incoming edges and no start is named,
    the conversation is built, its current step is the rejection
    'Could not find a starting point.', and [isReady()] rejects with it. *)
Theorem a_flowchart_without_entry_cannot_start
  uml (d : Parser.Diagram W) fuel (props : ConversationProps W) (st : state W) :
  getDiagramFromText uml = inr d →
  includes "flowchart" (Parser.d_type d) = true →
  (∀ id v, (id, v) ∈ Parser.d_vertices d → ¬ is_entry (Parser.d_edges d) id v) →
  truthy (cp_start props) = false →
  ∃ flow,
    Parser.parse getDiagramFromText uml = inr flow ∧
    (cp_flow props = Some (Parser.as_flow flow) →
     let this := length (heap st) in
     let r := conversation_ (ConvFlow.run import_ (S (S fuel))) props st in
     fst r = Ok this ∧
     (∃ c, heap (snd r) !! this = Some c ∧ c_step c = Rejected NoStartFound) ∧
     fst (isReady_ (ConvFlow.run import_ (S fuel)) this (snd r)) = Throw NoStartFound).
Proof.
  intros Hd Htype Hnone Hstart. eexists. split; [apply (parse_eq uml d Hd Htype)|].
  intros Hflow this r.
  assert (Hstarts : filter (λ entry, is_entry_b (Parser.d_edges d) entry = true)
                           (Parser.d_vertices d) = []).
  { destruct (filter _ _) as [|[id v] l] eqn:Hf; [reflexivity|].
    assert (Hin : (id, v) ∈ filter (λ entry, is_entry_b (Parser.d_edges d) entry = true)
                                  (Parser.d_vertices d)) by (rewrite Hf; left).
    apply list_elem_of_filter in Hin as [Hentry Hin].
    apply is_entry_b_spec in Hentry. now destruct (Hnone id v). }
  subst r. simpl conversation_.
  rewrite (ConvFlow_conversation_born import_ _ props _ st Hflow eq_refl).
  set (flow := Parser.as_flow _) in *.
  pose proof (newborn_lookup props flow st) as Hborn.
  set (st0 := newborn props flow st) in *. fold this in Hborn |- *.
  set (c0 := infant props flow st) in *.
  set (st1 := update this (with_step Pending) st0).
  assert (Hc1 : heap st1 !! this = Some (with_step Pending c0))
    by now apply update_lookup.
  assert (Hloop : ∀ rec, ConvFlow.findLoop import_ rec this 0 None st1 = (Ok None, st1)).
  { intros rec. unfold ConvFlow.findLoop. rewrite (bind_Ok _ _ _ _ _ (self_Ok _ _ _ Hc1)).
    simpl c_flow. unfold flow, Parser.as_flow. simpl. rewrite Hstarts. reflexivity. }
  assert (Hfind : ∀ rec, ConvFlow.findStart import_ rec this (cp_start props) st0
                         = (Throw NoStartFound, st1)).
  { intros rec. unfold ConvFlow.findStart. rewrite Hstart.
    rewrite (bind_Ok _ _ st0 st0 None) by reflexivity.
    rewrite (bind_Ok _ _ st0 st1 tt) by reflexivity.
    now rewrite (bind_Ok _ _ _ _ _ (Hloop rec)). }
  set (st2 := update this (with_step (Rejected NoStartFound)) st1).
  assert (Hrun : ∀ rec, (settle this (ConvFlow.findStart import_ rec this (cp_start props));;
                         ret this) st0 = (Ok this, st2)).
  { intros rec. unfold bind, settle. now rewrite Hfind. }
  rewrite Hrun. simpl.
  assert (Hc2 : heap st2 !! this
                = Some (with_step (Rejected NoStartFound) (with_step Pending c0)))
    by now apply update_lookup.
  split; [reflexivity|]. split; [eexists; split; [exact Hc2 | reflexivity]|].
  unfold isReady. now rewrite (bind_Ok _ _ _ _ _ (self_Ok _ _ _ Hc2)).
Qed.

End Parsing.

Section FromFile.

Context {W : Type}.
Variable getDiagramFromText : string → Parser.failure + Parser.Diagram W.
Variable readFile : string → Parser.failure + string.
Variable json_path : string → option string → string.

#[local] Abbreviation fromFile := (Parser.fromFile getDiagramFromText readFile json_path).

(** X4.  [fromFile] is [parse] with sources.  It fails where reading the file
    or [parse] fails, with the same failure.  Otherwise it returns the flow
    of [parse] with the same entries, type and steps, in the same order,
    and every step as it was but for [props.src]: a subroutine with a link
    gets the path of the link with the extension [.json] (in [dir], when a
    non-empty [dir] is given), and every other step keeps the [src] it had.
    The subroutines without a link are the steps warned about. *)
Theorem fromFile_only_adds_sources src dir uml :
  readFile src = inr uml →
  match Parser.parse getDiagramFromText uml with
  | inl e => fromFile src dir = inl e
  | inr flow =>
      ∃ out warned,
        fromFile src dir = inr (out, warned) ∧
        Parser.pf_starts out = Parser.pf_starts flow ∧
        Parser.pf_type out = Parser.pf_type flow ∧
        Forall2 (λ before after,
                   after.1 = before.1 ∧
                   same_but_src before.2 after.2 ∧
                   p_src (Parser.fs_props after.2) =
                     if needs_source before.2
                     then Some (json_path (default "" (Parser.fs_link before.2))
                                          (if truthy dir then dir else None))
                     else p_src (Parser.fs_props before.2))
                (Parser.pf_steps flow) (Parser.pf_steps out) ∧
        (∀ id, id ∈ warned ↔
               ∃ step, (id, step) ∈ Parser.pf_steps flow ∧
                       Parser.fs_type step = Some "subroutine" ∧
                       truthy (Parser.fs_link step) = false)
  end.
Proof.
  intros Hread. unfold Parser.fromFile. rewrite Hread.
  destruct (Parser.parse getDiagramFromText uml) as [e|flow]; [reflexivity|].
  eexists _, _. split; [reflexivity|]. simpl.
  split; [reflexivity|]. split; [reflexivity|]. split.
  - induction (Parser.pf_steps flow) as [|[id step] steps IH]; simpl; constructor;
      [|exact IH].
    unfold Parser.locate, needs_source, same_but_src. simpl.
    destruct (strict_eq (Parser.fs_type step) (Some "subroutine")); simpl;
      [destruct (truthy (Parser.fs_link step)); simpl|]; repeat split.
  - intros id. rewrite list_elem_of_fmap. split.
    + intros ([id' step] & -> & Hin). apply list_elem_of_filter in Hin as [Hwarn Hin].
      exists step. split; [assumption|]. unfold Parser.locate in Hwarn.
      destruct (strict_eq (Parser.fs_type step) (Some "subroutine")) eqn:Hsub;
        simpl in Hwarn; [|discriminate].
      apply strict_eq_Some in Hsub. split; [assumption|].
      destruct (truthy (Parser.fs_link step)); [discriminate | reflexivity].
    + intros (step & Hin & Hsub & Hlink). exists (id, step). split; [reflexivity|].
      apply list_elem_of_filter. split; [|assumption].
      unfold Parser.locate. apply strict_eq_Some in Hsub. now rewrite Hsub, Hlink.
Qed.

End FromFile.

(** ** Observers *)

Section Observers.

Context {W : Type}.
Variable import_ : importer W.
Variable readFlow : string → res (Flow W).

Lemma findIndex_first (observer : nat) (before after : list nat) :
  observer ∉ before →
  findIndex (λ itm, Nat.eqb itm observer) (before ++ observer :: after)
  = Z.of_nat (length before).
Proof.
  induction before as [|x before IH]; intros Hnot; simpl.
  - now rewrite Nat.eqb_refl.
  - apply not_elem_of_cons in Hnot as [Hx Hnot].
    apply not_eq_sym, Nat.eqb_neq in Hx. rewrite Hx, (IH Hnot).
    destruct (Z.ltb_spec (Z.of_nat (length before)) 0); lia.
Qed.

Lemma splice_one {A} (before after : list A) x :
  splice (Z.of_nat (length before)) 1 (before ++ x :: after) = before ++ after.
Proof.
  unfold splice.
  destruct (Z.ltb_spec (Z.of_nat (length before)) 0); [lia|].
  rewrite length_app. simpl.
  replace (Z.to_nat (Z.min _ _)) with (length before) by lia.
  rewrite take_app_length. f_equal.
  rewrite drop_app_ge by lia.
  now replace (length before + 1 - length before) with 1 by lia.
Qed.

Lemma nested_on_heap (st st' : state W) a this k :
  heap st' = heap st → nested_on st a this k → nested_on st' a this k.
Proof.
  intros Hheap. induction 1 as [this c Hc Ha Hp | this c p k Hc Ha Hp _ IH].
  - eapply nested_root; eauto. now rewrite Hheap.
  - eapply nested_child; eauto. now rewrite Hheap.
Qed.

(** Subscribing through a chain of conversations that share an array. *)
Lemma subscribe_chain (R : nat → methods W) observer a :
  (∀ n, subscribe_ (R (S n)) = subscribe (R n)) →
  ∀ k fuel this (st : state W) l,
    nested_on st a this k → k < fuel →
    arrays st !! a = Some l →
    subscribe_ (R fuel) this observer st =
      (Ok tt, set_arrays (<[a := l ++ replicate (S k) observer]> (arrays st)) st).
Proof.
  intros HR k. induction k as [|k IH]; intros fuel this st l Hnest Hfuel Ha;
    (destruct fuel as [|fuel]; [lia|]); rewrite HR; unfold subscribe;
    inversion Hnest as [? c Hc Hobs Hp | ? c p ? Hc Hobs Hp Hup]; subst;
    rewrite (bind_Ok _ _ _ _ _ (self_Ok _ _ _ Hc));
    unfold bind at 1, modify_array at 1; rewrite Ha, Hp.
  - reflexivity.
  - set (st1 := set_arrays _ st).
    rewrite (IH fuel p st1 (l ++ [observer])).
    + unfold st1. simpl. rewrite list_insert_insert_eq.
      now rewrite <- app_assoc.
    + now apply (nested_on_heap st).
    + lia.
    + unfold st1. simpl. apply list_lookup_insert_eq. now apply lookup_lt_Some in Ha.
Qed.

(** Unsubscribing through the same chain, when the observer is in the
    array. *)
Lemma unsubscribe_present_chain (R : nat → methods W) observer a :
  (∀ n, unsubscribe_ (R (S n)) = unsubscribe (R n)) →
  ∀ k fuel this (st : state W) l n,
    nested_on st a this k → k < fuel →
    observer ∉ l →
    arrays st !! a = Some (l ++ replicate (S k + n) observer) →
    unsubscribe_ (R fuel) this observer st =
      (Ok tt, set_arrays (<[a := l ++ replicate n observer]> (arrays st)) st).
Proof.
  intros HR k. induction k as [|k IH]; intros fuel this st l n Hnest Hfuel Hnot Ha;
    (destruct fuel as [|fuel]; [lia|]); rewrite HR; unfold unsubscribe;
    inversion Hnest as [? c Hc Hobs Hp | ? c p ? Hc Hobs Hp Hup]; subst;
    rewrite (bind_Ok _ _ _ _ _ (self_Ok _ _ _ Hc));
    unfold bind at 1, modify_array at 1; rewrite Ha, Hp;
    cbn [replicate Nat.add]; rewrite (findIndex_first _ _ _ Hnot), splice_one.
  - reflexivity.
  - set (st1 := set_arrays _ st).
    rewrite (IH fuel p st1 l n).
    + unfold st1. simpl. now rewrite list_insert_insert_eq.
    + now apply (nested_on_heap st).
    + lia.
    + assumption.
    + unfold st1. simpl. apply list_lookup_insert_eq. now apply lookup_lt_Some in Ha.
Qed.


(** X5.  Unsubscribing an observer that is in the list of a conversation without
    a parent takes its first registration out, and nothing else: the
    observers before and after it stay, in their order, and a later
    registration of the same observer stays too. *)
Theorem unsubscribe_removes_the_first_registration
  fuel this (c : Conversation W) before after observer (st : state W) :
  heap st !! this = Some c →
  c_parent c = None →
  arrays st !! c_observers c = Some (before ++ observer :: after) →
  observer ∉ before →
  ∀ unsubscribe_of,
    unsubscribe_of = unsubscribe_ (ConvFlow.run import_ (S fuel)) ∨
    unsubscribe_of = unsubscribe_ (Flowchart.run import_ readFlow (S fuel)) →
    unsubscribe_of this observer st =
      (Ok tt, set_arrays (<[c_observers c := before ++ after]> (arrays st)) st).
Proof.
  intros Hc Hp Ha Hnot unsubscribe_of [-> | ->]; simpl; unfold unsubscribe;
    rewrite (bind_Ok _ _ _ _ _ (self_Ok _ _ _ Hc));
    unfold bind at 1, modify_array at 1;
    now rewrite Ha, Hp, (findIndex_first _ _ _ Hnot), splice_one.
Qed.

(** X6.  Subscribing to a conversation registers the observer with the
    conversation and with each of its ancestors.  When they share the
    observer array, as a sub-conversation and its parents do, the observer
    is appended once per level: [k + 1] times for a conversation nested [k]
    deep.  Nothing else changes. *)
Theorem subscribe_registers_once_per_level
  fuel this a k observers observer (st : state W) :
  nested_on st a this k →
  arrays st !! a = Some observers →
  k < fuel →
  ∀ subscribe_of,
    subscribe_of = subscribe_ (ConvFlow.run import_ fuel) ∨
    subscribe_of = subscribe_ (Flowchart.run import_ readFlow fuel) →
    subscribe_of this observer st =
      (Ok tt, set_arrays (<[a := observers ++ replicate (S k) observer]> (arrays st)) st).
Proof.
  intros Hnest Ha Hfuel subscribe_of [-> | ->].
  - now apply (subscribe_chain (ConvFlow.run import_)) with (k := k).
  - now apply (subscribe_chain (Flowchart.run import_ readFlow)) with (k := k).
Qed.

(** X7.  Subscribing an observer that was not in the list and unsubscribing it
    again leaves the store as it was, however deep the conversation is
    nested: every registration that [subscribe] makes along the parents is
    taken back. *)
Theorem subscribe_then_unsubscribe_restores
  fuel this a k observers observer (st : state W) :
  nested_on st a this k →
  arrays st !! a = Some observers →
  observer ∉ observers →
  k < fuel →
  (subscribe_ (ConvFlow.run import_ fuel) this observer;;
   unsubscribe_ (ConvFlow.run import_ fuel) this observer) st = (Ok tt, st) ∧
  (subscribe_ (Flowchart.run import_ readFlow fuel) this observer;;
   unsubscribe_ (Flowchart.run import_ readFlow fuel) this observer) st = (Ok tt, st).
Proof.
  intros Hnest Ha Hnot Hfuel.
  set (st1 := set_arrays (<[a := observers ++ replicate (S k) observer]> (arrays st)) st).
  assert (Hnest1 : nested_on st1 a this k) by now apply (nested_on_heap st).
  assert (Ha1 : arrays st1 !! a = Some (observers ++ replicate (S k + 0) observer)).
  { unfold st1. simpl. rewrite Nat.add_0_r.
    apply list_lookup_insert_eq. now apply lookup_lt_Some in Ha. }
  assert (Hback : set_arrays (<[a := observers ++ replicate 0 observer]> (arrays st1)) st1 = st).
  { unfold st1, set_arrays. destruct st as [w lg h arr]. simpl in *. f_equal.
    now rewrite list_insert_insert_eq, app_nil_r, list_insert_id. }
  split.
  - rewrite (bind_Ok _ _ st st1 tt)
      by now apply (subscribe_chain (ConvFlow.run import_)) with (k := k).
    rewrite (unsubscribe_present_chain (ConvFlow.run import_) observer a
               (λ _, eq_refl) k fuel this st1 observers 0) by assumption.
    now rewrite Hback.
  - rewrite (bind_Ok _ _ st st1 tt)
      by now apply (subscribe_chain (Flowchart.run import_ readFlow)) with (k := k).
    rewrite (unsubscribe_present_chain (Flowchart.run import_ readFlow) observer a
               (λ _, eq_refl) k fuel this st1 observers 0) by assumption.
    now rewrite Hback.
Qed.

End Observers.

(** ** Looking at a conversation *)

Section Looking.

Context {W : Type}.
Variable import_ : importer W.
Variable readFlow : string → res (Flow W).

Lemma same_store_refl (st : state W) : same_store st st.
Proof. repeat split. Qed.

Lemma same_store_trans (st1 st2 st3 : state W) :
  same_store st1 st2 → same_store st2 st3 → same_store st1 st3.
Proof. intros (? & ? & ?) (? & ? & ?). repeat split; congruence. Qed.

Lemma asks_ret {A} (a : A) : only_asks (ret a : M W A).
Proof. intros st r st' [= <- <-]. apply same_store_refl. Qed.

Lemma asks_throw {A} e : only_asks (throw e : M W A).
Proof. intros st r st' [= <- <-]. apply same_store_refl. Qed.

Lemma asks_hang {A} : only_asks (hang : M W A).
Proof. intros st r st' [= <- <-]. apply same_store_refl. Qed.

Lemma asks_out_of_fuel {A} : only_asks (out_of_fuel : M W A).
Proof. intros st r st' [= <- <-]. apply same_store_refl. Qed.

Lemma asks_bind {A B} (m : M W A) (f : A → M W B) :
  only_asks m → (∀ a, only_asks (f a)) → only_asks (let* a := m in f a).
Proof.
  intros Hm Hf st r st' Hrun. unfold bind in Hrun.
  destruct (m st) as [[a|e| |] st1] eqn:Hm1;
    try (injection Hrun as <- <-; eapply Hm; eassumption).
  eapply same_store_trans; [eapply Hm; eassumption | eapply Hf; eassumption].
Qed.

Lemma asks_self this : only_asks (self this : M W _).
Proof.
  intros st r st' Hrun. unfold self in Hrun.
  destruct (heap st !! this); injection Hrun as <- <-; apply same_store_refl.
Qed.

Lemma asks_await p : only_asks (await p : M W _).
Proof. destruct p; simpl; auto using asks_ret, asks_hang, asks_throw. Qed.

Lemma asks_call {A} (f : W → res A * W) : only_asks (call f).
Proof.
  intros st r st' Hrun. unfold call in Hrun.
  destruct (f (world st)). injection Hrun as <- <-. repeat split.
Qed.

Lemma asks_detached {A} (m : M W A) : only_asks m → only_asks (detached m).
Proof.
  intros Hm st r st' Hrun. unfold detached in Hrun.
  destruct (m st) as [[a|e| |] st1] eqn:Hm1; injection Hrun as <- <-;
    eapply Hm; eassumption.
Qed.

Lemma asks_promise_all {A} (ms : list (M W A)) :
  Forall only_asks ms → only_asks (promise_all ms).
Proof.
  induction 1 as [|m ms Hm _ IH]; intros st r st' Hrun; simpl in Hrun.
  - injection Hrun as <- <-. apply same_store_refl.
  - destruct (m st) as [r1 st1] eqn:Hm1.
    assert (H1 : same_store st st1) by (eapply Hm; eassumption).
    destruct (promise_all ms st1) as [rs st2] eqn:Hms.
    assert (H2 : same_store st1 st2) by (eapply IH; eassumption).
    assert (Hst : st' = st1 ∨ st' = st2).
    { destruct r1, rs; injection Hrun as <- <-; auto. }
    destruct Hst as [-> | ->]; [assumption | eapply same_store_trans; eassumption].
Qed.

Lemma asks_isReady this : only_asks (isReady this : M W bool).
Proof.
  unfold isReady. apply asks_bind; [apply asks_self|]. intros c.
  apply asks_bind; [apply asks_await | intros; apply asks_ret].
Qed.

Lemma asks_hook_isComplete (rec : methods W) missing throwOnError step :
  (∀ this t, only_asks (isComplete_ rec this t)) →
  only_asks (hook_isComplete rec missing throwOnError step).
Proof.
  intros Hrec. unfold hook_isComplete.
  destruct (step ≫= s_hook) as [[h|r]|]; [|apply Hrec|apply asks_ret].
  destruct (h_isComplete h); [apply asks_call | apply asks_ret].
Qed.

Lemma ConvFlow_asks_isComplete (rec : methods W) this throwOnError :
  (∀ this t, only_asks (isComplete_ rec this t)) →
  only_asks (ConvFlow.isComplete import_ rec this throwOnError).
Proof.
  intros Hrec. unfold ConvFlow.isComplete, ConvFlow.get.
  apply asks_bind.
  { apply asks_bind; [apply asks_self | intros c; apply asks_await]. }
  intros cur. apply asks_bind; [apply asks_self|]. intros c.
  apply asks_bind; [|intros; apply asks_ret].
  apply asks_promise_all, Forall_map, Forall_true. intros s.
  now apply asks_hook_isComplete.
Qed.

Lemma Flowchart_asks_crumbs_started (rec : methods W) throwOnError crumbs :
  (∀ this t, only_asks (isComplete_ rec this t)) →
  Forall only_asks (fst (Flowchart.crumbs_started rec throwOnError crumbs)).
Proof.
  intros Hrec. induction crumbs as [|cur crumbs IH]; simpl; [constructor|].
  destruct (s_hook cur) as [[h|r]|]; [| |constructor].
  - destruct (h_isComplete h); [|constructor].
    destruct (Flowchart.crumbs_started _ _ _). simpl in *.
    constructor; [apply asks_call | assumption].
  - destruct (Flowchart.crumbs_started _ _ _). simpl in *.
    constructor; [apply Hrec | assumption].
Qed.

Lemma Flowchart_asks_isComplete (rec : methods W) this throwOnError :
  (∀ this t, only_asks (isComplete_ rec this t)) →
  only_asks (Flowchart.isComplete rec this throwOnError).
Proof.
  intros Hrec. unfold Flowchart.isComplete. apply asks_bind; [apply asks_self|].
  intros c.
  pose proof (Flowchart_asks_crumbs_started rec throwOnError (breadcrumbs c) Hrec) as Hcalls.
  destruct (Flowchart.crumbs_started _ _ _) as [calls whole]. simpl in Hcalls.
  destruct whole.
  - apply asks_bind; [now apply asks_promise_all | intros; apply asks_ret].
  - apply asks_bind; [|intros; apply asks_throw].
    apply asks_detached. now apply asks_promise_all.
Qed.

Lemma ConvFlow_asks_run fuel this throwOnError :
  only_asks (isComplete_ (ConvFlow.run import_ fuel) this throwOnError).
Proof.
  revert this throwOnError. induction fuel as [|fuel IH]; intros this throwOnError; simpl.
  - apply asks_out_of_fuel.
  - now apply ConvFlow_asks_isComplete.
Qed.

Lemma Flowchart_asks_run fuel this throwOnError :
  only_asks (isComplete_ (Flowchart.run import_ readFlow fuel) this throwOnError).
Proof.
  revert this throwOnError. induction fuel as [|fuel IH]; intros this throwOnError; simpl.
  - apply asks_out_of_fuel.
  - now apply Flowchart_asks_isComplete.
Qed.

(** X8.  [isReady()] and [isComplete()] only look.  Whatever they answer, and
    however many nested conversations and step modules [isComplete()] asks
    on the way, no conversation has moved (current step, breadcrumbs and
    generator are as before), no conversation was built, no observer was
    called, and the observer lists are as they were: the only thing that
    may differ is the world of the step modules that were asked. *)
Theorem isReady_and_isComplete_only_look fuel (m : M W bool) (st : state W) r st' :
  looks (ConvFlow.run import_ fuel) m ∨ looks (Flowchart.run import_ readFlow fuel) m →
  m st = (r, st') →
  heap st' = heap st ∧ log st' = log st ∧ arrays st' = arrays st.
Proof.
  intros Hm Hrun.
  assert (Hasks : only_asks m); [|exact (Hasks _ _ _ Hrun)].
  destruct Hm as [Hm|Hm]; destruct Hm as [this|this throwOnError].
  - destruct fuel; [apply asks_out_of_fuel | apply asks_isReady].
  - apply ConvFlow_asks_run.
  - destruct fuel; [apply asks_out_of_fuel | apply asks_isReady].
  - apply Flowchart_asks_run.
Qed.

End Looking.

(** ** What stays of a conversation *)

Section Staying.

Context {W : Type}.
Variable import_ : importer W.
Variable readFlow : string → res (Flow W).

(** X9.  A conversation is for good, and so are its graph, its parent and its
    observer list.  Whatever a client asks of either revision, every
    conversation that was in the store is still there afterwards, under the
    same reference, over the same flow, with the same parent and the same
    observer array; the store of conversations only grows. *)
Theorem a_conversation_keeps_its_flow_parent_and_observers
  fuel {A} (m : M W A) (st : state W) r st' :
  asked (ConvFlow.run import_ fuel) m ∨ asked (Flowchart.run import_ readFlow fuel) m →
  m st = (r, st') →
  length (heap st) ≤ length (heap st') ∧
  ∀ i c, heap st !! i = Some c →
         ∃ c', heap st' !! i = Some c' ∧
               c_flow c' = c_flow c ∧ c_parent c' = c_parent c ∧
               c_observers c' = c_observers c.
Proof.
  intros Hm Hrun.
  assert (Htells : tells_as_root m).
  { destruct Hm as [Hm|Hm]; (eapply asked_tells_as_root; [|exact Hm]).
    - apply ConvFlow_all_tell_run.
    - apply Flowchart_all_tell_run. }
  destruct (Htells _ _ _ Hrun) as [Hheap _]. split; [|exact Hheap].
  destruct (heap st) as [|c0 h] eqn:Hh using rev_ind; [simpl; lia|].
  destruct (Hheap (length h) c0) as (c' & Hc' & _).
  - now apply list_lookup_middle.
  - apply lookup_lt_Some in Hc'. rewrite length_app. simpl. lia.
Qed.

Lemma nested_on_fixed (st st' : state W) a this k :
  (∀ i c, heap st !! i = Some c → ∃ c', heap st' !! i = Some c' ∧ same_fixed c c') →
  nested_on st a this k → nested_on st' a this k.
Proof.
  intros Hheap. induction 1 as [this c Hc Ha Hp | this c p k Hc Ha Hp _ IH];
    destruct (Hheap _ _ Hc) as (c' & Hc' & _ & Hp' & Ha').
  - eapply nested_root; [exact Hc' | now rewrite Ha' | now rewrite Hp'].
  - eapply nested_child; [exact Hc' | now rewrite Ha' | rewrite Hp'; exact Hp | exact IH].
Qed.

(** What [settle (findStart ...)] leaves of the conversation just built. *)
Lemma born_stays (m : M W nat) props flow (st : state W) r st' :
  tells_as_root m →
  m (newborn props flow st) = (r, st') →
  (∀ i c, heap st !! i = Some c → ∃ c', heap st' !! i = Some c' ∧ same_fixed c c') ∧
  ∃ child, heap st' !! length (heap st) = Some child ∧
           c_flow child = flow ∧ c_parent child = cp_conversation props ∧
           c_observers child = default (length (arrays st)) (cp_observers props).
Proof.
  intros Hm Hrun. destruct (Hm _ _ _ Hrun) as [Hheap _]. split.
  - intros i c Hc. apply Hheap. unfold newborn.
    destruct (cp_observers props); simpl; rewrite lookup_app_l;
      try assumption; now apply lookup_lt_Some in Hc.
  - destruct (Hheap _ _ (newborn_lookup props flow st)) as (child & Hchild & Hf & Hp & Ho).
    exists child. split; [exact Hchild|]. now rewrite Hf, Hp, Ho.
Qed.

Lemma ConvFlow_get_subroutine (rec : methods W) this (c : Conversation W) id v flow
  (st : state W) :
  heap st !! this = Some c →
  id ≠ "" →
  lookup_vertex id (f_vertices (c_flow c)) = Some v →
  v_type v = Some "subroutine" →
  p_flow (v_props v) = Some flow →
  ConvFlow.get import_ rec this (Some id) st =
    match conversation_ rec {| cp_conversation := Some this; cp_flow := Some flow;
                               cp_observers := Some (c_observers c);
                               cp_src := p_src (v_props v);
                               cp_start := p_start (v_props v) |} st with
    | (Ok child, st') =>
        (Ok (Some {| s_edges := v_edges v; s_hook := Some (Nested child); s_id := id |}), st')
    | (Throw e, st') => (Throw e, st')
    | (Hang, st') => (Hang, st')
    | (OutOfFuel, st') => (OutOfFuel, st')
    end.
Proof.
  intros Hc Hid Hv Hsub Hflow. unfold ConvFlow.get.
  rewrite (bind_Ok _ _ _ _ _ (self_Ok _ _ _ Hc)).
  rewrite truthy_Some by assumption. simpl.
  rewrite (key_in_lookup _ _ _ Hv), Hv, Hsub, Hflow. simpl. unfold bind.
  now destruct (conversation_ rec _ st) as [[?|?| |] ?].
Qed.

Lemma Flowchart_get_subroutine (rec : methods W) this (c : Conversation W) id v flow
  (st : state W) :
  heap st !! this = Some c →
  id ≠ "" →
  lookup_vertex id (f_vertices (c_flow c)) = Some v →
  v_type v = Some "subroutine" →
  p_flow (v_props v) = Some flow →
  Flowchart.get import_ rec this (Some id) st =
    match conversation_ rec {| cp_conversation := Some this; cp_flow := Some flow;
                               cp_observers := Some (c_observers c);
                               cp_src := None;
                               cp_start := p_start (v_props v) |} st with
    | (Ok child, st') =>
        (Ok (Some {| s_edges := Flowchart.adjacent id (f_edges (c_flow c));
                     s_hook := Some (Nested child); s_id := id |}), st')
    | (Throw e, st') => (Throw e, st')
    | (Hang, st') => (Hang, st')
    | (OutOfFuel, st') => (OutOfFuel, st')
    end.
Proof.
  intros Hc Hid Hv Hsub Hflow. unfold Flowchart.get.
  rewrite (bind_Ok _ _ _ _ _ (self_Ok _ _ _ Hc)).
  rewrite truthy_Some by assumption. simpl.
  rewrite (key_in_lookup _ _ _ Hv), Hv, Hsub, Hflow. simpl. rewrite andb_false_r. unfold bind.
  now destruct (conversation_ rec _ st) as [[?|?| |] ?].
Qed.

(** X10.  A sub-conversation is its parent's child and hears with its parent's
    observers.  Resolving a subroutine that embeds a flow builds a
    conversation over that flow, with the resolving conversation for
    parent and with the very observer array of the parent: whoever listens
    to the parent listens to the child, a conversation nested [k] deep
    gets a child nested [k + 1] deep, and every conversation that was there
    is still what it was.  The step that is returned has the child for
    hook. *)
Theorem a_subroutine_is_a_child_with_the_same_observers
  fuel this (c : Conversation W) id v flow a k (st : state W) :
  heap st !! this = Some c →
  id ≠ "" →
  lookup_vertex id (f_vertices (c_flow c)) = Some v →
  v_type v = Some "subroutine" →
  p_flow (v_props v) = Some flow →
  nested_on st a this k →
  let child := length (heap st) in
  (f_type flow = Some "conversation" →
   let r := ConvFlow.get import_ (ConvFlow.run import_ (S fuel)) this (Some id) st in
   (fst r = Ok (Some {| s_edges := v_edges v; s_hook := Some (Nested child); s_id := id |}) ∨
    fst r = OutOfFuel) ∧
   (∃ cc, heap (snd r) !! child = Some cc ∧ c_flow cc = flow ∧
          c_parent cc = Some this ∧ c_observers cc = c_observers c) ∧
   nested_on (snd r) a child (S k)) ∧
  ((∃ type, f_type flow = Some type ∧ includes "flowchart" type = true) →
   let r := Flowchart.get import_ (Flowchart.run import_ readFlow (S fuel)) this (Some id) st in
   (fst r = Ok (Some {| s_edges := Flowchart.adjacent id (f_edges (c_flow c));
                        s_hook := Some (Nested child); s_id := id |}) ∨
    fst r = OutOfFuel) ∧
   (∃ cc, heap (snd r) !! child = Some cc ∧ c_flow cc = flow ∧
          c_parent cc = Some this ∧ c_observers cc = c_observers c) ∧
   nested_on (snd r) a child (S k)).
Proof.
  intros Hc Hid Hv Hsub Hflow Hnest child.
  assert (Ha : c_observers c = a).
  { inversion Hnest; subst; congruence. }
  split.
  - intros Htype r. subst r.
    rewrite (ConvFlow_get_subroutine _ this c id v flow st Hc Hid Hv Hsub Hflow).
    set (props := {| cp_conversation := Some this; cp_flow := Some flow;
                     cp_observers := Some (c_observers c);
                     cp_src := p_src (v_props v); cp_start := p_start (v_props v) |}).
    simpl conversation_.
    rewrite (ConvFlow_conversation_born import_ _ props flow st eq_refl Htype).
    set (build := (settle _ _;; ret _)).
    destruct (build (newborn props flow st)) as [rb st'] eqn:Hbuild.
    assert (Htells : tells_as_root build).
    { unfold build. apply tells_bind; [|intros; apply tells_ret].
      apply tells_settle, ConvFlow_tells_findStart, ConvFlow_all_tell_run. }
    destruct (born_stays build props flow st rb st' Htells Hbuild)
      as (Hfixed & cc & Hcc & Hf & Hp & Ho).
    assert (Hrb : rb = Ok child ∨ rb = OutOfFuel).
    { unfold build, bind in Hbuild.
      destruct (settle_outcome child
                  (ConvFlow.findStart import_ (ConvFlow.run import_ fuel) child (cp_start props))
                  (newborn props flow st)) as [Hs|Hs];
        destruct (settle _ _ _) as [rs sts]; simpl in Hs; subst rs;
        injection Hbuild as <- <-; auto. }
    simpl in Hp, Ho.
    assert (Hnest' : nested_on st' a child (S k)).
    { eapply nested_child; [exact Hcc | now rewrite Ho | exact Hp |].
      now apply (nested_on_fixed st). }
    destruct Hrb as [-> | ->]; simpl; (split; [auto|]); (split; [|exact Hnest']);
      exists cc; auto.
  - intros (type & Htype & Hinc) r. subst r.
    rewrite (Flowchart_get_subroutine _ this c id v flow st Hc Hid Hv Hsub Hflow).
    set (props := {| cp_conversation := Some this; cp_flow := Some flow;
                     cp_observers := Some (c_observers c);
                     cp_src := None; cp_start := p_start (v_props v) |}).
    simpl conversation_.
    rewrite (Flowchart_conversation_born import_ readFlow _ props flow type st
               eq_refl eq_refl Htype Hinc).
    set (build := (settle _ _;; ret _)).
    destruct (build (newborn props flow st)) as [rb st'] eqn:Hbuild.
    assert (Htells : tells_as_root build).
    { unfold build. apply tells_bind; [|intros; apply tells_ret].
      apply tells_settle, Flowchart_tells_findStart, Flowchart_all_tell_run. }
    destruct (born_stays build props flow st rb st' Htells Hbuild)
      as (Hfixed & cc & Hcc & Hf & Hp & Ho).
    assert (Hrb : rb = Ok child ∨ rb = OutOfFuel).
    { unfold build, bind in Hbuild.
      destruct (settle_outcome child
                  (Flowchart.findStart import_ (Flowchart.run import_ readFlow fuel) child
                     (cp_start props))
                  (newborn props flow st)) as [Hs|Hs];
        destruct (settle _ _ _) as [rs sts]; simpl in Hs; subst rs;
        injection Hbuild as <- <-; auto. }
    simpl in Hp, Ho.
    assert (Hnest' : nested_on st' a child (S k)).
    { eapply nested_child; [exact Hcc | now rewrite Ho | exact Hp |].
      now apply (nested_on_fixed st). }
    destruct Hrb as [-> | ->]; simpl; (split; [auto|]); (split; [|exact Hnest']);
      exists cc; auto.
Qed.

End Staying.

(** ** Continuing to a named step *)

Section Targets.

Context {W : Type}.
Variable import_ : importer W.
Variable readFlow : string → res (Flow W).

Lemma heap_update this (f : Conversation W → Conversation W) c (st : state W) :
  heap st !! this = Some c → heap (update this f st) = <[this := f c]> (heap st).
Proof. intros Hc. unfold update. now rewrite Hc. Qed.

Lemma log_update this (f : Conversation W → Conversation W) (st : state W) :
  log (update this f st) = log st.
Proof. unfold update. now destruct (heap st !! this). Qed.

Lemma arrays_update this (f : Conversation W → Conversation W) (st : state W) :
  arrays (update this f st) = arrays st.
Proof. unfold update. now destruct (heap st !! this). Qed.

(** What [notify] leaves, field by field. *)
Lemma notified_fields this action step (c : Conversation W) (st : state W) :
  heap st !! this = Some c →
  let st' := notified this action step c st in
  heap st' = <[this := with_step (Resolved step) c]> (heap st) ∧
  log st' = (if negb (strict_eq action (Some "start")) ||
                negb (bool_decide (is_Some (c_parent c)))
             then log st ++ calls this action step (default [] (arrays st !! c_observers c))
             else log st) ∧
  world st' = world st ∧ arrays st' = arrays st.
Proof.
  intros Hc. unfold notified.
  destruct (negb _ || negb _); simpl;
    rewrite (heap_update this _ c), log_update, world_update, arrays_update by exact Hc;
    repeat split.
Qed.

(** X11.  In the revision over conversation flows a target does not take the
    conversation off a step that is not complete.  When the generator is
    suspended on the current step, and that step has the hook of a step
    module that answers [isComplete()] with no, [continue(id)] returns the
    current step, whatever [id] is, and nothing moves but the world of the
    step that was asked. *)
Theorem a_target_does_not_skip_an_incomplete_step
  fuel this (c : Conversation W) s id w' (st : state W) :
  heap st !! this = Some c →
  c_step c = Resolved (Some s) →
  c_gen c = GYield s →
  reports_incomplete s (world st) w' →
  continue_ (ConvFlow.run import_ (S fuel)) this id false st
    = (Ok (Some s), set_world w' st).
Proof.
  intros Hc Hstep Hgen (h & f & Hh & Hf & Hno). simpl continue_.
  unfold ConvFlow.continue.
  rewrite (bind_Ok _ _ _ _ _ (self_Ok _ _ _ Hc)), Hstep. simpl await.
  rewrite (bind_Ok _ _ st st (Some s)) by reflexivity.
  simpl. rewrite Hh.
  rewrite (bind_Ok _ _ st st None) by reflexivity.
  assert (Hnext : ConvFlow.genNext import_ (ConvFlow.run import_ fuel) this id st
                  = (Ok (false, Some s), set_world w' st)).
  { unfold ConvFlow.genNext.
    rewrite (bind_Ok _ _ _ _ _ (self_Ok _ _ _ Hc)), Hgen.
    unfold generator_body, ConvFlow.genLoop, hook_isComplete. simpl. rewrite Hh, Hf.
    rewrite (bind_Ok _ _ _ _ _ (call_eq _ _ _ _ Hno)).
    unfold suspend, bind, modify.
    rewrite (update_same this _ c); [reflexivity|exact Hc|now apply with_gen_same]. }
  rewrite (bind_Ok _ _ _ _ _ Hnext). simpl.
  now rewrite String.eqb_refl.
Qed.

(** X12.  A target that names nothing ends the conversation.  In the revision
    over flowcharts, take a conversation without a parent whose generator is
    suspended and whose current step is no sub-conversation.
    [continue(id)] with an [id] that is not empty and for which
    [id in flow.vertices] is false finishes the generator, tells the
    observers ["done"] and leaves the conversation without a current step,
    whether or not the step it was on is complete; the breadcrumbs stay. *)
Theorem Flowchart_unknown_target_ends_the_conversation
  fuel this (c : Conversation W) current g id (st : state W) :
  heap st !! this = Some c →
  c_step c = Resolved current →
  (∀ child, current ≫= s_hook ≠ Some (Nested child)) →
  c_gen c = GYield g →
  c_parent c = None →
  id ≠ "" →
  key_in id (f_vertices (c_flow c)) = false →
  let r := continue_ (Flowchart.run import_ readFlow (S fuel)) this (Some id) false st in
  fst r = Ok None ∧
  heap (snd r) = <[this := with_step (Resolved None) (with_gen GDone c)]> (heap st) ∧
  log (snd r) = log st ++ calls this (Some "done") None
                                (default [] (arrays st !! c_observers c)) ∧
  world (snd r) = world st ∧ arrays (snd r) = arrays st.
Proof.
  intros Hc Hstep Hleaf Hgen Hp Hid Hno r. subst r. simpl continue_.
  unfold Flowchart.continue.
  rewrite (bind_Ok _ _ _ _ _ (self_Ok _ _ _ Hc)), Hstep. simpl await.
  rewrite (bind_Ok _ _ st st current) by reflexivity.
  assert (Hdown : match current ≫= s_hook with
                  | Some (Nested child) =>
                      continue_ (Flowchart.run import_ readFlow fuel) child (Some id) false
                  | _ => ret None
                  end = ret None).
  { destruct (current ≫= s_hook) as [[h|child]|]; try reflexivity.
    now destruct (Hleaf child). }
  cbv iota. rewrite Hdown. rewrite (bind_Ok _ _ st st None) by reflexivity.
  set (st1 := update this (with_gen GDone) st).
  assert (Hnext : Flowchart.genNext import_ (Flowchart.run import_ readFlow fuel) this
                    (Some id) st = (Ok (true, None), st1)).
  { unfold Flowchart.genNext.
    rewrite (bind_Ok _ _ _ _ _ (self_Ok _ _ _ Hc)), Hgen.
    unfold generator_body.
    assert (Hget : Flowchart.get import_ (Flowchart.run import_ readFlow fuel) this
                     (Some id) st = (Ok None, st)).
    { unfold Flowchart.get. rewrite (bind_Ok _ _ _ _ _ (self_Ok _ _ _ Hc)).
      rewrite truthy_Some by assumption. simpl. now rewrite Hno. }
    rewrite (bind_Ok _ _ _ _ _ Hget). reflexivity. }
  rewrite (bind_Ok _ _ _ _ _ Hnext). cbn [fst snd negb andb].
  rewrite (bind_Ok _ _ st1 st1 false) by reflexivity. rewrite Hp.
  assert (Hc1 : heap st1 !! this = Some (with_gen GDone c)) by now apply update_lookup.
  rewrite (notify_eq _ _ _ _ _ Hc1). simpl fst. simpl snd.
  destruct (notified_fields this (Some "done") None _ st1 Hc1) as (Hheap & Hlog & Hw & Ha).
  rewrite Hheap, Hlog, Hw, Ha. unfold st1.
  rewrite (heap_update this _ c), log_update, world_update, arrays_update by exact Hc.
  rewrite list_insert_insert_eq. simpl. repeat split.
Qed.

(** X13.  In the revision over conversation flows such a target ends the
    conversation once the current step is complete.  Take a conversation
    without a parent whose generator is suspended on the current step, the
    step having the hook of a step module that answers [isComplete()] with
    yes.  [continue(id)] with an [id] that is not empty and for which
    [id in flow.steps] is false makes the step a breadcrumb, finishes the
    generator, tells the observers ["done"] and leaves the conversation
    without a current step. *)
Theorem ConvFlow_unknown_target_ends_the_conversation
  fuel this (c : Conversation W) s id w' (st : state W) :
  heap st !! this = Some c →
  c_step c = Resolved (Some s) →
  c_gen c = GYield s →
  c_parent c = None →
  reports_complete s (world st) w' →
  id ≠ "" →
  key_in id (f_vertices (c_flow c)) = false →
  let r := continue_ (ConvFlow.run import_ (S (S fuel))) this (Some id) false st in
  fst r = Ok None ∧
  heap (snd r) = <[this := with_step (Resolved None)
                             (with_gen GDone (with_breadcrumbs (breadcrumbs c ++ [s]) c))]>
                   (heap st) ∧
  log (snd r) = log st ++ calls this (Some "done") None
                                (default [] (arrays st !! c_observers c)) ∧
  world (snd r) = w' ∧ arrays (snd r) = arrays st.
Proof.
  intros Hc Hstep Hgen Hp (h & f & Hh & Hf & Hyes) Hid Hno r. subst r. simpl continue_.
  unfold ConvFlow.continue.
  rewrite (bind_Ok _ _ _ _ _ (self_Ok _ _ _ Hc)), Hstep. simpl await.
  rewrite (bind_Ok _ _ st st (Some s)) by reflexivity.
  simpl. rewrite Hh.
  rewrite (bind_Ok _ _ st st None) by reflexivity.
  set (c1 := with_breadcrumbs (breadcrumbs c ++ [s]) c).
  set (st1 := update this (λ c, with_breadcrumbs (breadcrumbs c ++ [s]) c) (set_world w' st)).
  set (st2 := update this (with_gen GDone) st1).
  assert (Hc1 : heap st1 !! this = Some c1)
    by exact (update_lookup this (λ c, with_breadcrumbs (breadcrumbs c ++ [s]) c) c
                (set_world w' st) Hc).
  assert (Hc2 : heap st2 !! this = Some (with_gen GDone c1)) by now apply update_lookup.
  assert (Hnext : ConvFlow.genNext import_ (ConvFlow.methods_of import_ (ConvFlow.run import_ fuel))
                    this (Some id) st = (Ok (true, None), st2)).
  { unfold ConvFlow.genNext.
    rewrite (bind_Ok _ _ _ _ _ (self_Ok _ _ _ Hc)), Hgen.
    unfold generator_body, ConvFlow.genLoop, hook_isComplete. simpl. rewrite Hh, Hf.
    rewrite (bind_Ok _ _ _ _ _ (call_eq _ _ _ _ Hyes)).
    rewrite (bind_Ok _ _ (set_world w' st) st1 tt) by reflexivity.
    rewrite (proj2 (String.eqb_neq id "") Hid). simpl negb. cbv iota.
    assert (Hget : ConvFlow.get import_ (ConvFlow.methods_of import_ (ConvFlow.run import_ fuel))
                     this (Some id) st1 = (Ok None, st1)).
    { unfold ConvFlow.get. rewrite (bind_Ok _ _ _ _ _ (self_Ok _ _ _ Hc1)).
      rewrite truthy_Some by assumption. simpl. now rewrite Hno. }
    rewrite (bind_Ok _ _ _ _ _ Hget). reflexivity. }
  rewrite (bind_Ok _ _ _ _ _ Hnext). simpl. rewrite Hp.
  rewrite (notify_eq _ _ _ _ _ Hc2). simpl fst. simpl snd.
  destruct (notified_fields this (Some "done") None _ st2 Hc2) as (Hheap & Hlog & Hw & Ha).
  rewrite Hheap, Hlog, Hw, Ha. unfold st2.
  rewrite (heap_update this _ c1), log_update, world_update, arrays_update by exact Hc1.
  unfold st1.
  rewrite (heap_update this _ c), log_update, world_update, arrays_update by exact Hc.
  rewrite !list_insert_insert_eq. simpl. repeat split.
Qed.


(** What a look leaves of a conversation. *)
Lemma looked_at {A} (m : M W A) this (c : Conversation W) (st : state W) r st' :
  keeps_but None None m → m st = (r, st') →
  heap st !! this = Some c → heap st' !! this = Some c.
Proof.
  intros Hm Hrun Hc.
  apply (kept_same None None st st'); [eapply Hm; eassumption | discriminate.. | exact Hc].
Qed.

(** X14.  In the revision over flowcharts a target is taken at once.  Take a
    conversation whose generator is suspended and whose current step is no
    sub-conversation.  [continue(id)] with an [id] that is not empty and
    that [get] resolves to a step that is not complete makes that step the
    current step, whether or not the step the conversation was on is
    complete, and does not add that step to the breadcrumbs.  The observers
    are told [id], unless [id] is ['start'] and the conversation has a
    parent. *)
Theorem Flowchart_target_is_taken_at_once
  fuel this (c : Conversation W) current g id t (st st1 st2 : state W) :
  heap st !! this = Some c →
  c_step c = Resolved current →
  (∀ child, current ≫= s_hook ≠ Some (Nested child)) →
  c_gen c = GYield g →
  id ≠ "" →
  Flowchart.get import_ (Flowchart.run import_ readFlow fuel) this (Some id) st
    = (Ok (Some t), st1) →
  Flowchart.isComplete_of (Flowchart.run import_ readFlow fuel) false (Some t) st1
    = (Ok false, st2) →
  let r := continue_ (Flowchart.run import_ readFlow (S fuel)) this (Some id) false st in
  fst r = Ok (Some t) ∧
  heap (snd r) = <[this := with_step (Resolved (Some t)) (with_gen (GYield t) c)]> (heap st2) ∧
  (id ≠ "start" ∨ c_parent c = None →
   log (snd r) = log st2 ++ calls this (Some id) (Some t)
                                  (default [] (arrays st2 !! c_observers c))).
Proof.
  intros Hc Hstep Hleaf Hgen Hid Hget Hnot r. subst r. simpl continue_.
  pose proof (Flowchart_quiet_run import_ readFlow fuel) as Hquiet.
  assert (Hc1 : heap st1 !! this = Some c).
  { eapply looked_at; [|exact Hget|exact Hc]. now apply Flowchart_keeps_get. }
  assert (Hc2 : heap st2 !! this = Some c).
  { eapply looked_at; [|exact Hnot|exact Hc1]. now apply Flowchart_keeps_isComplete_of. }
  unfold Flowchart.continue.
  rewrite (bind_Ok _ _ _ _ _ (self_Ok _ _ _ Hc)), Hstep. simpl await.
  rewrite (bind_Ok _ _ st st current) by reflexivity.
  assert (Hdown : match current ≫= s_hook with
                  | Some (Nested child) =>
                      continue_ (Flowchart.run import_ readFlow fuel) child (Some id) false
                  | _ => ret None
                  end = ret None).
  { destruct (current ≫= s_hook) as [[h|child]|]; try reflexivity.
    now destruct (Hleaf child). }
  cbv iota. rewrite Hdown. rewrite (bind_Ok _ _ st st None) by reflexivity.
  set (st3 := update this (with_gen (GYield t)) st2).
  assert (Hnext : Flowchart.genNext import_ (Flowchart.run import_ readFlow fuel) this
                    (Some id) st = (Ok (false, Some t), st3)).
  { unfold Flowchart.genNext.
    rewrite (bind_Ok _ _ _ _ _ (self_Ok _ _ _ Hc)), Hgen.
    unfold generator_body.
    rewrite (bind_Ok _ _ _ _ _ Hget), (bind_Ok _ _ _ _ _ Hnot). reflexivity. }
  rewrite (bind_Ok _ _ _ _ _ Hnext). cbn [fst snd negb andb].
  rewrite (bind_Ok _ _ st3 st3 false) by reflexivity.
  assert (Hc3 : heap st3 !! this = Some (with_gen (GYield t) c)) by now apply update_lookup.
  change (default "continue" (Some id)) with id.
  rewrite (notify_eq _ _ _ _ _ Hc3). simpl fst. simpl snd.
  destruct (notified_fields this (Some id) (Some t) _ st3 Hc3) as (Hheap & Hlog & Hw & Ha).
  rewrite Hheap, Hlog. unfold st3.
  rewrite (heap_update this _ c), log_update, arrays_update by exact Hc2.
  rewrite list_insert_insert_eq. split; [reflexivity|]. split; [reflexivity|].
  intros Hsay. simpl c_parent. simpl c_observers.
  assert (Hcond : negb (strict_eq (Some id) (Some "start")) ||
                  negb (bool_decide (is_Some (c_parent c))) = true).
  { destruct Hsay as [Hne | Hroot].
    - apply String.eqb_neq in Hne. simpl. now rewrite Hne.
    - rewrite Hroot. apply orb_true_r. }
  now rewrite Hcond.
Qed.


(** X15.  In the revision over conversation flows [continue] moves on from a
    complete step.  Take a conversation whose generator is suspended on the
    current step, which is no sub-conversation and answers [isComplete()]
    with yes.  The step becomes the last breadcrumb; the step to go to is
    the target, when one that is not empty is given, and the successor that
    the scan of the outgoing edges finds otherwise.  When that step has
    another id than the current step and is not complete itself, it
    becomes the current step, the generator waits on it, and the observers
    are told the target, or ["continue"] (unless the target is ['start'] and
    the conversation has a parent). *)
Theorem ConvFlow_continue_moves_on
  fuel this (c : Conversation W) cur id t (st st1 st2 st3 : state W) :
  heap st !! this = Some c →
  c_step c = Resolved (Some cur) →
  (∀ child, s_hook cur ≠ Some (Nested child)) →
  c_gen c = GYield cur →
  hook_isComplete (ConvFlow.run import_ (S fuel)) false false (Some cur) st = (Ok true, st1) →
  (if truthy id
   then ConvFlow.get import_ (ConvFlow.run import_ (S fuel)) this id
   else ConvFlow.scan import_ (ConvFlow.run import_ (S fuel)) this (a_to (s_edges cur)))
    (update this (λ c, with_breadcrumbs (breadcrumbs c ++ [cur]) c) st1) = (Ok (Some t), st2) →
  hook_isComplete (ConvFlow.run import_ fuel) false false (Some t) st2 = (Ok false, st3) →
  s_id t ≠ s_id cur →
  let r := continue_ (ConvFlow.run import_ (S (S fuel))) this id false st in
  fst r = Ok (Some t) ∧
  heap (snd r) = <[this := with_step (Resolved (Some t))
                             (with_gen (GYield t)
                                (with_breadcrumbs (breadcrumbs c ++ [cur]) c))]> (heap st3) ∧
  (id ≠ Some "start" ∨ c_parent c = None →
   log (snd r) = log st3 ++ calls this (Some (default "continue" id)) (Some t)
                                  (default [] (arrays st3 !! c_observers c))).
Proof.
  intros Hc Hstep Hleaf Hgen Hdone Hnext Hnot Hids r. subst r. simpl continue_.
  pose proof (ConvFlow_quiet_run import_ (S fuel)) as Hquiet.
  pose proof (ConvFlow_quiet_run import_ fuel) as Hquiet'.
  set (c1 := with_breadcrumbs (breadcrumbs c ++ [cur]) c).
  set (push := λ c : Conversation W, with_breadcrumbs (breadcrumbs c ++ [cur]) c) in *.
  assert (Hc1 : heap st1 !! this = Some c).
  { eapply looked_at; [|exact Hdone|exact Hc]. now apply keeps_hook_isComplete. }
  assert (Hc1' : heap (update this push st1) !! this = Some c1)
    by exact (update_lookup this push c st1 Hc1).
  assert (Hc2 : heap st2 !! this = Some c1).
  { eapply looked_at; [|exact Hnext|exact Hc1'].
    destruct (truthy id); [now apply ConvFlow_keeps_get | now apply ConvFlow_keeps_scan]. }
  assert (Hc3 : heap st3 !! this = Some c1).
  { eapply looked_at; [|exact Hnot|exact Hc2]. now apply keeps_hook_isComplete. }
  set (st4 := update this (with_gen (GYield t)) st3).
  assert (Hgo : ConvFlow.genNext import_ (ConvFlow.run import_ (S fuel)) this id st
                = (Ok (false, Some t), st4)).
  { unfold ConvFlow.genNext. rewrite (bind_Ok _ _ _ _ _ (self_Ok _ _ _ Hc)), Hgen.
    unfold generator_body, ConvFlow.genLoop.
    rewrite (bind_Ok _ _ _ _ _ Hdone).
    rewrite (bind_Ok _ _ st1 (update this push st1) tt) by reflexivity.
    rewrite (bind_Ok _ _ _ _ _ Hnext).
    simpl genLoop_. unfold ConvFlow.genLoop.
    rewrite (bind_Ok _ _ _ _ _ Hnot). reflexivity. }
  assert (Hne : strict_eq (s_id <$> Some cur) (s_id <$> Some t) = false).
  { simpl. apply String.eqb_neq. congruence. }
  assert (Hc4 : heap st4 !! this = Some (with_gen (GYield t) c1)) by now apply update_lookup.
  destruct (notified_fields this (Some (default "continue" id)) (Some t) _ st4 Hc4)
    as (Hheap & Hlog & Hw & Ha).
  assert (Hrun : ConvFlow.continue import_ (ConvFlow.run import_ (S fuel)) this id false st
                 = (Ok (Some t),
                    notified this (Some (default "continue" id)) (Some t)
                             (with_gen (GYield t) c1) st4)).
  { unfold ConvFlow.continue.
    rewrite (bind_Ok _ _ _ _ _ (self_Ok _ _ _ Hc)), Hstep. simpl await.
    rewrite (bind_Ok _ _ st st (Some cur)) by reflexivity.
    rewrite (bind_Ok _ _ st st None).
    2:{ simpl. destruct (s_hook cur) as [[h|child]|]; try reflexivity.
        now destruct (Hleaf child). }
    rewrite (bind_Ok _ _ _ _ _ Hgo). cbv iota beta. rewrite Hne.
    now rewrite (notify_eq _ _ _ _ _ Hc4). }
  simpl ConvFlow.run in Hrun. rewrite Hrun. simpl fst. simpl snd.
  rewrite Hheap, Hlog. unfold st4.
  rewrite (heap_update this _ c1), log_update, arrays_update by exact Hc3.
  rewrite list_insert_insert_eq. split; [reflexivity|]. split; [reflexivity|].
  intros Hsay. simpl c_parent. simpl c_observers.
  assert (Hcond : negb (strict_eq (Some (default "continue" id)) (Some "start")) ||
                  negb (bool_decide (is_Some (c_parent c))) = true).
  { destruct Hsay as [Hne' | Hroot].
    - destruct id as [id|]; simpl; [|reflexivity].
      assert (id ≠ "start") by congruence.
      now rewrite (proj2 (String.eqb_neq id "start")).
    - rewrite Hroot. apply orb_true_r. }
  now rewrite Hcond.
Qed.

End Targets.

(** ** Where a conversation starts *)

Section Entries.

Context {W : Type}.
Variable import_ : importer W.
Variable readFlow : string → res (Flow W).

(** A step that [get] resolves carries the id it was asked for. *)
Lemma ConvFlow_get_id (rec : methods W) this id s (st st' : state W) :
  id ≠ "" →
  ConvFlow.get import_ rec this (Some id) st = (Ok (Some s), st') → s_id s = id.
Proof.
  intros Hid Hget. unfold ConvFlow.get in Hget.
  rewrite truthy_Some in Hget by assumption.
  unfold bind at 1, self in Hget.
  destruct (heap st !! this) as [c|]; [|discriminate]. simpl in Hget.
  destruct (key_in id _); simpl in Hget; [|discriminate].
  destruct (lookup_vertex id _) as [v|]; [|discriminate].
  unfold bind at 1 in Hget.
  match type of Hget with
  | context [let (_, _) := ?m in _] => destruct m as [[hook|?| |] ?]
  | context [match ?m with (_, _) => _ end] => destruct m as [[hook|?| |] ?]
  end; try discriminate.
  now injection Hget as <- _.
Qed.

(** The loop of [findStart] passes the entries that are not ready and stops
    at the first that is. *)
Lemma ConvFlow_findLoop_finds k0 this flow before entry after :
  f_starts flow = before ++ entry :: after →
  (∀ id, id ∈ before → id ≠ "" ∧ never_ready import_ k0 this flow id) →
  entry ≠ "" →
  ready_when_asked import_ k0 this flow entry →
  ∀ fuel index step (st : state W) c,
    index ≤ length before →
    k0 + (length before + 3 - index) ≤ fuel →
    heap st !! this = Some c →
    c_flow c = flow →
    (∃ st2, hook_isReady (ConvFlow.run import_ (fuel - 1)) step st = (Ok false, st2)) →
    ∃ s st', findLoop_ (ConvFlow.run import_ fuel) this index step st = (Ok (Some s), st') ∧
             s_id s = entry.
Proof.
  intros Hstarts Hnever Hentry Hready.
  induction fuel as [|fuel IH]; intros index step st c Hindex Hfuel Hc Hflow Hstep; [lia|].
  simpl findLoop_. replace (S fuel - 1) with fuel in Hstep by lia.
  unfold ConvFlow.findLoop. rewrite (bind_Ok _ _ _ _ _ (self_Ok _ _ _ Hc)), Hflow.
  destruct Hstep as (st2 & Hstep).
  destruct (keeps_hook_isReady None None _ step (ConvFlow_quiet_run import_ fuel) _ _ _ Hstep
              this c Hc) as (c2 & Hc2 & (Hflow2 & _) & _).
  rewrite Hflow in Hflow2.
  destruct (decide (index = length before)) as [->|Hlt].
  - (* the entry that is ready *)
    rewrite Hstarts, list_lookup_middle by reflexivity.
    rewrite truthy_Some, orb_true_r by assumption.
    rewrite (bind_Ok _ _ _ _ _ Hstep). simpl default.
    destruct fuel as [|fuel]; [lia|].
    destruct (Hready (S fuel) fuel st2 c2) as (s & st3 & st4 & Hget & Hyes);
      [lia | lia | assumption | assumption |].
    rewrite (bind_Ok _ _ _ _ _ Hget).
    destruct (ConvFlow_keeps_get import_ _ (ConvFlow_quiet_run import_ (S fuel)) this
                (Some entry) _ _ _ Hget this c2 Hc2) as (c3 & Hc3 & _).
    exists s, st4. split; [|eapply ConvFlow_get_id; eassumption].
    simpl findLoop_. unfold ConvFlow.findLoop.
    rewrite (bind_Ok _ _ _ _ _ (self_Ok _ _ _ Hc3)).
    rewrite bool_decide_eq_true_2 by eauto.
    change (true || ?b) with true. cbv iota.
    now rewrite (bind_Ok _ _ _ _ _ Hyes).
  - (* an entry that is not *)
    assert (Hlt' : index < length before) by lia.
    destruct (lookup_lt_is_Some_2 before index Hlt') as [id Hid].
    rewrite Hstarts, lookup_app_l, Hid by assumption.
    destruct (Hnever id) as [Hne Hno]; [eapply list_elem_of_lookup_2; eassumption|].
    rewrite truthy_Some, orb_true_r by assumption.
    rewrite (bind_Ok _ _ _ _ _ Hstep). simpl default.
    destruct (Hno fuel (fuel - 1) st2 c2) as (s & st3 & st4 & Hget & Hnot);
      [lia | lia | assumption | assumption |].
    rewrite (bind_Ok _ _ _ _ _ Hget).
    destruct (ConvFlow_keeps_get import_ _ (ConvFlow_quiet_run import_ fuel) this (Some id)
                _ _ _ Hget this c2 Hc2) as (c3 & Hc3 & (Hflow3 & _) & _).
    apply (IH (S index) s st3 c3); try lia; eauto. congruence.
Qed.



Lemma strict_eq_spec a b : strict_eq a b = true ↔ a = b.
Proof.
  destruct a as [x|], b as [y|]; simpl; try (split; [discriminate | congruence]);
    [|split; reflexivity].
  rewrite String.eqb_eq. split; congruence.
Qed.

Lemma entry_none start (vertices : list (string * Vertex W)) :
  (∀ id v, (id, v) ∈ vertices →
           v_type v ≠ Some "stadium" ∧ p_uri (v_props v) ≠ start) →
  Flowchart.entry start vertices = None.
Proof.
  induction vertices as [|[id v] vertices IH]; intros Hnone; [reflexivity|]. simpl.
  destruct (Hnone id v) as [Htype Huri]; [apply list_elem_of_here|].
  apply strict_eq_Some_false in Htype. rewrite Htype.
  destruct (strict_eq (p_uri (v_props v)) start) eqn:Hu.
  - now apply strict_eq_spec in Hu.
  - apply IH. intros id' v' Hin. apply (Hnone id'). now apply list_elem_of_further.
Qed.

Lemma entry_first start (before after : list (string * Vertex W)) id v :
  (∀ id' v', (id', v') ∈ before →
             v_type v' ≠ Some "stadium" ∧ p_uri (v_props v') ≠ start) →
  v_type v = Some "stadium" ∨ p_uri (v_props v) = start →
  Flowchart.entry start (before ++ (id, v) :: after) = Some id.
Proof.
  intros Hnone Hentry.
  induction before as [|[id' v'] before IH]; simpl.
  - destruct Hentry as [-> | ->]; [reflexivity|].
    now rewrite (proj2 (strict_eq_spec _ _) eq_refl), orb_true_r.
  - destruct (Hnone id' v') as [Htype Huri]; [apply list_elem_of_here|].
    apply strict_eq_Some_false in Htype. rewrite Htype.
    destruct (strict_eq (p_uri (v_props v')) start) eqn:Hu.
    + now apply strict_eq_spec in Hu.
    + apply IH. intros id'' v'' Hin. apply (Hnone id''). now apply list_elem_of_further.
Qed.

(** X17.  In the revision over flowcharts an entry is a stadium, or a vertex
    whose [uri] is the start that was asked for (a vertex without [uri],
    when none was asked for).  Take a flowchart that is given as [flow], not
    as [src].  When [start in flow.vertices] is false (an absent start
    standing for the key ['undefined']) and no vertex is such an entry, the
    conversation is built and cannot start: its current step is the
    rejection 'Could not find a starting point.', and [isReady()] rejects
    with it. *)
Theorem Flowchart_without_an_entry_cannot_start
  fuel (props : ConversationProps W) flow type (st : state W) :
  cp_flow props = Some flow →
  truthy (cp_src props) = false →
  f_type flow = Some type →
  includes "flowchart" type = true →
  key_in (default "undefined" (cp_start props)) (f_vertices flow) = false →
  (∀ id v, (id, v) ∈ f_vertices flow →
           v_type v ≠ Some "stadium" ∧ p_uri (v_props v) ≠ cp_start props) →
  let this := length (heap st) in
  let r := conversation_ (Flowchart.run import_ readFlow (S fuel)) props st in
  fst r = Ok this ∧
  (∃ c, heap (snd r) !! this = Some c ∧ c_step c = Rejected NoStartFound) ∧
  fst (isReady_ (Flowchart.run import_ readFlow (S fuel)) this (snd r)) = Throw NoStartFound.
Proof.
  intros Hflow Hsrc Htype Hinc Hnot Hnone this r.
  pose proof (newborn_lookup props flow st) as Hborn. fold this in Hborn.
  set (st0 := newborn props flow st) in *.
  set (c0 := infant props flow st) in *.
  set (st1 := update this (with_gen GDone) st0).
  set (st2 := update this (with_step Pending) st1).
  set (st3 := update this (with_step (Rejected NoStartFound)) st2).
  assert (Hc1 : heap st1 !! this = Some (with_gen GDone c0)) by now apply update_lookup.
  assert (Hc2 : heap st2 !! this = Some (with_step Pending (with_gen GDone c0)))
    by now apply update_lookup.
  assert (Hc3 : heap st3 !! this
                = Some (with_step (Rejected NoStartFound)
                          (with_step Pending (with_gen GDone c0))))
    by now apply update_lookup.
  assert (Hfind : ∀ rec, Flowchart.findStart import_ rec this (cp_start props) st0
                         = (Throw NoStartFound, st2)).
  { intros rec. unfold Flowchart.findStart.
    rewrite (bind_Ok _ _ _ _ _ (self_Ok _ _ _ Hborn)).
    change (c_flow c0) with flow. rewrite Hnot, (entry_none _ _ Hnone).
    rewrite (bind_Ok _ _ st0 st0 tt) by reflexivity.
    rewrite (bind_Ok _ _ st0 st1 (true, None)).
    2:{ unfold Flowchart.genNext. now rewrite (bind_Ok _ _ _ _ _ (self_Ok _ _ _ Hborn)). }
    rewrite (bind_Ok _ _ st1 st2 tt) by reflexivity.
    now rewrite (bind_Ok _ _ st2 st2 None). }
  assert (Hr : r = (Ok this, st3)).
  { unfold r. simpl conversation_.
    rewrite (Flowchart_conversation_born import_ readFlow _ props flow type st)
      by assumption.
    fold this. fold st0. unfold bind, settle. now rewrite Hfind. }
  rewrite Hr. simpl fst. simpl snd.
  split; [reflexivity|]. split; [eauto|].
  simpl isReady_. unfold isReady.
  now rewrite (bind_Ok _ _ _ _ _ (self_Ok _ _ _ Hc3)).
Qed.


(** X18.  When [start in flow.vertices] is false (an absent start standing
    for the key ['undefined']), a conversation over a flowchart that is
    given as [flow], not as [src], starts on the first entry in the order of
    the vertices: the first stadium, or vertex whose [uri] is the start
    asked for.  When that vertex resolves and is not complete, it becomes
    the current step, whether it is ready or not, the generator waits on it,
    there is no breadcrumb, and [isReady()] of the conversation answers
    true. *)
Theorem Flowchart_starts_on_the_first_entry
  fuel (props : ConversationProps W) flow type before id v after s (st st1 st2 : state W) :
  cp_flow props = Some flow →
  truthy (cp_src props) = false →
  f_type flow = Some type →
  includes "flowchart" type = true →
  key_in (default "undefined" (cp_start props)) (f_vertices flow) = false →
  f_vertices flow = before ++ (id, v) :: after →
  (∀ id' v', (id', v') ∈ before →
             v_type v' ≠ Some "stadium" ∧ p_uri (v_props v') ≠ cp_start props) →
  v_type v = Some "stadium" ∨ p_uri (v_props v) = cp_start props →
  let this := length (heap st) in
  Flowchart.get import_ (Flowchart.run import_ readFlow fuel) this (Some id)
    (newborn props flow st) = (Ok (Some s), st1) →
  Flowchart.isComplete_of (Flowchart.run import_ readFlow fuel) false (Some s)
    (update this (with_step Pending)
       (update this (with_gen (GYield s))
          (update this (with_step (Resolved (Some s))) st1))) = (Ok false, st2) →
  let r := conversation_ (Flowchart.run import_ readFlow (S fuel)) props st in
  fst r = Ok this ∧
  (∃ c, heap (snd r) !! this = Some c ∧
        c_step c = Resolved (Some s) ∧ c_gen c = GYield s ∧ breadcrumbs c = []) ∧
  fst (isReady_ (Flowchart.run import_ readFlow (S fuel)) this (snd r)) = Ok true.
Proof.
  intros Hflow Hsrc Htype Hinc Hnot Hvs Hnone Hentry this Hget Hincomplete r.
  pose proof (Flowchart_quiet_run import_ readFlow fuel) as Hq.
  pose proof (newborn_lookup props flow st) as Hborn. fold this in Hborn.
  set (st0 := newborn props flow st) in *.
  set (c0 := infant props flow st) in *.
  assert (Hc1 : heap st1 !! this = Some c0).
  { eapply looked_at; [|exact Hget|exact Hborn]. now apply Flowchart_keeps_get. }
  set (sta := update this (with_step (Resolved (Some s))) st1) in *.
  set (stb := update this (with_gen (GYield s)) sta) in *.
  set (stc := update this (with_step Pending) stb) in *.
  set (ca := with_step (Resolved (Some s)) c0).
  set (cb := with_gen (GYield s) ca).
  set (cc := with_step Pending cb).
  assert (Hca : heap sta !! this = Some ca) by now apply update_lookup.
  assert (Hcb : heap stb !! this = Some cb) by now apply update_lookup.
  assert (Hcc : heap stc !! this = Some cc) by now apply update_lookup.
  assert (Hc2 : heap st2 !! this = Some cc).
  { eapply looked_at; [|exact Hincomplete|exact Hcc].
    now apply Flowchart_keeps_isComplete_of. }
  assert (Hfind : Flowchart.findStart import_ (Flowchart.run import_ readFlow fuel) this
                    (cp_start props) st0
                  = (Ok (Some s), notified this (Some "start") (Some s) cc st2)).
  { unfold Flowchart.findStart.
    rewrite (bind_Ok _ _ _ _ _ (self_Ok _ _ _ Hborn)).
    change (c_flow c0) with flow. rewrite Hnot.
    rewrite Hvs, (entry_first _ _ _ _ _ Hnone Hentry).
    rewrite (bind_Ok _ _ st0 sta tt).
    2:{ rewrite (bind_Ok _ _ st0 st1 (Resolved (Some s))); [reflexivity|].
        unfold as_promise. now rewrite Hget. }
    rewrite (bind_Ok _ _ sta stb (false, Some s)).
    2:{ unfold Flowchart.genNext. now rewrite (bind_Ok _ _ _ _ _ (self_Ok _ _ _ Hca)). }
    rewrite (bind_Ok _ _ stb stc tt) by reflexivity.
    rewrite (bind_Ok _ _ stc st2 (Some s)).
    2:{ unfold Flowchart.findWhile. now rewrite (bind_Ok _ _ _ _ _ Hincomplete). }
    apply notify_eq. exact Hc2. }
  destruct (notified_lookup this (Some "start") (Some s) cc cc st2 Hc2) as [Hc3 _].
  assert (Hr : r = (Ok this, notified this (Some "start") (Some s) cc st2)).
  { unfold r. simpl conversation_.
    rewrite (Flowchart_conversation_born import_ readFlow _ props flow type st)
      by assumption.
    fold this. fold st0. unfold bind, settle. now rewrite Hfind. }
  rewrite Hr. simpl fst. simpl snd.
  split; [reflexivity|]. split; [eexists; split; [exact Hc3 | repeat split]|].
  simpl isReady_. exact (f_equal fst (isReady_at this _ s _ Hc3 eq_refl)).
Qed.

End Entries.

(** ** The parent comes first *)

Section Order.

Context {W : Type}.
#[local] Abbreviation M := (M W).
#[local] Abbreviation state := (state W).

Lemma in_order_refl (st : state) : in_order st st.
Proof. split; auto. Qed.

Lemma in_order_trans (st1 st2 st3 : state) :
  in_order st1 st2 → in_order st2 st3 → in_order st1 st3.
Proof. intros [? ?] [? ?]. split; [lia | auto]. Qed.

Lemma in_order_same_heap (st st' : state) : heap st' = heap st → in_order st st'.
Proof.
  intros Hheap. split; [now rewrite Hheap|].
  intros Hwf i c p. rewrite Hheap. apply Hwf.
Qed.

Lemma in_order_update this (f : Conversation W → Conversation W) (st : state) :
  (∀ c, c_parent (f c) = c_parent c) → in_order st (update this f st).
Proof.
  intros Hf. unfold update.
  destruct (heap st !! this) as [c0|] eqn:Hthis; [|apply in_order_refl].
  split; simpl; [now rewrite length_insert|].
  intros Hwf i c p Hc Hp. simpl in Hc. destruct (decide (i = this)) as [->|Hne].
  - rewrite list_lookup_insert_eq in Hc by (now apply lookup_lt_Some in Hthis).
    injection Hc as <-. rewrite Hf in Hp. eapply Hwf; eassumption.
  - rewrite list_lookup_insert_ne in Hc by congruence. eapply Hwf; eassumption.
Qed.

Lemma orderly_weaken b {A} (m : M A) : orderly None m → orderly b m.
Proof. intros Hm st r st' Hrun _. eapply Hm; [eassumption | discriminate]. Qed.

Lemma orderly_ret b {A} (a : A) : orderly b (ret a : M A).
Proof. intros st r st' [= <- <-] _. apply in_order_refl. Qed.

Lemma orderly_throw b {A} e : orderly b (throw e : M A).
Proof. intros st r st' [= <- <-] _. apply in_order_refl. Qed.

Lemma orderly_hang b {A} : orderly b (hang : M A).
Proof. intros st r st' [= <- <-] _. apply in_order_refl. Qed.

Lemma orderly_out_of_fuel b {A} : orderly b (out_of_fuel : M A).
Proof. intros st r st' [= <- <-] _. apply in_order_refl. Qed.

Lemma orderly_bind b {A B} (m : M A) (f : A → M B) :
  orderly b m → (∀ a, orderly b (f a)) → orderly b (let* a := m in f a).
Proof.
  intros Hm Hf st r st' Hrun Hb. unfold bind in Hrun.
  destruct (m st) as [[a|e| |] st1] eqn:Hm1;
    try (injection Hrun as <- <-; eapply Hm; eassumption).
  assert (H1 : in_order st st1) by (eapply Hm; eassumption).
  eapply in_order_trans; [exact H1|]. eapply Hf; [eassumption|].
  intros p Hp. specialize (Hb p Hp). destruct H1. lia.
Qed.

(** Once [this] has been read, it is a conversation of the store. *)
Lemma orderly_self_bind b this {B} (f : Conversation W → M B) :
  (∀ c, orderly (Some this) (f c)) → orderly b (let* c := self this in f c).
Proof.
  intros Hf st r st' Hrun _. unfold bind, self in Hrun.
  destruct (heap st !! this) as [c|] eqn:Hc.
  - eapply Hf; [eassumption|]. intros p [= <-]. now apply lookup_lt_Some in Hc.
  - injection Hrun as <- <-. apply in_order_refl.
Qed.

Lemma orderly_self b this : orderly b (self this : M _).
Proof.
  intros st r st' Hrun _. unfold self in Hrun.
  destruct (heap st !! this); injection Hrun as <- <-; apply in_order_refl.
Qed.

Lemma orderly_await b p : orderly b (await p : M _).
Proof. destruct p; simpl; auto using orderly_ret, orderly_hang, orderly_throw. Qed.

Lemma orderly_call b {A} (f : W → res A * W) : orderly b (call f).
Proof.
  intros st r st' Hrun _. unfold call in Hrun.
  destruct (f (world st)). injection Hrun as <- <-. now apply in_order_same_heap.
Qed.

Lemma orderly_read_array b a : orderly b (read_array a : M _).
Proof. intros st r st' [= <- <-] _. apply in_order_refl. Qed.

Lemma orderly_new_array b : orderly b (new_array : M _).
Proof. intros st r st' [= <- <-] _. now apply in_order_same_heap. Qed.

Lemma orderly_modify_array b a f : orderly b (modify_array a f : M _).
Proof.
  intros st r st' [= <- <-] _. now destruct (arrays st !! a); apply in_order_same_heap.
Qed.

Lemma orderly_emit b ns : orderly b (emit ns : M _).
Proof. intros st r st' [= <- <-] _. now apply in_order_same_heap. Qed.

Lemma orderly_modify b this (f : Conversation W → Conversation W) :
  (∀ c, c_parent (f c) = c_parent c) → orderly b (modify this f : M _).
Proof. intros Hf st r st' [= <- <-] _. now apply in_order_update. Qed.

Lemma orderly_with_gen b this gen : orderly b (modify this (with_gen gen) : M _).
Proof. now apply orderly_modify. Qed.

Lemma orderly_with_step b this p : orderly b (modify this (with_step p) : M _).
Proof. now apply orderly_modify. Qed.

Lemma orderly_with_breadcrumbs b this l :
  orderly b (modify this (with_breadcrumbs l) : M _).
Proof. now apply orderly_modify. Qed.

Lemma orderly_push_breadcrumb b this step : orderly b (push_breadcrumb this step : M _).
Proof. now apply orderly_modify. Qed.

Lemma orderly_suspend b this next : orderly b (suspend this next : M _).
Proof.
  destruct next; simpl;
    (apply orderly_bind; [apply orderly_with_gen | intros; apply orderly_ret]).
Qed.

(** The one place where a parent is set. *)
Lemma orderly_allocate (c : Conversation W) : orderly (c_parent c) (allocate c : M _).
Proof.
  intros st r st' [= <- <-] Hb. split; simpl; [rewrite length_app; simpl; lia|].
  intros Hwf i ci p Hci Hp. simpl in Hci.
  destruct (decide (i < length (heap st))) as [Hlt|Hge].
  - rewrite lookup_app_l in Hci by assumption. eapply Hwf; eassumption.
  - assert (Hi : i = length (heap st)).
    { apply lookup_lt_Some in Hci. rewrite length_app in Hci. simpl in Hci. lia. }
    subst i. rewrite list_lookup_middle in Hci by reflexivity.
    injection Hci as <-. now apply Hb.
Qed.

Lemma orderly_notify b this action step : orderly b (notify this action step : M _).
Proof.
  unfold notify. apply orderly_bind; [apply orderly_self|]. intros c.
  apply orderly_bind.
  - destruct (_ || _); [|apply orderly_ret].
    apply orderly_bind; [apply orderly_read_array | intros; apply orderly_emit].
  - intros _. apply orderly_bind; [apply orderly_with_step | intros; apply orderly_ret].
Qed.

Lemma orderly_generator_body b {A} this (m : M A) :
  orderly b m → orderly b (generator_body this m).
Proof.
  intros Hm st r st' Hrun Hb. unfold generator_body in Hrun.
  destruct (m st) as [[a|e| |] st1] eqn:Hm1; injection Hrun as <- <-;
    try (eapply Hm; eassumption);
    (eapply in_order_trans; [eapply Hm; eassumption|]);
    now apply in_order_update.
Qed.

Lemma orderly_detached b {A} (m : M A) : orderly b m → orderly b (detached m).
Proof.
  intros Hm st r st' Hrun Hb. unfold detached in Hrun.
  destruct (m st) as [[a|e| |] st1] eqn:Hm1; injection Hrun as <- <-;
    eapply Hm; eassumption.
Qed.

Lemma orderly_settle b this (m : M (option (Step W))) :
  orderly b m → orderly b (settle this m).
Proof.
  intros Hm st r st' Hrun Hb. unfold settle in Hrun.
  destruct (m st) as [[a|e| |] st1] eqn:Hm1; injection Hrun as <- <-;
    try (eapply Hm; eassumption);
    (eapply in_order_trans; [eapply Hm; eassumption|]);
    now apply in_order_update.
Qed.

Lemma orderly_as_promise b (m : M (option (Step W))) :
  orderly b m → orderly b (as_promise m).
Proof.
  intros Hm st r st' Hrun Hb. unfold as_promise in Hrun.
  destruct (m st) as [[a|e| |] st1] eqn:Hm1; injection Hrun as <- <-;
    eapply Hm; eassumption.
Qed.

Lemma orderly_promise_all {A} (ms : list (M A)) :
  Forall (orderly None) ms → orderly None (promise_all ms).
Proof.
  induction 1 as [|m ms Hm _ IH]; intros st r st' Hrun Hb; simpl in Hrun.
  - injection Hrun as <- <-. apply in_order_refl.
  - destruct (m st) as [r1 st1] eqn:Hm1.
    assert (H1 : in_order st st1) by (eapply Hm; [eassumption | discriminate]).
    destruct (promise_all ms st1) as [rs st2] eqn:Hms.
    assert (H2 : in_order st1 st2) by (eapply IH; [eassumption | discriminate]).
    assert (Hst : st' = st1 ∨ st' = st2).
    { destruct r1, rs; injection Hrun as <- <-; auto. }
    destruct Hst as [-> | ->]; [assumption | eapply in_order_trans; eassumption].
Qed.

Lemma orderly_isReady b this : orderly b (isReady this : M bool).
Proof.
  unfold isReady. apply orderly_bind; [apply orderly_self|]. intros c.
  apply orderly_bind; [apply orderly_await | intros; apply orderly_ret].
Qed.

Lemma all_orderly_no_fuel : all_orderly (@no_fuel W).
Proof.
  unfold all_orderly.
  repeat match goal with |- _ ∧ _ => split end; intros; apply orderly_out_of_fuel.
Qed.

End Order.

Create HintDb order.

#[local] Hint Resolve orderly_ret orderly_throw orderly_hang orderly_out_of_fuel
  orderly_self orderly_await orderly_call orderly_read_array orderly_new_array
  orderly_modify_array orderly_emit orderly_with_gen orderly_with_step
  orderly_with_breadcrumbs orderly_push_breadcrumb orderly_suspend orderly_notify
  orderly_isReady : order.

Ltac order_step :=
  match goal with
  | |- orderly _ (bind _ _) => apply orderly_bind; [|intros ?]
  | |- orderly _ (generator_body _ _) => apply orderly_generator_body
  | |- orderly _ (as_promise _) => apply orderly_as_promise
  | |- orderly _ (detached _) => apply orderly_detached
  | |- orderly _ (settle _ _) => apply orderly_settle
  | |- orderly _ (match ?e with _ => _ end) => destruct e
  | |- orderly _ _ => solve [eauto with order]
  | |- orderly _ _ => apply orderly_weaken; solve [eauto with order]
  end.

Ltac order := repeat order_step.

Section OrderShared.

Context {W : Type}.
Variable rec : methods W.
Hypothesis Hrec : all_orderly rec.

Lemma orderly_hook_isReady b step : orderly b (hook_isReady rec step).
Proof using Hrec.
  destruct Hrec as (_ & _ & _ & Hready & _). unfold hook_isReady. order.
Qed.

Lemma orderly_hook_isComplete b missing throwOnError step :
  orderly b (hook_isComplete rec missing throwOnError step).
Proof using Hrec.
  destruct Hrec as (_ & _ & _ & _ & Hcomplete & _). unfold hook_isComplete. order.
Qed.

Lemma orderly_back this fromChild : orderly None (back rec this fromChild).
Proof using Hrec.
  destruct Hrec as (_ & _ & Hback & _). unfold back. order.
Qed.

Lemma orderly_subscribe this observer : orderly None (subscribe rec this observer).
Proof using Hrec.
  destruct Hrec as (_ & _ & _ & _ & _ & Hsubscribe & _). unfold subscribe. order.
Qed.

Lemma orderly_unsubscribe this observer : orderly None (unsubscribe rec this observer).
Proof using Hrec.
  destruct Hrec as (_ & _ & _ & _ & _ & _ & Hunsubscribe & _). unfold unsubscribe. order.
Qed.

End OrderShared.

#[local] Hint Resolve orderly_hook_isReady orderly_hook_isComplete orderly_back
  orderly_subscribe orderly_unsubscribe : order.

Section OrderConvFlow.

Context {W : Type}.
Variable import_ : importer W.
Variable rec : methods W.
Hypothesis Hrec : all_orderly rec.

Lemma ConvFlow_orderly_get this id : orderly None (ConvFlow.get import_ rec this id).
Proof using Hrec.
  destruct Hrec as (Hconv & _). unfold ConvFlow.get.
  apply orderly_self_bind. intros c. order.
Qed.

Lemma ConvFlow_orderly_scan this edges :
  orderly None (ConvFlow.scan import_ rec this edges).
Proof using Hrec.
  pose proof ConvFlow_orderly_get.
  induction edges as [|e edges IH]; simpl; order.
Qed.

Lemma ConvFlow_orderly_genLoop this id next :
  orderly None (ConvFlow.genLoop import_ rec this id next).
Proof using Hrec.
  pose proof ConvFlow_orderly_get. pose proof ConvFlow_orderly_scan.
  destruct Hrec as (_ & _ & _ & _ & _ & _ & _ & _ & Hloop).
  unfold ConvFlow.genLoop. order.
Qed.

Lemma ConvFlow_orderly_genNext this id :
  orderly None (ConvFlow.genNext import_ rec this id).
Proof using Hrec.
  pose proof ConvFlow_orderly_genLoop. unfold ConvFlow.genNext. order.
Qed.

Lemma ConvFlow_orderly_findLoop this index step :
  orderly None (ConvFlow.findLoop import_ rec this index step).
Proof using Hrec.
  pose proof ConvFlow_orderly_get.
  destruct Hrec as (_ & _ & _ & _ & _ & _ & _ & Hloop & _).
  unfold ConvFlow.findLoop. order.
Qed.

Lemma ConvFlow_orderly_findStart this start :
  orderly None (ConvFlow.findStart import_ rec this start).
Proof using Hrec.
  pose proof ConvFlow_orderly_get. pose proof ConvFlow_orderly_findLoop.
  pose proof ConvFlow_orderly_genNext.
  unfold ConvFlow.findStart. order.
Qed.

Lemma ConvFlow_orderly_conversation props :
  orderly (cp_conversation props) (ConvFlow.conversation import_ rec props).
Proof using Hrec.
  pose proof ConvFlow_orderly_findStart. unfold ConvFlow.conversation.
  apply orderly_bind; [order|]. intros observers.
  destruct (cp_flow props) as [flow|]; [|order].
  destruct (strict_eq _ _); [|order].
  apply orderly_bind; [apply orderly_allocate|]. intros this. order.
Qed.

Lemma ConvFlow_orderly_continue this id fromChild :
  orderly None (ConvFlow.continue import_ rec this id fromChild).
Proof using Hrec.
  pose proof ConvFlow_orderly_genNext.
  destruct Hrec as (_ & Hcontinue & _). unfold ConvFlow.continue. order.
Qed.

Lemma ConvFlow_orderly_isComplete this throwOnError :
  orderly None (ConvFlow.isComplete import_ rec this throwOnError).
Proof using Hrec.
  pose proof ConvFlow_orderly_get. unfold ConvFlow.isComplete. order.
  apply orderly_promise_all, Forall_map, Forall_true. intros s.
  now apply orderly_hook_isComplete.
Qed.

Lemma ConvFlow_all_orderly_methods_of : all_orderly (ConvFlow.methods_of import_ rec).
Proof using Hrec.
  unfold all_orderly.
  repeat match goal with |- _ ∧ _ => split end; simpl; intros.
  - apply ConvFlow_orderly_conversation.
  - apply ConvFlow_orderly_continue.
  - now apply orderly_back.
  - apply orderly_isReady.
  - apply ConvFlow_orderly_isComplete.
  - now apply orderly_subscribe.
  - now apply orderly_unsubscribe.
  - apply ConvFlow_orderly_findLoop.
  - apply ConvFlow_orderly_genLoop.
Qed.

End OrderConvFlow.

Lemma ConvFlow_all_orderly_run {W} (import_ : importer W) fuel :
  all_orderly (ConvFlow.run import_ fuel).
Proof.
  induction fuel; simpl;
    [apply all_orderly_no_fuel | now apply ConvFlow_all_orderly_methods_of].
Qed.

Section OrderFlowchart.

Context {W : Type}.
Variable import_ : importer W.
Variable readFlow : string → res (Flow W).
Variable rec : methods W.
Hypothesis Hrec : all_orderly rec.

Lemma Flowchart_orderly_get this id : orderly None (Flowchart.get import_ rec this id).
Proof using Hrec.
  destruct Hrec as (Hconv & _). unfold Flowchart.get.
  apply orderly_self_bind. intros c. order.
Qed.

Lemma Flowchart_orderly_isComplete_of throwOnError s :
  orderly None (Flowchart.isComplete_of rec throwOnError s).
Proof using Hrec.
  destruct Hrec as (_ & _ & _ & _ & Hcomplete & _). unfold Flowchart.isComplete_of. order.
Qed.

Lemma Flowchart_orderly_isReady_of s : orderly None (Flowchart.isReady_of rec s).
Proof using Hrec.
  destruct Hrec as (_ & _ & _ & Hready & _). unfold Flowchart.isReady_of. order.
Qed.

Lemma Flowchart_orderly_scan this edges next :
  orderly None (Flowchart.scan import_ rec this edges next).
Proof using Hrec.
  pose proof Flowchart_orderly_get. pose proof Flowchart_orderly_isReady_of.
  revert next. induction edges as [|e edges IH]; intros next; simpl; order.
Qed.

Lemma Flowchart_orderly_genNext this id :
  orderly None (Flowchart.genNext import_ rec this id).
Proof using Hrec.
  pose proof Flowchart_orderly_get. pose proof Flowchart_orderly_isComplete_of.
  pose proof Flowchart_orderly_scan. unfold Flowchart.genNext. order.
Qed.

Lemma Flowchart_orderly_findWhile this vertex :
  orderly None (Flowchart.findWhile rec this vertex).
Proof using Hrec.
  pose proof Flowchart_orderly_isComplete_of.
  destruct Hrec as (_ & _ & _ & _ & _ & _ & _ & Hloop & _).
  unfold Flowchart.findWhile. order.
Qed.

Lemma Flowchart_orderly_findLoop this index vertex :
  orderly None (Flowchart.findLoop import_ rec this index vertex).
Proof using Hrec.
  pose proof Flowchart_orderly_genNext. pose proof Flowchart_orderly_findWhile.
  unfold Flowchart.findLoop. order.
Qed.

Lemma Flowchart_orderly_findStart this start :
  orderly None (Flowchart.findStart import_ rec this start).
Proof using Hrec.
  pose proof Flowchart_orderly_get. pose proof Flowchart_orderly_genNext.
  pose proof Flowchart_orderly_findWhile.
  unfold Flowchart.findStart. order.
Qed.

Lemma Flowchart_orderly_conversation props :
  orderly (cp_conversation props) (Flowchart.conversation import_ readFlow rec props).
Proof using Hrec.
  pose proof Flowchart_orderly_findStart. unfold Flowchart.conversation.
  apply orderly_bind; [order|]. intros flow.
  apply orderly_bind; [order|]. intros observers.
  destruct flow as [flow|]; [|order].
  destruct (match f_type flow with Some _ => _ | None => _ end); [|order].
  apply orderly_bind; [apply orderly_allocate|]. intros this. order.
Qed.

Lemma Flowchart_orderly_continue this id fromChild :
  orderly None (Flowchart.continue import_ rec this id fromChild).
Proof using Hrec.
  pose proof Flowchart_orderly_genNext. pose proof Flowchart_orderly_isComplete_of.
  destruct Hrec as (_ & Hcontinue & _). unfold Flowchart.continue. order.
Qed.

Lemma Flowchart_orderly_crumbs_started throwOnError crumbs :
  Forall (orderly None) (fst (Flowchart.crumbs_started rec throwOnError crumbs)).
Proof using Hrec.
  destruct Hrec as (_ & _ & _ & _ & Hcomplete & _).
  induction crumbs as [|cur crumbs IH]; simpl; [constructor|].
  destruct (s_hook cur) as [[h|r]|]; [| |constructor].
  - destruct (h_isComplete h); [|constructor].
    destruct (Flowchart.crumbs_started _ _ _). simpl in *.
    constructor; [apply orderly_call | assumption].
  - destruct (Flowchart.crumbs_started _ _ _). simpl in *.
    constructor; [apply Hcomplete | assumption].
Qed.

Lemma Flowchart_orderly_isComplete this throwOnError :
  orderly None (Flowchart.isComplete rec this throwOnError).
Proof using Hrec.
  unfold Flowchart.isComplete. apply orderly_bind; [order|]. intros c.
  pose proof (Flowchart_orderly_crumbs_started throwOnError (breadcrumbs c)) as Hcalls.
  destruct (Flowchart.crumbs_started _ _ _) as [calls whole]. simpl in Hcalls.
  destruct whole.
  - apply orderly_bind; [now apply orderly_promise_all | intros; order].
  - apply orderly_bind; [|intros; order].
    apply orderly_detached. now apply orderly_promise_all.
Qed.

Lemma Flowchart_all_orderly_methods_of :
  all_orderly (Flowchart.methods_of import_ readFlow rec).
Proof using Hrec.
  unfold all_orderly.
  repeat match goal with |- _ ∧ _ => split end; simpl; intros.
  - apply Flowchart_orderly_conversation.
  - apply Flowchart_orderly_continue.
  - now apply orderly_back.
  - apply orderly_isReady.
  - apply Flowchart_orderly_isComplete.
  - now apply orderly_subscribe.
  - now apply orderly_unsubscribe.
  - apply Flowchart_orderly_findLoop.
  - apply orderly_out_of_fuel.
Qed.

End OrderFlowchart.

Lemma Flowchart_all_orderly_run {W} (import_ : importer W) readFlow fuel :
  all_orderly (Flowchart.run import_ readFlow fuel).
Proof.
  induction fuel; simpl;
    [apply all_orderly_no_fuel | now apply Flowchart_all_orderly_methods_of].
Qed.

Section ParentsFirst.

Context {W : Type}.
Variable import_ : importer W.
Variable readFlow : string → res (Flow W).

Lemma asked_of_orderly (rec : methods W) (st : state W) {A} (m : M W A) :
  all_orderly rec → asked_of st rec m →
  ∃ b, orderly b m ∧ ∀ p, b = Some p → p < length (heap st).
Proof.
  intros (Hconv & Hcontinue & Hback & Hready & Hcomplete & Hsub & Hunsub & _) Hm.
  destruct Hm as [props Hp| | | | | |];
    [exists (cp_conversation props); split; [apply Hconv | exact Hp] | ..];
    (exists None; split; [auto | discriminate]).
Qed.

(** X19.  The parent comes first.  A conversation is built with the parent it is
    given, and [get] gives a sub-conversation the conversation that resolves
    it, which is in the store by then.  So when every parent has a smaller
    reference than its child, whatever a client asks of either revision
    leaves it so (a constructor called with a parent being given one of the
    store): the chain of parents of a conversation never loops, and
    [subscribe], [unsubscribe], [back] and [continue], which climb it, come
    to an end. *)
Theorem the_parent_comes_first fuel {A} (m : M W A) (st : state W) r st' :
  asked_of st (ConvFlow.run import_ fuel) m ∨
  asked_of st (Flowchart.run import_ readFlow fuel) m →
  parents_below st →
  m st = (r, st') →
  parents_below st'.
Proof.
  intros Hm Hwf Hrun.
  assert (Horder : ∃ b, orderly b m ∧ ∀ p, b = Some p → p < length (heap st)).
  { destruct Hm as [Hm|Hm]; (eapply asked_of_orderly; [|exact Hm]).
    - apply ConvFlow_all_orderly_run.
    - apply Flowchart_all_orderly_run. }
  destruct Horder as (b & Hb & Hin).
  destruct (Hb _ _ _ Hrun Hin) as [_ Hkeep]. now apply Hkeep.
Qed.

End ParentsFirst.

(** ** The revision that does as claimed *)

Section Siblings.

Context {W : Type}.
Variable import_ : importer W.
Variable readFlow : string → res (Flow W).

(** X20.  In the revision over conversation flows the scan of the outgoing edges
    answers with a step exactly when some edge leads to a step that resolves
    and is ready while every edge declared before it was resolved, asked and
    found not ready; it answers with nothing exactly when every edge was so
    passed over.  The first ready successor wins, in the order of the
    edges. *)
Theorem ConvFlow_scan_stops_at_the_first_ready
  (rec : methods W) this edges (st st' : state W) next :
  ConvFlow.scan import_ rec this edges st = (Ok next, st') ↔
  match next with
  | Some s =>
      ∃ before e after st1 st2,
        edges = before ++ e :: after ∧
        passed_over (ConvFlow.get import_ rec this) (hook_isReady rec) before st st1 ∧
        ConvFlow.get import_ rec this (Some (e_end e)) st1 = (Ok (Some s), st2) ∧
        hook_isReady rec (Some s) st2 = (Ok true, st')
  | None =>
      passed_over (ConvFlow.get import_ rec this) (hook_isReady rec) edges st st'
  end.
Proof. apply ConvFlow_scan_takes_the_first_ready. Qed.

(** X21.  In the revision over conversation flows [isComplete()] asks the
    current step and every breadcrumb again, in that order, and answers
    true exactly when every one of them answers true (a step without a hook,
    or a hook without the method, counting for true): one step of the
    history that is no longer complete makes the answer false. *)
Theorem ConvFlow_isComplete_is_the_conjunction
  (rec : methods W) this (c : Conversation W) current throwOnError (st st' : state W) b :
  heap st !! this = Some c →
  c_step c = Resolved current →
  ConvFlow.isComplete import_ rec this throwOnError st = (Ok b, st') ↔
  ∃ passes,
    all_answer (map (hook_isComplete rec true throwOnError)
                    (current :: map Some (breadcrumbs c))) st passes st' ∧
    length passes = S (length (breadcrumbs c)) ∧
    (b = true ↔ Forall (λ pass, pass = true) passes).
Proof. apply ConvFlow_isComplete_asks_everyone. Qed.

(** X22.  In the revision over flowcharts resolving a subroutine fails with
    'No source provided for subroutine' exactly when the vertex has neither
    a [src] nor an embedded [flow]. *)
Theorem Flowchart_subroutine_needs_a_src_or_a_flow
  fuel this (c : Conversation W) id v (st : state W) :
  heap st !! this = Some c →
  id ≠ "" →
  lookup_vertex id (f_vertices (c_flow c)) = Some v →
  v_type v = Some "subroutine" →
  fst (Flowchart.get import_ (Flowchart.run import_ readFlow fuel) this (Some id) st)
    = Throw (MissingSubroutineSource id) ↔
  truthy (p_src (v_props v)) = false ∧ p_flow (v_props v) = None.
Proof. apply Flowchart_subroutine_needs_a_source. Qed.

End Siblings.

(** ** The further theorems at work *)

Section FurtherAtWork.

Import Scenario Samples.

Lemma parse_lists_the_entries_witness :
  ∃ flow,
    Parser.parse mermaid "diagram" = inr flow ∧
    (∀ id, id ∈ Parser.pf_starts flow ↔
           ∃ v, (id, v) ∈ Parser.d_vertices diagram ∧
                is_entry (Parser.d_edges diagram) id v) ∧
    sublist (Parser.pf_starts flow) (map fst (Parser.d_vertices diagram)).
Proof.
  apply (parse_lists_the_entries mermaid "diagram" diagram); reflexivity.
Defined.

Lemma both_revisions_resolve_a_step_alike_witness :
  let sta := built A (parsed "diagram") None in
  let stb := built B (charted "diagram") None in
  let ra := ConvFlow.get no_import A 0 (Some "END") sta in
  let rb := Flowchart.get no_import B 0 (Some "END") stb in
  fst ra = fst rb ∧
  world (snd ra) = world (snd rb) ∧
  heap (snd ra) = heap sta ∧ heap (snd rb) = heap stb ∧
  (∀ s, fst ra = Ok (Some s) →
        s_id s = "END" ∧ s_edges s = Flowchart.adjacent "END" (Parser.d_edges diagram)).
Proof.
  intros sta stb.
  eapply (both_revisions_resolve_a_step_alike mermaid no_import "diagram" diagram A B 0 0).
  - reflexivity.
  - reflexivity.
  - reflexivity.
  - vm_compute. reflexivity.
  - reflexivity.
  - vm_compute. reflexivity.
  - reflexivity.
  - reflexivity.
  - discriminate.
  - intros v Hv. vm_compute in Hv. injection Hv as <-. discriminate.
Defined.


Lemma a_flowchart_without_entry_cannot_start_witness :
  ∃ flow,
    Parser.parse mermaid "cycle" = inr flow ∧
    (cp_flow (root (parsed "cycle") None) = Some (Parser.as_flow flow) →
     let r := conversation_ (ConvFlow.run no_import 2) (root (parsed "cycle") None)
                            (initial []) in
     fst r = Ok 0 ∧
     (∃ c, heap (snd r) !! 0 = Some c ∧ c_step c = Rejected NoStartFound) ∧
     fst (isReady_ (ConvFlow.run no_import 1) 0 (snd r)) = Throw NoStartFound).
Proof.
  apply (a_flowchart_without_entry_cannot_start mermaid no_import "cycle" cycle 0
           (root (parsed "cycle") None) (initial [])).
  - reflexivity.
  - reflexivity.
  - intros id v Hin [Htype Hfree].
    apply elem_of_cons in Hin as [[= -> ->] | Hin].
    + apply (Hfree (edge "b" "a")); [|reflexivity].
      apply list_elem_of_further, list_elem_of_here.
    + apply list_elem_of_singleton in Hin as [= -> ->]. discriminate.
  - reflexivity.
Defined.

Lemma fromFile_only_adds_sources_witness :
  match Parser.parse mermaid "diagram" with
  | inl e => Parser.fromFile mermaid files beside "test.uml" (Some "out") = inl e
  | inr flow =>
      ∃ out warned,
        Parser.fromFile mermaid files beside "test.uml" (Some "out") = inr (out, warned) ∧
        Parser.pf_starts out = Parser.pf_starts flow ∧
        Parser.pf_type out = Parser.pf_type flow ∧
        Forall2 (λ before after,
                   after.1 = before.1 ∧
                   same_but_src before.2 after.2 ∧
                   p_src (Parser.fs_props after.2) =
                     if needs_source before.2
                     then Some (beside (default "" (Parser.fs_link before.2))
                                       (if truthy (Some "out") then Some "out" else None))
                     else p_src (Parser.fs_props before.2))
                (Parser.pf_steps flow) (Parser.pf_steps out) ∧
        (∀ id, id ∈ warned ↔
               ∃ step, (id, step) ∈ Parser.pf_steps flow ∧
                       Parser.fs_type step = Some "subroutine" ∧
                       truthy (Parser.fs_link step) = false)
  end.
Proof.
  apply (fromFile_only_adds_sources mermaid files beside "test.uml" (Some "out") "diagram").
  reflexivity.
Defined.

Lemma unsubscribe_removes_the_first_registration_witness :
  ∃ st', unsubscribe_ A 0 7 two_observers = (Ok tt, st') ∧ arrays st' = [[8]].
Proof.
  eexists. split.
  - eapply (unsubscribe_removes_the_first_registration no_import no_file 19 0 _ [] [8] 7
              two_observers).
    + vm_compute. reflexivity.
    + reflexivity.
    + reflexivity.
    + apply not_elem_of_nil.
    + left. reflexivity.
  - reflexivity.
Defined.

Lemma in_sub_nested : nested_on in_sub 0 1 1.
Proof.
  eapply nested_child; [vm_compute; reflexivity | reflexivity | reflexivity |].
  eapply nested_root; [vm_compute; reflexivity | reflexivity | reflexivity].
Defined.

Lemma subscribe_registers_once_per_level_witness :
  ∃ st', subscribe_ A 1 8 in_sub = (Ok tt, st') ∧ arrays st' = [[7; 8; 8]].
Proof.
  eexists. split.
  - eapply (subscribe_registers_once_per_level no_import no_file 20 1 0 1 [7] 8 in_sub).
    + exact in_sub_nested.
    + reflexivity.
    + lia.
    + left. reflexivity.
  - reflexivity.
Defined.

Lemma subscribe_then_unsubscribe_restores_witness :
  (subscribe_ A 1 8;; unsubscribe_ A 1 8) in_sub = (Ok tt, in_sub) ∧
  (subscribe_ (Flowchart.run no_import no_file 20) 1 8;;
   unsubscribe_ (Flowchart.run no_import no_file 20) 1 8) in_sub = (Ok tt, in_sub).
Proof.
  apply (subscribe_then_unsubscribe_restores no_import no_file 20 1 0 1 [7] 8 in_sub).
  - exact in_sub_nested.
  - reflexivity.
  - intros Hin. apply list_elem_of_singleton in Hin. discriminate.
  - lia.
Defined.

Lemma isReady_and_isComplete_only_look_witness :
  let r := isComplete_ A 0 false in_sub_at_s2 in
  heap (snd r) = heap in_sub_at_s2 ∧ log (snd r) = log in_sub_at_s2 ∧
  arrays (snd r) = arrays in_sub_at_s2.
Proof.
  intros r.
  apply (isReady_and_isComplete_only_look no_import no_file 20 (isComplete_ A 0 false)
           in_sub_at_s2 (fst r)).
  - left. apply looks_isComplete.
  - apply surjective_pairing.
Defined.

Lemma a_conversation_keeps_its_flow_parent_and_observers_witness :
  let st := set_world ["start"] (built A (outer "conversation") None) in
  let r := continue_ A 0 None false st in
  length (heap st) ≤ length (heap (snd r)) ∧
  ∀ i c, heap st !! i = Some c →
         ∃ c', heap (snd r) !! i = Some c' ∧
               c_flow c' = c_flow c ∧ c_parent c' = c_parent c ∧
               c_observers c' = c_observers c.
Proof.
  intros st r.
  apply (a_conversation_keeps_its_flow_parent_and_observers no_import no_file 20
           (continue_ A 0 None false) st (fst r)).
  - left. apply asked_continue.
  - apply surjective_pairing.
Defined.


Lemma built_outer_root : nested_on (built A (outer "conversation") None) 0 0 0.
Proof. eapply nested_root; [vm_compute; reflexivity | reflexivity | reflexivity]. Defined.

Lemma a_subroutine_is_a_child_with_the_same_observers_witness :
  let st := built A (outer "conversation") None in
  let r := ConvFlow.get no_import (ConvFlow.run no_import 20) 0 (Some "sub") st in
  (∃ cc, heap (snd r) !! 1 = Some cc ∧ c_flow cc = inner "conversation" ∧
         c_parent cc = Some 0 ∧ c_observers cc = 0) ∧
  nested_on (snd r) 0 1 1.
Proof.
  intros st r.
  edestruct (a_subroutine_is_a_child_with_the_same_observers no_import no_file 19 0)
    with (id := "sub") (flow := inner "conversation") (a := 0) (k := 0) (st := st)
    as [Hconv _].
  - vm_compute. reflexivity.
  - discriminate.
  - reflexivity.
  - reflexivity.
  - reflexivity.
  - exact built_outer_root.
  - destruct (Hconv eq_refl) as (_ & Hchild & Hnest). split; [exact Hchild | exact Hnest].
Defined.

Lemma built_two_ready_step :
  heap (built A (two_ready "conversation") None) !! 0
  = Some {| c_flow := two_ready "conversation"; c_gen := GYield start_step;
            c_observers := 0; c_parent := None;
            c_step := Resolved (Some start_step); breadcrumbs := [] |}.
Proof. vm_compute. reflexivity. Defined.

Lemma built_two_ready_chart :
  heap (built B (two_ready "flowchart") None) !! 0
  = Some {| c_flow := two_ready "flowchart"; c_gen := GYield start_step;
            c_observers := 0; c_parent := None;
            c_step := Resolved (Some start_step); breadcrumbs := [] |}.
Proof. vm_compute. reflexivity. Defined.

Lemma a_target_does_not_skip_an_incomplete_step_witness :
  let st := built A (two_ready "conversation") None in
  continue_ (ConvFlow.run no_import 20) 0 (Some "b") false st = (Ok (Some start_step), st).
Proof.
  intros st.
  refine (eq_trans (a_target_does_not_skip_an_incomplete_step no_import 19 0 _ start_step
                      (Some "b") [] st built_two_ready_step eq_refl eq_refl _) _).
  - eexists _, _. repeat split; reflexivity.
  - reflexivity.
Defined.

Lemma Flowchart_unknown_target_ends_the_conversation_witness :
  let st := built B (two_ready "flowchart") None in
  let r := continue_ (Flowchart.run no_import no_file 20) 0 (Some "nowhere") false st in
  fst r = Ok None ∧ current 0 (snd r) = Some (Resolved None) ∧
  heard (snd r) = [(0, Some "start", Some "start"); (0, Some "done", None)].
Proof.
  intros st r.
  edestruct (Flowchart_unknown_target_ends_the_conversation no_import no_file 19 0)
    with (id := "nowhere") (st := st) as (Hr & Hheap & Hlog & _).
  - exact built_two_ready_chart.
  - reflexivity.
  - intros child. discriminate.
  - reflexivity.
  - reflexivity.
  - discriminate.
  - reflexivity.
  - split; [exact Hr|]. unfold current, heard, r. rewrite Hheap, Hlog.
    split; reflexivity.
Defined.

Lemma ConvFlow_unknown_target_ends_the_conversation_witness :
  let st := set_world ["start"] (built A (two_ready "conversation") None) in
  let r := continue_ (ConvFlow.run no_import 20) 0 (Some "nowhere") false st in
  fst r = Ok None ∧ current 0 (snd r) = Some (Resolved None) ∧
  crumbs 0 (snd r) = ["start"] ∧
  heard (snd r) = [(0, Some "start", Some "start"); (0, Some "done", None)].
Proof.
  intros st r.
  edestruct (ConvFlow_unknown_target_ends_the_conversation no_import 18 0)
    with (s := start_step) (id := "nowhere") (w' := ["start"]) (st := st)
    as (Hr & Hheap & Hlog & _).
  - exact built_two_ready_step.
  - reflexivity.
  - reflexivity.
  - reflexivity.
  - eexists _, _. repeat split; reflexivity.
  - discriminate.
  - reflexivity.
  - split; [exact Hr|]. unfold current, crumbs, heard, r. rewrite Hheap, Hlog.
    repeat split; reflexivity.
Defined.


Lemma Flowchart_target_is_taken_at_once_witness :
  let st := built B (two_ready "flowchart") None in
  let b_step := {| s_edges := {| a_from := [edge "start" "b"]; a_to := [] |};
                   s_hook := Some (Leaf (hook_of "b" true)); s_id := "b" |} in
  ∃ c,
    heap st !! 0 = Some c ∧ breadcrumbs c = [] ∧
    let r := continue_ (Flowchart.run no_import no_file 20) 0 (Some "b") false st in
    fst r = Ok (Some b_step) ∧
    heap (snd r) = <[0 := with_step (Resolved (Some b_step))
                            (with_gen (GYield b_step) c)]> (heap st) ∧
    log (snd r) = log st ++ calls 0 (Some "b") (Some b_step) [7].
Proof.
  intros st b_step. eexists. split; [exact built_two_ready_chart|].
  split; [reflexivity|].
  edestruct (Flowchart_target_is_taken_at_once no_import no_file 19 0)
    with (id := "b") (t := b_step) (st := st) (st1 := st) (st2 := st)
    as (Hr & Hheap & Hlog).
  - exact built_two_ready_chart.
  - reflexivity.
  - intros child. discriminate.
  - reflexivity.
  - discriminate.
  - vm_compute. reflexivity.
  - vm_compute. reflexivity.
  - split; [exact Hr|]. split; [exact Hheap|]. apply Hlog. left. discriminate.
Defined.

Lemma ConvFlow_continue_moves_on_witness :
  let A := ConvFlow.run no_import in
  let st := set_world ["start"] (built (A 20) (two_ready "conversation") None) in
  let st3 := set_world ["start"] st in
  ∃ c,
    heap st !! 0 = Some c ∧
    let r := continue_ (A 20) 0 None false st in
    fst r = Ok (Some a_step) ∧
    heap (snd r) = <[0 := with_step (Resolved (Some a_step))
                            (with_gen (GYield a_step)
                               (with_breadcrumbs (breadcrumbs c ++ [start_step]) c))]>
                     (heap (update 0 (λ c, with_breadcrumbs (breadcrumbs c ++ [start_step]) c)
                              st3)) ∧
    log (snd r) = log st ++ calls 0 (Some "continue") (Some a_step) [7].
Proof.
  intros A st st3. eexists. split; [exact built_two_ready_step|].
  edestruct (ConvFlow_continue_moves_on no_import 18 0)
    with (cur := start_step) (id := @None string) (t := a_step) (st := st) (st1 := st3)
         (st2 := update 0 (λ c, with_breadcrumbs (breadcrumbs c ++ [start_step]) c) st3)
         (st3 := update 0 (λ c, with_breadcrumbs (breadcrumbs c ++ [start_step]) c) st3)
    as (Hr & Hheap & Hlog).
  - exact built_two_ready_step.
  - reflexivity.
  - intros child. discriminate.
  - reflexivity.
  - reflexivity.
  - reflexivity.
  - reflexivity.
  - discriminate.
  - split; [exact Hr|]. split; [exact Hheap|]. apply Hlog. left. discriminate.
Defined.

Lemma skip_never_ready : never_ready no_import 0 0 two_entries "skip".
Proof.
  intros fuel fuel' st c _ _ Hc Hflow.
  eexists _, _, _. split.
  - unfold ConvFlow.get. rewrite (bind_Ok _ _ _ _ _ (self_Ok _ _ _ Hc)), Hflow.
    reflexivity.
  - reflexivity.
Defined.

Lemma start_ready_when_asked : ready_when_asked no_import 0 0 two_entries "start".
Proof.
  intros fuel fuel' st c _ _ Hc Hflow.
  eexists _, _, _. split.
  - unfold ConvFlow.get. rewrite (bind_Ok _ _ _ _ _ (self_Ok _ _ _ Hc)), Hflow.
    reflexivity.
  - reflexivity.
Defined.


Lemma Flowchart_without_an_entry_cannot_start_witness :
  let r := conversation_ (Flowchart.run no_import no_file 20) (root no_stadium None)
                         (initial []) in
  fst r = Ok 0 ∧
  (∃ c, heap (snd r) !! 0 = Some c ∧ c_step c = Rejected NoStartFound) ∧
  fst (isReady_ (Flowchart.run no_import no_file 20) 0 (snd r)) = Throw NoStartFound.
Proof.
  apply (Flowchart_without_an_entry_cannot_start no_import no_file 19 (root no_stadium None)
           no_stadium "flowchart" (initial [])).
  - reflexivity.
  - reflexivity.
  - reflexivity.
  - reflexivity.
  - reflexivity.
  - intros id v Hin. apply list_elem_of_singleton in Hin. injection Hin as -> ->.
    split; discriminate.
Defined.

Lemma Flowchart_starts_on_the_first_entry_witness :
  let r := conversation_ (Flowchart.run no_import no_file 20)
                         (root (two_ready "flowchart") None) (initial []) in
  fst r = Ok 0 ∧
  (∃ c, heap (snd r) !! 0 = Some c ∧
        c_step c = Resolved (Some start_step) ∧ c_gen c = GYield start_step ∧
        breadcrumbs c = []) ∧
  fst (isReady_ (Flowchart.run no_import no_file 20) 0 (snd r)) = Ok true.
Proof.
  eapply (Flowchart_starts_on_the_first_entry no_import no_file 19
            (root (two_ready "flowchart") None) (two_ready "flowchart") "flowchart"
            [] "start" _ _ start_step (initial [])).
  - reflexivity.
  - reflexivity.
  - reflexivity.
  - reflexivity.
  - reflexivity.
  - reflexivity.
  - intros id' v' Hin. now apply elem_of_nil in Hin.
  - left. reflexivity.
  - vm_compute. reflexivity.
  - vm_compute. reflexivity.
Defined.

Lemma in_sub_parents_below : parents_below in_sub.
Proof.
  intros i c p Hi Hp.
  destruct i as [|[|i]]; vm_compute in Hi; [| |discriminate];
    injection Hi as <-; [discriminate|]. injection Hp as <-. lia.
Defined.

Lemma the_parent_comes_first_witness :
  parents_below (snd (continue_ A 0 None false (set_world ["start"; "s1"] in_sub))).
Proof.
  apply (the_parent_comes_first no_import no_file 20 (continue_ A 0 None false)
           (set_world ["start"; "s1"] in_sub)
           (fst (continue_ A 0 None false (set_world ["start"; "s1"] in_sub)))).
  - left. apply of_continue.
  - exact in_sub_parents_below.
  - apply surjective_pairing.
Defined.


Lemma ConvFlow_isComplete_is_the_conjunction_witness :
  let st := set_world [] (moved_on A "conversation") in
  ∃ c current,
    heap st !! 0 = Some c ∧ c_step c = Resolved current ∧
    (ConvFlow.isComplete no_import A 0 false st = (Ok false, st) ↔
     ∃ passes,
       all_answer (map (hook_isComplete A true false)
                       (current :: map Some (breadcrumbs c))) st passes st ∧
       length passes = S (length (breadcrumbs c)) ∧
       (false = true ↔ Forall (λ pass, pass = true) passes)).
Proof.
  intros st. eexists _, _. split; [vm_compute; reflexivity|]. split; [reflexivity|].
  apply (ConvFlow_isComplete_is_the_conjunction no_import A 0 _ _ false st st false).
  - vm_compute. reflexivity.
  - reflexivity.
Defined.

Lemma Flowchart_subroutine_needs_a_src_or_a_flow_witness :
  let st := built B (sub_src "flowchart") None in
  ∃ v, lookup_vertex "sub" (f_vertices (sub_src "flowchart")) = Some v ∧
       (fst (Flowchart.get no_import (Flowchart.run no_import no_file 20) 0 (Some "sub") st)
          = Throw (MissingSubroutineSource "sub") ↔
        truthy (p_src (v_props v)) = false ∧ p_flow (v_props v) = None).
Proof.
  intros st. eexists. split; [reflexivity|].
  eapply (Flowchart_subroutine_needs_a_src_or_a_flow no_import no_file 20 0 _ "sub" _ st).
  - vm_compute. reflexivity.
  - discriminate.
  - reflexivity.
  - reflexivity.
Defined.

End FurtherAtWork.
